(** * Verification of the RAG core of chatbot_study

    A shallow embedding of

      - [src/utils/chunker.py]       (MarkdownChunker),
      - [src/utils/text_quality.py]  (detect_repetition, clean_repetitive_text,
                                      validate_answer_quality, post_process_answer),
      - [src/services/prompt.py]     (RAGPromptTemplate),
      - [src/services/pipeline.py]   (RAGPipeline.retrieve / generate / run),

    together with the properties that the design document states about them.

    Conventions of the embedding.

      - A Python [str] is a sequence of Unicode code points: [str := list N].
        [len] therefore counts code points, as in Python.  Literals are written
        as UTF-8 Rocq strings and decoded by [py].
      - Python [int] is [Z]; Python [float] values that the code only compares
        or divides (scores, ratios, thresholds) are exact rationals [Q].
      - An operation that can raise returns [result A := exn + A]; code that
        talks to a collaborator runs in the monad [M], which also records the
        collaborator calls that were made.
      - [logger] calls are not part of the model. *)

From Stdlib Require Import List ZArith NArith QArith Bool Lia.
From Stdlib Require String Ascii.
Import String.StringSyntax.
Delimit Scope string_scope with string.
From Stdlib Require Import Numbers.DecimalString.
Import ListNotations.

Local Open Scope Z_scope.

(* ================================================================== *)
(** ** Python strings                                                   *)
(* ================================================================== *)

Module PyStr.

(** A code point, and a string. *)
Abbreviation char := N (only parsing).
Abbreviation str := (list N) (only parsing).

Definition char_eqb (a b : char) : bool := N.eqb a b.

Definition str_eq_dec : forall a b : str, {a = b} + {a <> b} :=
  list_eq_dec N.eq_dec.

Definition str_eqb (a b : str) : bool :=
  if str_eq_dec a b then true else false.

(** [len(s)] *)
Definition len (s : str) : Z := Z.of_nat (length s).

(** Truthiness of a string: [if s:] *)
Definition truthy (s : str) : bool :=
  match s with [] => false | _ => true end.

(** *** Literals: UTF-8 decoding of Rocq strings *)

Fixpoint utf8_decode (fuel : nat) (bs : list N) : str :=
  match fuel with
  | O => []
  | S fuel' =>
    match bs with
    | [] => []
    | b0 :: r0 =>
      if (b0 <? 128)%N then b0 :: utf8_decode fuel' r0
      else if (b0 <? 224)%N then
        match r0 with
        | b1 :: r1 =>
            ((b0 - 192) * 64 + (b1 - 128))%N :: utf8_decode fuel' r1
        | _ => []
        end
      else if (b0 <? 240)%N then
        match r0 with
        | b1 :: b2 :: r2 =>
            ((b0 - 224) * 4096 + (b1 - 128) * 64 + (b2 - 128))%N
              :: utf8_decode fuel' r2
        | _ => []
        end
      else
        match r0 with
        | b1 :: b2 :: b3 :: r3 =>
            ((b0 - 240) * 262144 + (b1 - 128) * 4096
             + (b2 - 128) * 64 + (b3 - 128))%N :: utf8_decode fuel' r3
        | _ => []
        end
    end
  end.

Fixpoint bytes_of (s : String.string) : list N :=
  match s with
  | String.EmptyString => []
  | String.String a r => Ascii.N_of_ascii a :: bytes_of r
  end.

Definition py (s : String.string) : str :=
  let bs := bytes_of s in utf8_decode (length bs) bs.

Arguments py s%_string.

(** Frequently used code points. *)
Definition c_nl : char := 10%N.       (* "\n" *)
Definition c_space : char := 32%N.    (* " "  *)
Definition c_bang : char := 33%N.     (* "!"  *)
Definition c_dquote : char := 34%N.   (* the double quote *)
Definition c_hash : char := 35%N.     (* "#"  *)
Definition c_dot : char := 46%N.      (* "."  *)
Definition c_qmark : char := 63%N.    (* "?"  *)

(** *** Whitespace: [str.isspace] on one code point, which is also what the
    regular-expression class [\s] matches on [str] patterns. *)
Definition isspace (c : char) : bool :=
  ((9 <=? c) && (c <=? 13) || (28 <=? c) && (c <=? 32)
   || (c =? 133) || (c =? 160) || (c =? 5760)
   || (8192 <=? c) && (c <=? 8202)
   || (c =? 8232) || (c =? 8233) || (c =? 8239) || (c =? 8287)
   || (c =? 12288))%N.

(** *** strip / lstrip / rstrip *)

Fixpoint dropwhile (p : char -> bool) (s : str) : str :=
  match s with
  | [] => []
  | c :: r => if p c then dropwhile p r else s
  end.

Definition lstrip_by (p : char -> bool) (s : str) : str := dropwhile p s.
Definition rstrip_by (p : char -> bool) (s : str) : str :=
  rev (dropwhile p (rev s)).

(** [s.strip()], [s.rstrip()] *)
Definition lstrip (s : str) : str := lstrip_by isspace s.
Definition rstrip (s : str) : str := rstrip_by isspace s.
Definition strip (s : str) : str := rstrip (lstrip s).

(** [s.rstrip(chars)] *)
Definition rstrip_chars (chars : str) (s : str) : str :=
  rstrip_by (fun c => existsb (char_eqb c) chars) s.

(** [s.startswith(p)] *)
Fixpoint startswith (p s : str) : bool :=
  match p, s with
  | [], _ => true
  | _ :: _, [] => false
  | a :: p', b :: s' => char_eqb a b && startswith p' s'
  end.

(** [p in s] for strings *)
Fixpoint contains (p s : str) : bool :=
  startswith p s ||
  match s with
  | [] => false
  | _ :: s' => contains p s'
  end.

(** [s[-1]], which raises IndexError on the empty string: [None] there. *)
Definition last_char (s : str) : option char :=
  match rev s with [] => None | c :: _ => Some c end.

(** *** split and join *)

(** [s.split(sep)] for a one-character separator: empty pieces are kept. *)
Fixpoint split_on_go (sep : char) (cur : str) (s : str) : list str :=
  match s with
  | [] => [rev cur]
  | c :: r =>
      if char_eqb c sep then rev cur :: split_on_go sep [] r
      else split_on_go sep (c :: cur) r
  end.

Definition split_on (sep : char) (s : str) : list str := split_on_go sep [] s.

(** Maximal runs of characters satisfying [p]; with [p := not isspace] this
    is [s.split()], with [p := \w] it is [re.findall(r'\b\w+\b', s)]. *)
Fixpoint runs_go (p : char -> bool) (cur : str) (s : str) : list str :=
  match s with
  | [] => match cur with [] => [] | _ => [rev cur] end
  | c :: r =>
      if p c then runs_go p (c :: cur) r
      else match cur with
           | [] => runs_go p [] r
           | _ => rev cur :: runs_go p [] r
           end
  end.

Definition runs (p : char -> bool) (s : str) : list str := runs_go p [] s.

(** [s.split()] *)
Definition words (s : str) : list str := runs (fun c => negb (isspace c)) s.

(** [sep.join(l)] *)
Fixpoint join (sep : str) (l : list str) : str :=
  match l with
  | [] => []
  | [x] => x
  | x :: r => x ++ sep ++ join sep r
  end.

(** *** Slicing and searching with Python's index conventions *)

(** Clamp a slice bound: negative bounds count from the end. *)
Definition slice_bound (n i : Z) : Z :=
  if i <? 0 then Z.max 0 (n + i) else Z.min i n.

(** [s[a:b]] *)
Definition slice (s : str) (a b : Z) : str :=
  let n := len s in
  let a' := slice_bound n a in
  let b' := slice_bound n b in
  firstn (Z.to_nat (b' - a')) (skipn (Z.to_nat a') s).

(** [s[:b]] *)
Definition slice_to (s : str) (b : Z) : str := slice s 0 b.

(** Index of the last occurrence of [c] in a list, counted from [base]. *)
Fixpoint rfind_from (c : char) (base : Z) (s : str) : Z :=
  match s with
  | [] => -1
  | d :: r =>
      let later := rfind_from c (base + 1) r in
      if 0 <=? later then later
      else if char_eqb d c then base else -1
  end.

(** [s.rfind(c, a, b)] for a one-character needle. *)
Definition rfind (s : str) (c : char) (a b : Z) : Z :=
  let n := len s in
  let a' := slice_bound n a in
  let b' := slice_bound n b in
  rfind_from c a' (firstn (Z.to_nat (b' - a')) (skipn (Z.to_nat a') s)).

(** [str(i)] for an integer. *)
Definition str_of_Z (i : Z) : str :=
  let digits := py (NilEmpty.string_of_uint (N.to_uint (Z.to_N (Z.abs i)))) in
  if i <? 0 then 45%N :: digits else digits.

End PyStr.
Import PyStr.

(* ================================================================== *)
(** ** Exceptions                                                       *)
(* ================================================================== *)

Inductive exn : Type :=
| ZeroDivisionError
| IndexError
| ValueError (msg : str)
| RuntimeError (msg : str)
| OtherError (msg : str).

Definition result (A : Type) : Type := (exn + A)%type.

Definition Ok {A} (a : A) : result A := inr a.
Definition Raise {A} (e : exn) : result A := inl e.

Definition rbind {A B} (m : result A) (k : A -> result B) : result B :=
  match m with
  | inl e => inl e
  | inr a => k a
  end.

Declare Scope result_scope.
Delimit Scope result_scope with result.
Notation "x <- m ;; k" := (rbind m (fun x => k))
  (at level 61, m at next level, right associativity) : result_scope.
Notation "' pat <- m ;; k" := (rbind m (fun x => match x with pat => k end))
  (at level 61, pat pattern, m at next level, right associativity) : result_scope.

(** A computation returns normally. *)
Definition returns {A} (m : result A) : Prop := exists a, m = Ok a.

(** The partial primitives of Python that the code under study uses. *)

(** [a / b] on integers (true division). *)
Definition py_truediv (a b : Z) : result Q :=
  if b =? 0 then Raise ZeroDivisionError
  else if 0 <? b then Ok (a # Z.to_pos b)
  else Ok ((- a) # Z.to_pos (- b)).

(** [max(l)] on a sequence of integers. *)
Definition py_max (l : list Z) : result Z :=
  match l with
  | [] => Raise (ValueError (py "max() arg is an empty sequence"))
  | x :: r => Ok (fold_left Z.max r x)
  end.

(** [s[-1]] on a string. *)
Definition py_last (s : str) : result char :=
  match last_char s with
  | None => Raise IndexError
  | Some c => Ok c
  end.

(** [l[-1]] on a list of strings. *)
Definition py_last_item (l : list str) : result str :=
  match rev l with
  | [] => Raise IndexError
  | x :: _ => Ok x
  end.

(** Strict comparison of rationals as a boolean. *)
Definition Qltb (x y : Q) : bool := negb (Qle_bool y x).

(* ================================================================== *)
(** ** Python sets of strings and dictionaries keyed by strings         *)
(* ================================================================== *)

Module PySet.

Definition mem (x : str) (s : list str) : bool := existsb (str_eqb x) s.

(** [set(l)] : the distinct elements of [l]. *)
Definition set_of (l : list str) : list str := nodup str_eq_dec l.

(** [s.add(x)] *)
Definition add (x : str) (s : list str) : list str :=
  if mem x s then s else s ++ [x].

(** [a & b] *)
Definition inter (a b : list str) : list str := filter (fun x => mem x b) a.

(** [a | b] *)
Definition union (a b : list str) : list str :=
  a ++ filter (fun x => negb (mem x a)) b.

(** [a - b] *)
Definition diff (a b : list str) : list str :=
  filter (fun x => negb (mem x b)) a.

(** [len(s)] *)
Definition card (s : list str) : Z := Z.of_nat (length s).

End PySet.

Module PyDict.

Definition dict := list (str * Z).

(** [d.get(k, default)] *)
Fixpoint get (d : dict) (k : str) (default : Z) : Z :=
  match d with
  | [] => default
  | (k', v) :: r => if str_eqb k k' then v else get r k default
  end.

(** [d[k] = v] *)
Fixpoint set (d : dict) (k : str) (v : Z) : dict :=
  match d with
  | [] => [(k, v)]
  | (k', v') :: r =>
      if str_eqb k k' then (k', v) :: r else (k', v') :: set r k v
  end.

(** [d.values()] *)
Definition values (d : dict) : list Z := map snd d.

End PyDict.

(* ================================================================== *)
(** ** The regular expressions of text_quality.py                       *)
(* ================================================================== *)

(** The character class [[.!?]]; also the test [c in '.!?']. *)
Definition is_terminator (c : char) : bool :=
  char_eqb c c_dot || char_eqb c c_bang || char_eqb c c_qmark.

Definition starts_with_space (s : str) : bool :=
  match s with
  | d :: _ => isspace d
  | [] => false
  end.

(** [re.split(r'[.!?]\s+', text)] when [capture] is [false] and
    [re.split(r'([.!?]\s+)', text)] when it is [true].

    The scan goes left to right.  Outside a delimiter ([sep = None]) the
    characters are collected in [cur] until a terminator directly followed by
    whitespace is met; inside a delimiter ([sep = Some sp]) the greedy [\s+]
    takes whitespace until the first other character.  A delimiter never
    matches the empty string, so every piece, possibly empty, is kept; with a
    capturing group the delimiters are interleaved with the pieces. *)
Fixpoint re_split_go (capture : bool) (sep : option str) (cur : str)
                     (s : str) : list str :=
  match s with
  | [] =>
      match sep with
      | Some sp => (if capture then [rev sp] else []) ++ [[]]
      | None => [rev cur]
      end
  | c :: r =>
      match sep with
      | Some sp =>
          if isspace c then re_split_go capture (Some (c :: sp)) [] r
          else
            (if capture then [rev sp] else []) ++
            (if is_terminator c && starts_with_space r
             then [] :: re_split_go capture (Some [c]) [] r
             else re_split_go capture None [c] r)
      | None =>
          if is_terminator c && starts_with_space r
          then rev cur :: re_split_go capture (Some [c]) [] r
          else re_split_go capture None (c :: cur) r
      end
  end.

Definition re_split (capture : bool) (text : str) : list str :=
  re_split_go capture None [] text.

(* ================================================================== *)
(** ** src/utils/text_quality.py                                        *)
(* ================================================================== *)

Local Open Scope result_scope.

(** The Unicode tables of the Python runtime that the code consults and
    that are not part of the repository: the class [\w] of the [re] module
    and [str.lower]. *)
Class UnicodeTables : Type := {
  is_word_char : char -> bool;
  lower : str -> str
}.

(** [re.findall(r'\b\w+\b', s)] : the maximal runs of word characters. *)
Definition findall_words {U : UnicodeTables} (s : str) : list str :=
  runs is_word_char s.

(** *** detect_repetition *)

(** The test on one pair of neighbouring sentences, lines 33-45: [true]
    stands for [return True]. *)
Definition similar_to_next (s_i s_next : str) : result bool :=
  let current := strip s_i in
  let next_sent := strip s_next in
  if str_eqb current next_sent then Ok true
  else if (0 <? len current) && (0 <? len next_sent) then
    let common_length :=
      PySet.card (PySet.inter (PySet.set_of (words current))
                              (PySet.set_of (words next_sent))) in
    let total_words :=
      Z.max (Z.of_nat (length (words current)))
            (Z.of_nat (length (words next_sent))) in
    if 0 <? total_words then
      ratio <- py_truediv common_length total_words ;;
      Ok (Qltb (7 # 10) ratio)
    else Ok false
  else Ok false.

(** [for i in range(len(sentences) - 1)], lines 28-45. *)
Fixpoint adjacent_loop (min_repeat_length : Z) (sentences : list str)
  : result bool :=
  match sentences with
  | s_i :: ((s_next :: _) as rest) =>
      if len s_i <? min_repeat_length
      then adjacent_loop min_repeat_length rest
      else
        hit <- similar_to_next s_i s_next ;;
        if hit then Ok true else adjacent_loop min_repeat_length rest
  | _ => Ok false
  end.

(** [for word in words: word_counts[word] = word_counts.get(word, 0) + 1] *)
Definition count_words (ws : list str) : PyDict.dict :=
  fold_left (fun d w => PyDict.set d w (PyDict.get d w 0 + 1)) ws [].

(** Lines 48-57. *)
Definition word_level_repetition (text : str) : result bool :=
  let ws := words text in
  if 10 <? Z.of_nat (length ws) then
    let word_counts := count_words ws in
    max_count <- match word_counts with
                 | [] => Ok 0
                 | _ => py_max (PyDict.values word_counts)
                 end ;;
    Ok (Qltb (inject_Z (Z.of_nat (length ws)) * (3 # 10)) (inject_Z max_count))
  else Ok false.

Definition detect_repetition_with (text : str) (min_repeat_length : Z)
  : result bool :=
  if negb (truthy text) || (len text <? min_repeat_length * 2) then Ok false
  else
    let sentences := re_split false text in
    found <- adjacent_loop min_repeat_length sentences ;;
    if found then Ok true
    else word_level_repetition text.

(** [detect_repetition(text)] with the default [min_repeat_length = 20]. *)
Definition detect_repetition (text : str) : result bool :=
  detect_repetition_with text 20.

(** *** clean_repetitive_text *)

(** Lines 94-101 for one element of [seen]. *)
Definition too_similar (sentence seen_sent : str) : result bool :=
  let current_words := PySet.set_of (words sentence) in
  let seen_words := PySet.set_of (words seen_sent) in
  if (0 <? PySet.card current_words) && (0 <? PySet.card seen_words) then
    similarity <- py_truediv (PySet.card (PySet.inter current_words seen_words))
                             (PySet.card (PySet.union current_words seen_words)) ;;
    Ok (Qltb (8 # 10) similarity)
  else Ok false.

(** [for seen_sent in seen: ... break], lines 91-101.  [seen] is a Python
    set; the loop only asks whether some element is too similar, so the order
    in which the elements are visited does not matter. *)
Fixpoint is_duplicate (sentence : str) (seen : list str) : result bool :=
  match seen with
  | [] => Ok false
  | seen_sent :: rest =>
      hit <- too_similar sentence seen_sent ;;
      if hit then Ok true else is_duplicate sentence rest
  end.

(** The state of the loop of lines 82-107. *)
Record clean_state : Type := {
  cleaned_sentences : list str;
  seen : list str
}.

(** One round of the loop: [s_i] is [sentences[i]] and [sep] is
    [sentences[i + 1]] when [i + 1 < len(sentences)]. *)
Definition clean_step (s_i : str) (sep : option str) (st : clean_state)
  : result clean_state :=
  let sentence := strip s_i in
  if negb (truthy sentence) then Ok st
  else
    dup <- is_duplicate sentence (seen st) ;;
    if dup then Ok st
    else
      Ok {| cleaned_sentences :=
              cleaned_sentences st ++ [s_i] ++
              match sep with Some d => [d] | None => [] end;
            seen := PySet.add sentence (seen st) |}.

(** [for i in range(0, len(sentences), 2)] *)
Fixpoint clean_loop (sentences : list str) (st : clean_state)
  : result clean_state :=
  match sentences with
  | [] => Ok st
  | [s_i] => clean_step s_i None st
  | s_i :: sep :: rest =>
      st' <- clean_step s_i (Some sep) st ;;
      clean_loop rest st'
  end.

(** Lines 111-118. *)
Definition complete_last_sentence (result0 : str) : result str :=
  if truthy result0 then
    c <- py_last result0 ;;
    if negb (is_terminator c) then
      last_sentence <-
        (if contains [c_dot] result0
         then py_last_item (split_on c_dot result0)
         else Ok result0) ;;
      if 10 <? len (strip last_sentence) then
        let result1 := rstrip (rstrip_chars (py "...") result0) in
        if truthy result1 then
          c1 <- py_last result1 ;;
          if negb (is_terminator c1) then Ok (result1 ++ [c_dot])
          else Ok result1
        else Ok result1
      else Ok result0
    else Ok result0
  else Ok result0.

Definition clean_repetitive_text (text : str) : result str :=
  if negb (truthy text) then Ok text
  else
    let sentences := re_split true text in
    st <- clean_loop sentences {| cleaned_sentences := []; seen := [] |} ;;
    complete_last_sentence (strip (join [] (cleaned_sentences st))).

(** *** validate_answer_quality *)

(** The second component of the returned pair when the first is [False].
    The Python code formats a message; the constructors keep the values that
    are interpolated into it. *)
Inductive quality_error : Type :=
| AnswerEmpty                      (* "Answer is empty" *)
| AnswerTooShort (min_length : Z)  (* "Answer is too short (minimum ...)" *)
| AnswerTooLong (max_length : Z)   (* "Answer is too long (maximum ...)" *)
| AnswerRepetitive                 (* "Answer contains repetitive content" *)
| RefusalLowOverlap (overlap : Q)  (* "Answer claims information not found
                                       but has very low context overlap" *)
| AnswerLowOverlap (overlap : Q).  (* "Answer contains too many words not
                                       found in context" *)

(** [(is_valid, error_msg)] *)
Definition verdict : Type := (bool * option quality_error)%type.

Definition stopwords : list str :=
  PySet.set_of
    [py "제공"; py "문서"; py "에서"; py "질문"; py "에"; py "대한"; py "정보";
     py "를"; py "을"; py "을"; py "이"; py "가"; py "는"; py "은"; py "의";
     py "와"; py "과"; py "도"; py "로"; py "으로"; py "수"; py "있"; py "없";
     py "것"; py "등"; py "및"; py "또는"; py "그리고"].

Definition negative_phrases : list str :=
  [py "없"; py "찾을 수 없"; py "포함되어 있지 않"; py "설명이 없다";
   py "정보가 없다"; py "관련 정보가 없다"].

(** Lines 158-190. *)
Definition check_context_overlap {U : UnicodeTables}
    (answer : str) (contexts : list str) : result verdict :=
  let answer_lower := lower answer in
  let context_text := lower (join [c_space] contexts) in
  let answer_words := PySet.set_of (findall_words answer_lower) in
  let context_words := PySet.set_of (findall_words context_text) in
  let meaningful_answer_words := PySet.diff answer_words stopwords in
  let meaningful_context_words := PySet.diff context_words stopwords in
  if 0 <? PySet.card meaningful_answer_words then
    let common_words :=
      PySet.inter meaningful_answer_words meaningful_context_words in
    overlap_ratio <- py_truediv (PySet.card common_words)
                                (PySet.card meaningful_answer_words) ;;
    let has_negative_phrase :=
      existsb (fun phrase => contains phrase answer) negative_phrases in
    if has_negative_phrase then
      if Qltb overlap_ratio (2 # 10)
      then Ok (false, Some (RefusalLowOverlap overlap_ratio))
      else Ok (true, None)
    else
      if Qltb overlap_ratio (2 # 10)
      then Ok (false, Some (AnswerLowOverlap overlap_ratio))
      else Ok (true, None)
  else Ok (true, None).

(** [contexts] is [None] when the argument is omitted. *)
Definition validate_answer_quality {U : UnicodeTables}
    (answer : str) (min_length max_length : Z) (contexts : option (list str))
  : result verdict :=
  if negb (truthy answer) || negb (truthy (strip answer))
  then Ok (false, Some AnswerEmpty)
  else
    let answer := strip answer in
    if len answer <? min_length then Ok (false, Some (AnswerTooShort min_length))
    else if max_length <? len answer
    then Ok (false, Some (AnswerTooLong max_length))
    else
      rep <- detect_repetition answer ;;
      if rep then Ok (false, Some AnswerRepetitive)
      else
        match contexts with
        | Some ((_ :: _) as ctxs) => check_context_overlap answer ctxs
        | _ => Ok (true, None)
        end.

(** *** post_process_answer *)

(** [for i in range(0, len(sentences), 2)] of lines 219-230; leaving the
    function is the [break]. *)
Fixpoint truncate_loop (max_length : Z) (sentences : list str)
    (result0 : list str) (current_length : Z) : list str :=
  match sentences with
  | [] => result0
  | [sentence] =>
      if max_length <? current_length + len sentence then result0
      else result0 ++ [sentence]
  | sentence :: sep :: rest =>
      if max_length <? current_length + len sentence then result0
      else truncate_loop max_length rest (result0 ++ [sentence; sep])
                         (current_length + len sentence)
  end.

Definition post_process_answer (answer : str) (max_length : Z) : result str :=
  if negb (truthy answer) then Ok answer
  else
    cleaned <- clean_repetitive_text answer ;;
    if max_length <? len cleaned then
      let sentences := re_split true cleaned in
      Ok (strip (join [] (truncate_loop max_length sentences [] 0)))
    else Ok cleaned.

Local Close Scope result_scope.

(* ================================================================== *)
(** ** src/utils/chunker.py                                             *)
(* ================================================================== *)

Module Chunker.

Record MarkdownChunker : Type := {
  chunk_size : Z;
  chunk_overlap : Z
}.

(** [MarkdownChunker.__init__] *)
Definition new (chunk_size chunk_overlap : Z) : result MarkdownChunker :=
  if chunk_size <=? 0
  then Raise (ValueError (py "chunk_size must be greater than 0"))
  else if chunk_size <=? chunk_overlap
  then Raise (ValueError (py "chunk_overlap must be less than chunk_size"))
  else if chunk_overlap <? 0
  then Raise (ValueError (py "chunk_overlap must be non-negative"))
  else Ok {| chunk_size := chunk_size; chunk_overlap := chunk_overlap |}.

(** A chunk is the dictionary [{"text": ..., "metadata": {}}]. *)
Record chunk : Type := {
  text : str;
  metadata : list (str * str)
}.

(** [re.match(r"^#{1,6}\s+", line)] : one to six [#] and then whitespace. *)
Definition re_match_header (line : str) : bool :=
  let rest := dropwhile (char_eqb c_hash) line in
  let hashes := Z.of_nat (length line) - Z.of_nat (length rest) in
  (1 <=? hashes) && (hashes <=? 6) && starts_with_space rest.

Definition opens_section (line : str) : bool :=
  re_match_header line || str_eqb (strip line) (py "---").

(** The loop of [_split_into_sections] over [lines], and the flush of the
    last section after it. *)
Fixpoint split_loop (lines : list str) (sections : list str)
                    (current_section : list str) : list str :=
  match lines with
  | [] =>
      match current_section with
      | [] => sections
      | _ => sections ++ [join [c_nl] current_section]
      end
  | line :: rest =>
      if opens_section line then
        match current_section with
        | [] => split_loop rest sections [line]
        | _ => split_loop rest (sections ++ [join [c_nl] current_section])
                          [line]
        end
      else split_loop rest sections (current_section ++ [line])
  end.

Definition _split_into_sections (markdown : str) : list str :=
  split_loop (split_on c_nl markdown) [] [].

(** The variables of the [while] loop of [_chunk_section]. *)
Record loop_state : Type := {
  start : Z;
  chunks : list chunk
}.

Inductive step_result : Type :=
| Continue (st : loop_state)        (* back to the loop test *)
| Exit (chunks : list chunk).       (* the loop is left: [return chunks] *)

(** The loop test and one execution of the body, lines 113-141. *)
Definition chunk_step (self : MarkdownChunker) (section : str)
                      (st : loop_state) : step_result :=
  if start st <? len section then
    let end0 := start st + chunk_size self in
    let end1 :=
      if end0 <? len section then
        let last_period := rfind section c_dot (start st) end0 in
        let last_newline := rfind section c_nl (start st) end0 in
        let last_break := Z.max last_period last_newline in
        if start st <? last_break then last_break + 1 else end0
      else end0 in
    let chunk_text := strip (slice section (start st) end1) in
    let chunks1 :=
      if truthy chunk_text
      then chunks st ++ [{| text := chunk_text; metadata := [] |}]
      else chunks st in
    let start0 := end1 - chunk_overlap self in
    let start1 := if start0 <? 0 then end1 else start0 in
    if len section <=? start1 then Exit chunks1
    else Continue {| start := start1; chunks := chunks1 |}
  else Exit (chunks st).

(** The [while] loop, run for at most [fuel] rounds: [None] when the loop
    has not been left by then. *)
Fixpoint chunk_loop (fuel : nat) (self : MarkdownChunker) (section : str)
                    (st : loop_state) : option (list chunk) :=
  match fuel with
  | O => None
  | S fuel' =>
      match chunk_step self section st with
      | Exit cs => Some cs
      | Continue st' => chunk_loop fuel' self section st'
      end
  end.

(** The loop variables after [n] rounds, or the returned list when the loop
    was left earlier. *)
Fixpoint chunk_iter (n : nat) (self : MarkdownChunker) (section : str)
                    (st : loop_state) : step_result :=
  match n with
  | O => Continue st
  | S n' =>
      match chunk_step self section st with
      | Exit cs => Exit cs
      | Continue st' => chunk_iter n' self section st'
      end
  end.

Definition initial_state : loop_state := {| start := 0; chunks := [] |}.

Definition _chunk_section (fuel : nat) (self : MarkdownChunker)
                          (section : str) : option (list chunk) :=
  if len section <=? chunk_size self
  then Some [{| text := strip section; metadata := [] |}]
  else chunk_loop fuel self section initial_state.

(** [for section in sections: chunks.extend(self._chunk_section(section))] *)
Fixpoint extend_loop (fuel : nat) (self : MarkdownChunker)
    (sections : list str) (chunks0 : list chunk) : option (list chunk) :=
  match sections with
  | [] => Some chunks0
  | section :: rest =>
      match _chunk_section fuel self section with
      | None => None
      | Some section_chunks =>
          extend_loop fuel self rest (chunks0 ++ section_chunks)
      end
  end.

(** [fuel] bounds the rounds of the [while] loop spent on one section. *)
Definition chunk_markdown (fuel : nat) (self : MarkdownChunker)
                          (markdown_content : str) : option (list chunk) :=
  if negb (truthy markdown_content) || negb (truthy (strip markdown_content))
  then Some []
  else extend_loop fuel self (_split_into_sections markdown_content) [].

End Chunker.

(* ================================================================== *)
(** ** src/services/prompt.py                                           *)
(* ================================================================== *)

Module RAGPromptTemplate.

Definition SYSTEM_PROMPT : str :=
  py "당신은 주어진 문서만을 기반으로 답변하는 AI 어시스턴트입니다.

절대적인 규칙 (반드시 지켜야 함):
1. **문서에 나온 내용만 그대로 사용하세요.** 문서에 없는 설명, 해석, 추론을 추가하지 마세요.
2. **문서에 나온 항목, 구성 요소를 나열하거나 인용하세요.** 각 항목에 대한 추가 설명을 만들지 마세요.
3. **표 형식 데이터에서 항목 이름과 설명을 그대로 사용하세요.** 새로운 해석이나 설명을 만들지 마세요.
4. **질문과 관련된 내용이 문서에 있으면 문서에 나온 항목들을 나열하여 답변하세요.**
5. **문서 내용과 질문이 정말 관련이 없을 때만 "
  ++ [c_dquote] ++
  py "제공된 문서에서 해당 질문에 대한 정보를 찾을 수 없습니다."
  ++ [c_dquote] ++
  py "라고 답변하세요.**
6. **추측, 일반 지식, 외부 정보를 절대 사용하지 마세요.** 문서에 없는 내용을 만들어내거나 추론하지 마세요.
7. **답변은 간결하게 작성하세요.** (최대 300자 이내)
8. **같은 내용을 반복하지 마세요.**
9. **문서에 나온 용어와 개념을 정확히 그대로 사용하세요.**".

(** [get_system_prompt(custom_prompt)] : [custom_prompt or SYSTEM_PROMPT] *)
Definition get_system_prompt (custom_prompt : option str) : str :=
  match custom_prompt with
  | Some p => if truthy p then p else SYSTEM_PROMPT
  | None => SYSTEM_PROMPT
  end.

Definition NO_INFORMATION : str :=
  py "제공된 문서에서 질문과 관련된 정보를 찾을 수 없습니다.".

(** [SIMPLE_RESPONSE_PROMPT.format(query=query, contexts=contexts)] *)
Definition SIMPLE_RESPONSE_PROMPT (query contexts : str) : str :=
  py "질문: " ++ query ++ py "

제공된 문서에서 찾은 관련 정보:

" ++ contexts ++ py "

참고: 위 정보는 제공된 문서에서 추출한 내용입니다. 더 정확한 답변을 원하시면 LLM을 사용하는 옵션을 활성화해주세요.".

(** Lines 146-148: strip, then keep the stripped non-blank lines. *)
Definition tidy (ctx : str) : str :=
  let cleaned := strip ctx in
  join [c_nl]
    (map strip (filter (fun line => truthy (strip line))
                       (split_on c_nl cleaned))).

(** Lines 150-151. *)
Definition shorten (max_context_length : Z) (cleaned : str) : str :=
  if max_context_length / 3 <? len cleaned
  then slice_to cleaned (max_context_length / 3) ++ py "..."
  else cleaned.

(** The body of the loop for the context numbered [i]. *)
Definition render_context (max_context_length : Z) (i : Z) (ctx : str) : str :=
  py "[문서 " ++ str_of_Z i ++ py "]
" ++ shorten max_context_length (tidy ctx).

(** [for i, ctx in enumerate(top_contexts, 1)] *)
Fixpoint render_loop (max_context_length : Z) (i : Z) (top_contexts : list str)
  : list str :=
  match top_contexts with
  | [] => []
  | ctx :: rest =>
      render_context max_context_length i ctx
        :: render_loop max_context_length (i + 1) rest
  end.

Definition build_simple_response (query : str) (contexts : list str)
                                 (max_context_length : Z) : str :=
  match contexts with
  | [] => NO_INFORMATION
  | _ =>
      let top_contexts := firstn 3 contexts in
      let cleaned_contexts := render_loop max_context_length 1 top_contexts in
      let combined_context := join (py "

") cleaned_contexts in
      SIMPLE_RESPONSE_PROMPT query combined_context
  end.

End RAGPromptTemplate.

(* ================================================================== *)
(** ** src/models, and the collaborators of the pipeline                *)
(* ================================================================== *)

Record ChunkMetadata : Type := {
  document_id : str;
  chunk_index : Z;
  filename : option str;
  file_type : option str
}.

Record SearchResult : Type := {
  text : str;
  score : Q;
  metadata : ChunkMetadata
}.

(** The calls that leave the pipeline. *)
Inductive event : Type :=
| SearchSimilar (query : str) (top_k : Z)
| Initialize
| GenerateWithContext (query : str) (contexts : list str)
                      (system_prompt : str) (max_tokens : Z).

(** A computation that calls collaborators: the calls made, in order, and
    the value returned or the exception raised. *)
Definition M (A : Type) : Type := (list event * result A)%type.

Definition mret {A} (a : A) : M A := ([], Ok a).
Definition mraise {A} (e : exn) : M A := ([], Raise e).
Definition lift {A} (r : result A) : M A := ([], r).
Definition call {A} (ev : event) (r : result A) : M A := ([ev], r).

Definition mbind {A B} (m : M A) (k : A -> M B) : M B :=
  match m with
  | (t1, inl e) => (t1, inl e)
  | (t1, inr a) => let (t2, r) := k a in (t1 ++ t2, r)
  end.

(** [try: body  except Exception as e: handler(e)] *)
Definition try_except {A} (body : M A) (handler : exn -> M A) : M A :=
  match body with
  | (t1, inl e) => let (t2, r) := handler e in (t1 ++ t2, r)
  | (t1, inr a) => (t1, inr a)
  end.

Declare Scope pipeline_scope.
Delimit Scope pipeline_scope with pipeline.
Notation "x <- m ;; k" := (mbind m (fun x => k))
  (at level 61, m at next level, right associativity) : pipeline_scope.
Notation "' pat <- m ;; k" := (mbind m (fun x => match x with pat => k end))
  (at level 61, pat pattern, m at next level, right associativity)
  : pipeline_scope.
Notation "m1 ;;; m2" := (mbind m1 (fun _ => m2))
  (at level 61, right associativity) : pipeline_scope.

Definition trace {A} (m : M A) : list event := fst m.
Definition outcome {A} (m : M A) : result A := snd m.

(** [VectorRepository]: only [search_similar] is used.  What it answers is
    up to the vector store. *)
Record VectorRepository : Type := {
  search_similar : str -> Z -> result (list SearchResult)
}.

(** [QwenManager]: the state of its model loader when the pipeline asks,
    what [initialize()] does when it is called, and what
    [generate_with_context(query, contexts, system_prompt, max_tokens)]
    does.  All three are up to the language model. *)
Record QwenManager : Type := {
  is_loaded : bool;
  initialize : result unit;
  generate_with_context : str -> list str -> str -> Z -> result str
}.

(* ================================================================== *)
(** ** src/services/pipeline.py                                         *)
(* ================================================================== *)

Record RAGPipeline : Type := {
  vector_repository : VectorRepository;
  llm_manager : option QwenManager
}.

(** The dictionary returned by [run]. *)
Record PipelineResult : Type := {
  query : str;
  answer : str;
  contexts : list str;
  sources : list SearchResult;
  top_k : Z
}.

Local Open Scope pipeline_scope.

Definition is_empty {A} (l : list A) : bool :=
  match l with [] => true | _ => false end.

(** [RAGPipeline.retrieve] *)
Definition retrieve (self : RAGPipeline) (query : str) (top_k : Z)
  : M (list SearchResult) :=
  if negb (truthy query) || negb (truthy (strip query))
  then mraise (ValueError (py "Query cannot be empty"))
  else if top_k <=? 0
  then mraise (ValueError (py "top_k must be greater than 0"))
  else call (SearchSimilar query top_k)
            (search_similar (vector_repository self) query top_k).

Definition simple_response (query : str) (valid_contexts : list str) : str :=
  RAGPromptTemplate.build_simple_response query valid_contexts 1000.

(** The phrases of line 133. *)
Definition refusal_phrases : list str :=
  [py "없"; py "찾을 수 없"; py "포함되어 있지 않"; py "설명이 없다";
   py "정보가 없다"].

(** Lines 137-139. *)
Definition context_has_keywords {U : UnicodeTables}
    (query : str) (valid_contexts : list str) : bool :=
  let query_keywords := PySet.set_of (findall_words (lower query)) in
  let context_text_lower := lower (join [c_space] valid_contexts) in
  existsb (fun keyword => contains keyword context_text_lower)
          (filter (fun keyword => 1 <? len keyword) query_keywords).

(** The body of the [try], lines 111-186. *)
Definition generate_with_llm {U : UnicodeTables} (llm : QwenManager)
    (query : str) (valid_contexts : list str) (system_prompt : option str)
  : M str :=
  let prompt :=
    match system_prompt with
    | Some p => if truthy p then p else RAGPromptTemplate.get_system_prompt None
    | None => RAGPromptTemplate.get_system_prompt None
    end in
  answer0 <- call (GenerateWithContext query valid_contexts prompt 500)
                  (generate_with_context llm query valid_contexts prompt 500) ;;
  let answer_before_validation := answer0 in
  answer <- lift (post_process_answer answer0 1000) ;;
  let has_negative_phrase :=
    existsb (fun phrase => contains phrase answer) refusal_phrases in
  if has_negative_phrase then
    if context_has_keywords query valid_contexts then
      mret (simple_response query valid_contexts)
    else
      '(is_valid, _) <-
        lift (validate_answer_quality answer 10 2000 (Some valid_contexts)) ;;
      if negb is_valid then mret (simple_response query valid_contexts)
      else mret answer
  else
    '(is_valid, _) <-
      lift (validate_answer_quality answer 10 2000 (Some valid_contexts)) ;;
    if negb is_valid then
      if truthy answer_before_validation
         && (10 <=? len (strip answer_before_validation))
      then
        repetitive <- lift (detect_repetition answer_before_validation) ;;
        if negb repetitive then mret answer_before_validation
        else mret (simple_response query valid_contexts)
      else mret (simple_response query valid_contexts)
    else mret answer.

(** [RAGPipeline.generate] *)
Definition generate {U : UnicodeTables} (self : RAGPipeline)
    (query : str) (contexts : list str) (use_llm : bool)
    (system_prompt : option str) : M str :=
  if is_empty contexts then mret RAGPromptTemplate.NO_INFORMATION
  else
    let valid_contexts :=
      filter (fun ctx => truthy ctx && truthy (strip ctx)
                         && (20 <=? len (strip ctx))) contexts in
    if is_empty valid_contexts
    then mret (py "제공된 문서에서 질문과 관련된 유용한 정보를 찾을 수 없습니다.")
    else
      match use_llm, llm_manager self with
      | true, Some llm =>
          (if negb (is_loaded llm) then call Initialize (initialize llm)
           else mret tt) ;;;
          try_except
            (generate_with_llm llm query valid_contexts system_prompt)
            (fun _ => mret (simple_response query valid_contexts))
      | _, _ => mret (simple_response query valid_contexts)
      end.

Definition MIN_RELEVANCE_SCORE : Q := 5 # 10.
Definition MIN_CONTEXT_LENGTH : Z := 20.

(** The filter of lines 255-258. *)
Definition relevant (result0 : SearchResult) : bool :=
  truthy (text result0) && truthy (strip (text result0))
  && Qle_bool MIN_RELEVANCE_SCORE (score result0).

(** The filter of lines 274-277. *)
Definition useful (ctx : str) : bool :=
  (MIN_CONTEXT_LENGTH <=? len (strip ctx))
  && negb (startswith [c_dot] (strip ctx)).

(** [RAGPipeline.run] *)
Definition run {U : UnicodeTables} (self : RAGPipeline)
    (query : str) (top_k : Z) (use_llm : bool) (system_prompt : option str)
  : M PipelineResult :=
  if negb (truthy query) || negb (truthy (strip query))
  then mraise (ValueError (py "Query cannot be empty"))
  else if top_k <=? 0
  then mraise (ValueError (py "top_k must be greater than 0"))
  else
    search_results <- retrieve self query top_k ;;
    if is_empty search_results then
      mret {| query := query;
              answer := py "관련된 문서를 찾을 수 없습니다.";
              contexts := [];
              sources := [];
              top_k := top_k |}
    else
      let filtered_results := filter relevant search_results in
      if is_empty filtered_results then
        mret {| query := query;
                answer := py "제공된 문서에서 질문과 관련된 정보를 찾을 수 없습니다. 다른 질문을 시도해주세요.";
                contexts := [];
                sources := [];
                top_k := top_k |}
      else
        let contexts0 := map text filtered_results in
        let valid_contexts := filter useful contexts0 in
        if is_empty valid_contexts then
          mret {| query := query;
                  answer := py "제공된 문서에서 질문과 관련된 유용한 정보를 찾을 수 없습니다.";
                  contexts := [];
                  sources := filtered_results;
                  top_k := top_k |}
        else
          answer0 <- generate self query valid_contexts use_llm system_prompt ;;
          mret {| query := query;
                  answer := answer0;
                  contexts := valid_contexts;
                  sources := filtered_results;
                  top_k := top_k |}.

Local Close Scope pipeline_scope.

(* ================================================================== *)
(** ** Concrete data used in the examples                               *)
(* ================================================================== *)

(** The Unicode tables cut down to ASCII: enough to run the code on ASCII
    examples. *)
Definition ascii_is_word_char (c : char) : bool :=
  ((48 <=? c) && (c <=? 57) || (65 <=? c) && (c <=? 90)
   || (97 <=? c) && (c <=? 122) || (c =? 95))%N.

Definition ascii_lower (s : str) : str :=
  map (fun c => if ((65 <=? c) && (c <=? 90))%N then (c + 32)%N else c) s.

Definition ascii_tables : UnicodeTables := {|
  is_word_char := ascii_is_word_char;
  lower := ascii_lower
|}.

(** The first element of [re.split(r'([.!?]\s+)', s)]. *)
Definition first_sentence (s : str) : str := hd [] (re_split true s).

(** No character of [s] is one of [. ! ?]. *)
Definition no_terminator (s : str) : bool :=
  forallb (fun c => negb (is_terminator c)) s.

(** The chunks appended by the first [n] rounds of the [while] loop of
    [_chunk_section] on [section] (all of them when the loop was left
    before). *)
Definition emitted (n : nat) (self : Chunker.MarkdownChunker) (section : str)
  : list Chunker.chunk :=
  match Chunker.chunk_iter n self section Chunker.initial_state with
  | Chunker.Continue st => Chunker.chunks st
  | Chunker.Exit cs => cs
  end.

Definition plain_chunk (s : str) : Chunker.chunk :=
  {| Chunker.text := s; Chunker.metadata := [] |}.

(** A configuration and a document on which the loop of [_chunk_section]
    does not advance. *)
Definition looping_chunker : Chunker.MarkdownChunker :=
  {| Chunker.chunk_size := 20; Chunker.chunk_overlap := 5 |}.

Definition looping_input : str := py "# Notes
alpha beta gamma delta epsilon zeta".

(* ================================================================== *)
(** ** What detect_repetition decides, stated without the loops         *)
(* ================================================================== *)

(** The number of distinct words that two sentences have in common. *)
Definition common_words (s t : str) : Z :=
  PySet.card (PySet.inter (PySet.set_of (words s)) (PySet.set_of (words t))).

Definition word_count (s : str) : Z := Z.of_nat (length (words s)).

(** Two neighbouring sentences count as a repetition when they are equal
    after trimming, or when both are non-blank and their common distinct
    words are more than 70% of the larger of their two word counts. *)
Definition similar_pair (s t : str) : Prop :=
  strip s = strip t \/
  (strip s <> [] /\ strip t <> [] /\
   7 * Z.max (word_count (strip s)) (word_count (strip t))
   < 10 * common_words (strip s) (strip t)).

(** Some sentence of at least [m] characters is similar to the next one. *)
Definition adjacent_repetition (m : Z) (sentences : list str) : Prop :=
  exists i s t,
    nth_error sentences i = Some s /\
    nth_error sentences (S i) = Some t /\
    m <= len s /\ similar_pair s t.

(** The text has more than 10 words and some word makes up more than 30% of
    them. *)
Definition dominant_word (text : str) : Prop :=
  10 < word_count text /\
  exists w, 3 * word_count text
            < 10 * Z.of_nat (count_occ str_eq_dec (words text) w).

(** [n] copies of a sentence, each followed by a full stop and a space. *)
Definition repeated (sentence : str) (n : nat) : str :=
  concat (repeat (sentence ++ py ". ") n).

Definition five_distinct_sentences : str :=
  py "The sky is clear and blue today. My cat sleeps on the warm sofa. Fresh bread smells wonderful in winter. Trains depart from platform nine hourly. Learning languages takes steady practice.".

(** Two neighbouring sentences of ten words each that share seven words. *)
Definition seventy_percent_text : str :=
  py "a1 a2 a3 a4 a5 a6 a7 b1 b2 b3. a1 a2 a3 a4 a5 a6 a7 c1 c2 c3.".

(** The leading whitespace of a string: what [lstrip] removes. *)
Fixpoint takewhile (p : char -> bool) (s : str) : str :=
  match s with
  | [] => []
  | c :: r => if p c then c :: takewhile p r else []
  end.

(** Example collaborators. *)
Definition example_metadata : ChunkMetadata :=
  {| document_id := py "doc-1"; chunk_index := 0;
     filename := Some (py "example.pdf"); file_type := Some (py "pdf") |}.

Definition found (t : str) (sc : Q) : SearchResult :=
  {| text := t; score := sc; metadata := example_metadata |}.

(** A vector store that answers every search with [rs]. *)
Definition fixed_repository (rs : list SearchResult) : VectorRepository :=
  {| search_similar := fun _ _ => Ok rs |}.

Definition pipeline_without_llm (rs : list SearchResult) : RAGPipeline :=
  {| vector_repository := fixed_repository rs; llm_manager := None |}.

(** [contexts] and [sources] of a result are index-aligned. *)
Definition aligned (r : PipelineResult) : Prop :=
  length (contexts r) = length (sources r) /\
  forall i, nth_error (contexts r) i
            = option_map text (nth_error (sources r) i).

(** The language model poses no obstacle before generation starts: when the
    pipeline is going to use it and it is not loaded yet, loading works. *)
Definition llm_ready (self : RAGPipeline) (use_llm : bool) : Prop :=
  match llm_manager self with
  | Some llm =>
      use_llm = true -> is_loaded llm = false -> initialize llm = Ok tt
  | None => True
  end.

(** A language model that is not loaded yet and whose loading fails. *)
Definition unloadable_llm : QwenManager :=
  {| is_loaded := false;
     initialize := Raise (OtherError (py "model loading failed"));
     generate_with_context := fun _ _ _ _ => Ok (py "unused") |}.

(** A loaded language model whose generation call fails. *)
Definition failing_llm : QwenManager :=
  {| is_loaded := true;
     initialize := Ok tt;
     generate_with_context :=
       fun _ _ _ _ => Raise (OtherError (py "model loading failed")) |}.

Definition passage : str :=
  py "Rocq is an interactive theorem prover.".

Definition item_a : str := py "Item A: a red apple from the orchard".
Definition item_b : str := py "Item B: a green pear from the garden".

(** The result of the run with generation disabled on these two items. *)
Definition items_result : PipelineResult :=
  {| query := py "Which items are listed?";
     answer := simple_response (py "Which items are listed?") [item_a; item_b];
     contexts := [item_a; item_b];
     sources := [found item_a (9 # 10); found item_b (8 # 10)];
     top_k := 5 |}.

(* ================================================================== *)
(** ** Notions used in the proofs                                       *)
(* ================================================================== *)

(** A chunk has at most [chunk_size] characters. *)
Definition fits (self : Chunker.MarkdownChunker) (c : Chunker.chunk) : Prop :=
  len (Chunker.text c) <= Chunker.chunk_size self.

(** What holds of the variables of the loop of [_chunk_section] whenever
    the loop test is reached. *)
Definition loop_invariant (self : Chunker.MarkdownChunker)
    (st : Chunker.loop_state) : Prop :=
  0 <= Chunker.start st /\ Forall (fits self) (Chunker.chunks st).

(** The dictionary [d] holds the number of occurrences in [ws] of each of
    its keys, and no key twice. *)
Definition counts_ok (d : PyDict.dict) (ws : list str) : Prop :=
  NoDup (map fst d) /\
  (forall k v, In (k, v) d -> v = Z.of_nat (count_occ str_eq_dec ws k)) /\
  (forall w, PyDict.get d w 0 = Z.of_nat (count_occ str_eq_dec ws w)).

(** The results that [run] returns on its four return paths. *)
Definition no_documents (q : str) (k : Z) : PipelineResult :=
  {| query := q; answer := py "관련된 문서를 찾을 수 없습니다.";
     contexts := []; sources := []; top_k := k |}.

Definition nothing_relevant (q : str) (k : Z) : PipelineResult :=
  {| query := q;
     answer := py "제공된 문서에서 질문과 관련된 정보를 찾을 수 없습니다. 다른 질문을 시도해주세요.";
     contexts := []; sources := []; top_k := k |}.

Definition nothing_useful (q : str) (k : Z) (fr : list SearchResult)
  : PipelineResult :=
  {| query := q;
     answer := py "제공된 문서에서 질문과 관련된 유용한 정보를 찾을 수 없습니다.";
     contexts := []; sources := fr; top_k := k |}.

(** The lines that [tidy] joins. *)
Definition tidy_lines (ctx : str) : list str :=
  map strip (filter (fun line => truthy (strip line))
                    (split_on c_nl (strip ctx))).

(* ================================================================== *)
(** ** Notions used in the further properties                           *)
(* ================================================================== *)

(** A section given by its lines [g]: the lines hold no line break, no line
    after the first opens a section and, when [headed], the first does. *)
Definition section_of_lines (headed : bool) (s : str) : Prop :=
  exists g,
    s = join [c_nl] g /\ g <> [] /\
    Forall (fun line => ~ In c_nl line) g /\
    Forall (fun line => Chunker.opens_section line = false) (tl g) /\
    (headed = true -> Chunker.opens_section (hd [] g) = true).

(** A list of sections all of which, except possibly the first, start with
    a heading or a rule. *)
Definition sections_ok (sections : list str) : Prop :=
  match sections with
  | [] => True
  | s0 :: rest =>
      section_of_lines false s0 /\ Forall (section_of_lines true) rest
  end.

(** A string without leading or trailing whitespace. *)
Definition trimmed (s : str) : Prop := strip s = s.

(** The loop of [_chunk_section] is bound to advance on [section]: there is
    no overlap, or the section holds no full stop and no line break. *)
Definition advancing (self : Chunker.MarkdownChunker) (section : str) : Prop :=
  Chunker.chunk_overlap self = 0 \/
  (~ In c_dot section /\ ~ In c_nl section).

(** A chunk made by the loop of [_chunk_section]: trimmed and not empty. *)
Definition proper_chunk (c : Chunker.chunk) : Prop :=
  Chunker.text c <> [] /\ trimmed (Chunker.text c).

(** A string that does not begin with whitespace. *)
Definition starts_clean (s : str) : Prop :=
  match s with
  | [] => True
  | c :: _ => isspace c = false
  end.

(** The elements at the even positions 0, 2, 4, ... of a list: the
    sentences of a list in which sentences and delimiters alternate. *)
Fixpoint evens {A} (l : list A) : list A :=
  match l with
  | [] => []
  | x :: r => x :: match r with
                   | [] => []
                   | _ :: r' => evens r'
                   end
  end.

(** No sentence of the list is a near-duplicate (word-set similarity above
    0.8) of a sentence before it. *)
Definition no_near_duplicates (l : list str) : Prop :=
  ForallOrdPairs (fun earlier later => too_similar later earlier = Ok false) l.

(** What the loop of [clean_repetitive_text] keeps true of its state. *)
Definition kept_ok (st : clean_state) : Prop :=
  map strip (evens (cleaned_sentences st)) = seen st /\
  no_near_duplicates (seen st) /\
  Forall (fun s => s <> [] /\ trimmed s) (seen st).

(* ================================================================== *)
(** ** src/services/prompt.py: the query prompt                         *)
(* ================================================================== *)

(** [QUERY_PROMPT.format(system_prompt=..., contexts=..., query=...)] *)
Definition QUERY_PROMPT (system_prompt contexts query : str) : str :=
  system_prompt
  ++ py "

=== 참고 문서 내용 (이 내용만 사용하세요) ===
"
  ++ contexts
  ++ py "
==========================================

사용자 질문: "
  ++ query
  ++ py "

**중요 지시사항**:
1. 위 문서 내용을 **꼼꼼히 읽고 분석**하세요. 표 형식 데이터도 포함됩니다.
2. 문서에 나온 **항목 이름과 설명을 그대로 사용**하세요. 새로운 설명을 만들지 마세요.
3. 질문과 관련된 내용이 문서에 있으면 **문서에 나온 항목들을 나열**하여 답변하세요.
4. 각 항목에 대한 추가 설명이나 해석을 만들지 마세요. 문서에 나온 내용만 사용하세요.
5. 문서에 관련 정보가 **정말 없을 때만** "
  ++ [c_dquote]
  ++ py "제공된 문서에서 해당 질문에 대한 정보를 찾을 수 없습니다."
  ++ [c_dquote]
  ++ py "라고 답변하세요.
6. 답변은 간결하게 작성하세요 (최대 300자).

답변:".

(** [RAGPromptTemplate.build_query_prompt] *)
Definition build_query_prompt (query : str) (contexts : list str)
    (system_prompt : option str) (max_context_length : Z) : str :=
  let combined_context := join (py "

") contexts in
  let combined_context :=
    if max_context_length <? len combined_context
    then slice_to combined_context max_context_length ++ py "..."
    else combined_context in
  let sys_prompt := RAGPromptTemplate.get_system_prompt system_prompt in
  QUERY_PROMPT sys_prompt combined_context query.

(** The three answers that [run] gives without any context. *)
Definition canned_answers : list str :=
  [py "관련된 문서를 찾을 수 없습니다.";
   py "제공된 문서에서 질문과 관련된 정보를 찾을 수 없습니다. 다른 질문을 시도해주세요.";
   py "제공된 문서에서 질문과 관련된 유용한 정보를 찾을 수 없습니다."].

(** The system prompt that [generate] hands to the language model. *)
Definition effective_prompt (system_prompt : option str) : str :=
  match system_prompt with
  | Some p => if truthy p then p else RAGPromptTemplate.SYSTEM_PROMPT
  | None => RAGPromptTemplate.SYSTEM_PROMPT
  end.

(** The collaborator calls that one [run] may make: one search, then at
    most one loading of the model and at most one generation. *)
Definition allowed_trace (q : str) (k : Z) (sp : option str)
    (t : list event) : Prop :=
  t = [] \/
  t = [SearchSimilar q k] \/
  t = [SearchSimilar q k; Initialize] \/
  exists vc,
    t = [SearchSimilar q k; GenerateWithContext q vc (effective_prompt sp) 500]
    \/
    t = [SearchSimilar q k; Initialize;
         GenerateWithContext q vc (effective_prompt sp) 500].

(** A loaded language model that answers every call with [raw]. *)
Definition answering_llm (raw : str) : QwenManager :=
  {| is_loaded := true;
     initialize := Ok tt;
     generate_with_context := fun _ _ _ _ => Ok raw |}.

Definition generated_answer : str :=
  py "Rocq is an interactive theorem prover for writing machine-checked proofs.".

(** Where the answer of a result with contexts comes from: the template
    over the contexts, the post-processed output of the generation call when
    it passes the quality check, or the output as generated when it has at
    least 10 characters after trimming and does not repeat itself. *)
Definition answer_origin {U : UnicodeTables} (self : RAGPipeline)
    (use_llm : bool) (sp : option str) (r : PipelineResult) : Prop :=
  answer r = simple_response (query r) (contexts r) \/
  (use_llm = true /\
   exists llm raw,
     llm_manager self = Some llm /\
     generate_with_context llm (query r) (contexts r)
                           (effective_prompt sp) 500 = Ok raw /\
     ((exists msg,
          post_process_answer raw 1000 = Ok (answer r) /\
          validate_answer_quality (answer r) 10 2000 (Some (contexts r))
          = Ok (true, msg)) \/
      (answer r = raw /\ detect_repetition raw = Ok false /\
       10 <= len (strip raw)))).

(** A sentence that a model stuck in a loop keeps writing. *)
Definition stuck_sentence : str :=
  py "Rocq is an interactive theorem prover".

Definition stuck_pipeline : RAGPipeline :=
  {| vector_repository := fixed_repository [found passage (9 # 10)];
     llm_manager := Some (answering_llm (repeated stuck_sentence 3)) |}.

(** What [run] returns with this model. *)
Definition stuck_result : PipelineResult :=
  {| query := py "What is Rocq?";
     answer := stuck_sentence ++ [c_dot];
     contexts := [passage];
     sources := [found passage (9 # 10)];
     top_k := 5 |}.

(* ================================================================== *)
(** ** src/models/chunk.py, src/models/document.py                      *)
(* ================================================================== *)

Module Chunk.

Record Chunk : Type := {
  text : str;
  metadata : ChunkMetadata
}.

End Chunk.

Module Document.

(** [uploaded_at] (the time of creation) and [file_size] (always [None]
    here) are left out. *)
Record DocumentMetadata : Type := {
  filename : str;
  file_type : str
}.

Record Document : Type := {
  document_id : str;
  metadata : DocumentMetadata;
  chunks_count : Z
}.

End Document.

(* ================================================================== *)
(** ** src/repositories/vector_repository.py                            *)
(* ================================================================== *)

Module Qdrant.

Local Open Scope result_scope.

(** The vector of a text; what it holds is up to the embedding model. *)
Definition Embedding : Type := list Q.

(** The payload of a point, with the keys that the repository writes and
    reads.  A key may be missing ([None] here); under [filename] and
    [file_type] the repository stores an optional value of the chunk, so
    a key that is there may hold Python's [None] ([Some None] here). *)
Record Payload : Type := {
  payload_text : option str;
  payload_document_id : option str;
  payload_chunk_index : option Z;
  payload_filename : option (option str);
  payload_file_type : option (option str)
}.

(** [{}] *)
Definition empty_payload : Payload :=
  {| payload_text := None; payload_document_id := None;
     payload_chunk_index := None; payload_filename := None;
     payload_file_type := None |}.

(** [PointStruct(id=str(uuid.uuid4()), vector=..., payload=...)]; the
    random identifier is left out. *)
Record PointStruct : Type := {
  vector : Embedding;
  point_payload : Payload
}.

(** A point as the store returns it. *)
Record ScoredPoint : Type := {
  payload : option Payload;
  point_score : option Q              (* [getattr(point, 'score', None)] *)
}.

(** The calls to the Qdrant client; what they answer is up to the store. *)
Record QdrantClient : Type := {
  upsert : list PointStruct -> result unit;
  query_points : Embedding -> Z -> result (list ScoredPoint);
  scroll : result (list ScoredPoint)
}.

Record Repository : Type := {
  client : option QdrantClient;
  generate_embedding : str -> result Embedding;
  generate_embeddings : list str -> result (list Embedding)
}.

Definition not_initialized {A} : result A :=
  Raise (RuntimeError (py "Vector repository is not initialized")).

(** *** save_chunks *)

Definition valid_chunk (chunk : Chunk.Chunk) : bool :=
  truthy (Chunk.text chunk) && truthy (strip (Chunk.text chunk)).

(** The payload of lines 130-136. *)
Definition payload_of (chunk : Chunk.Chunk) : Payload :=
  {| payload_text := Some (Chunk.text chunk);
     payload_document_id := Some (document_id (Chunk.metadata chunk));
     payload_chunk_index := Some (chunk_index (Chunk.metadata chunk));
     payload_filename := Some (filename (Chunk.metadata chunk));
     payload_file_type := Some (file_type (Chunk.metadata chunk)) |}.

(** [for i, (chunk, embedding) in enumerate(zip(valid_chunks, embeddings))] *)
Definition build_points (valid_chunks : list Chunk.Chunk)
    (embeddings : list Embedding) : list PointStruct :=
  map (fun '(chunk, embedding) =>
         {| vector := embedding; point_payload := payload_of chunk |})
      (combine valid_chunks embeddings).

(** [save_chunks]: the result holds the points handed to [upsert] and the
    returned document identifier. *)
Definition save_chunks (self : Repository) (chunks : list Chunk.Chunk)
  : result (list PointStruct * str) :=
  match client self with
  | None => not_initialized
  | Some c =>
      if is_empty chunks
      then Raise (ValueError (py "Cannot save empty chunks list"))
      else
        let valid_chunks := filter valid_chunk chunks in
        let valid_texts := map Chunk.text valid_chunks in
        match valid_chunks with
        | [] =>
            Raise (ValueError
                     (py "Cannot save chunks: all chunks have empty text content"))
        | first :: _ =>
            embeddings <- generate_embeddings self valid_texts ;;
            let document_id0 := document_id (Chunk.metadata first) in
            let points := build_points valid_chunks embeddings in
            _ <- upsert c points ;;
            Ok (points, document_id0)
        end
  end.

(** *** search_similar *)

(** The body of the loop of lines 188-217: [None] for [continue]. *)
Definition convert_point (point : ScoredPoint) : option SearchResult :=
  let payload0 :=
    match payload point with Some p => p | None => empty_payload end in
  let text0 :=
    match payload_text payload0 with Some t => t | None => [] end in
  if negb (truthy text0) || negb (truthy (strip text0)) then None
  else
    let document_id0 :=
      match payload_document_id payload0 with Some d => d | None => [] end in
    if negb (truthy document_id0) then None
    else
      let score0 :=
        match point_score point with Some s => s | None => 1%Q end in
      Some {| text := text0;
              score := score0;
              metadata :=
                {| document_id := document_id0;
                   chunk_index :=
                     match payload_chunk_index payload0 with
                     | Some i => i
                     | None => 0
                     end;
                   filename :=
                     match payload_filename payload0 with
                     | Some v => v
                     | None => None
                     end;
                   file_type :=
                     match payload_file_type payload0 with
                     | Some v => v
                     | None => None
                     end |} |}.

(** [for point in query_response.points] *)
Fixpoint convert_loop (points : list ScoredPoint)
    (results : list SearchResult) : list SearchResult :=
  match points with
  | [] => results
  | point :: rest =>
      match convert_point point with
      | None => convert_loop rest results
      | Some search_result => convert_loop rest (results ++ [search_result])
      end
  end.

Definition search_similar (self : Repository) (query : str) (top_k : Z)
  : result (list SearchResult) :=
  match client self with
  | None => not_initialized
  | Some c =>
      query_embedding <- generate_embedding self query ;;
      query_response <- query_points c query_embedding top_k ;;
      Ok (convert_loop query_response [])
  end.

(** *** find_all_documents *)

(** [documents_dict]: a dictionary in insertion order. *)
Definition documents := list (str * Document.Document).

Fixpoint has_key (d : documents) (k : str) : bool :=
  match d with
  | [] => false
  | (k', _) :: r => str_eqb k k' || has_key r k
  end.

(** [documents_dict[doc_id].chunks_count += 1] *)
Fixpoint count_chunk (d : documents) (k : str) : documents :=
  match d with
  | [] => []
  | (k', doc) :: r =>
      if str_eqb k k'
      then (k', {| Document.document_id := Document.document_id doc;
                   Document.metadata := Document.metadata doc;
                   Document.chunks_count := Document.chunks_count doc + 1 |})
             :: r
      else (k', doc) :: count_chunk r k
  end.

(** [payload.get(key, "Unknown")] given to a field of type [str]: a stored
    [None] is refused by the model class. *)
Definition required_str (v : option (option str)) : result str :=
  match v with
  | None => Ok (py "Unknown")
  | Some (Some s) => Ok s
  | Some None => Raise (ValueError (py "Input should be a valid string"))
  end.

(** The body of the loop of lines 241-256. *)
Definition group_point (documents_dict : documents) (point : ScoredPoint)
  : result documents :=
  match payload point with
  | None => Raise (OtherError (py "'NoneType' object has no attribute 'get'"))
  | Some payload0 =>
      match payload_document_id payload0 with
      | Some doc_id =>
          if truthy doc_id then
            documents_dict1 <-
              (if negb (has_key documents_dict doc_id) then
                 filename0 <- required_str (payload_filename payload0) ;;
                 file_type0 <- required_str (payload_file_type payload0) ;;
                 Ok (documents_dict
                       ++ [(doc_id,
                            {| Document.document_id := doc_id;
                               Document.metadata :=
                                 {| Document.filename := filename0;
                                    Document.file_type := file_type0 |};
                               Document.chunks_count := 0 |})])
               else Ok documents_dict) ;;
            Ok (count_chunk documents_dict1 doc_id)
          else Ok documents_dict
      | None => Ok documents_dict
      end
  end.

Fixpoint group_loop (points : list ScoredPoint) (documents_dict : documents)
  : result documents :=
  match points with
  | [] => Ok documents_dict
  | point :: rest =>
      documents_dict1 <- group_point documents_dict point ;;
      group_loop rest documents_dict1
  end.

Definition find_all_documents (self : Repository)
  : result (list Document.Document) :=
  match client self with
  | None => not_initialized
  | Some c =>
      scroll_result <- scroll c ;;
      documents_dict <- group_loop scroll_result [] ;;
      Ok (map snd documents_dict)
  end.

Local Close Scope result_scope.

End Qdrant.

(** The repository as the pipeline sees it. *)
Definition repository_of (repo : Qdrant.Repository) : VectorRepository :=
  {| search_similar := Qdrant.search_similar repo |}.

(** The document identifier under which the grouping counts a point. *)
Definition grouped_id (point : Qdrant.ScoredPoint) : option str :=
  match Qdrant.payload point with
  | Some p =>
      match Qdrant.payload_document_id p with
      | Some d => if truthy d then Some d else None
      | None => None
      end
  | None => None
  end.

(** The identifiers that the points are counted under, in order. *)
Fixpoint grouped_ids (points : list Qdrant.ScoredPoint) : list str :=
  match points with
  | [] => []
  | p :: rest =>
      match grouped_id p with
      | Some d => d :: grouped_ids rest
      | None => grouped_ids rest
      end
  end.

(** A point that the grouping can read: it has a payload, and no [None]
    is stored as its file name or file type. *)
Definition readable (point : Qdrant.ScoredPoint) : Prop :=
  exists p, Qdrant.payload point = Some p /\
            Qdrant.payload_filename p <> Some None /\
            Qdrant.payload_file_type p <> Some None.

(** A stored point as a search returns it with the score [s]. *)
Definition scored (s : Q) (point : Qdrant.PointStruct) : Qdrant.ScoredPoint :=
  {| Qdrant.payload := Some (Qdrant.point_payload point);
     Qdrant.point_score := Some s |}.

(** What a search never returns: a result without text or without
    document identifier. *)
Definition well_formed (r : SearchResult) : Prop :=
  strip (text r) <> [] /\ document_id (metadata r) <> [].

(** The results that the loop of [search_similar] appends for [points]. *)
Definition converted (points : list Qdrant.ScoredPoint) : list SearchResult :=
  flat_map (fun p => match Qdrant.convert_point p with
                     | Some r => [r]
                     | None => []
                     end) points.

Definition example_chunk : Chunk.Chunk :=
  {| Chunk.text := passage; Chunk.metadata := example_metadata |}.

Definition blank_chunk : Chunk.Chunk :=
  {| Chunk.text := py "   "; Chunk.metadata := example_metadata |}.

(** A store with the points [points] that accepts every write, and an
    embedding model that maps every text to the same vector. *)
Definition example_client (points : list Qdrant.ScoredPoint)
  : Qdrant.QdrantClient :=
  {| Qdrant.upsert := fun _ => Ok tt;
     Qdrant.query_points := fun _ _ => Ok points;
     Qdrant.scroll := Ok points |}.

Definition example_repository (points : list Qdrant.ScoredPoint)
  : Qdrant.Repository :=
  {| Qdrant.client := Some (example_client points);
     Qdrant.generate_embedding := fun _ => Ok [1%Q];
     Qdrant.generate_embeddings := fun texts => Ok (map (fun _ => [1%Q]) texts) |}.

(** A point without score. *)
Definition unscored (c : Chunk.Chunk) : Qdrant.ScoredPoint :=
  {| Qdrant.payload := Some (Qdrant.payload_of c);
     Qdrant.point_score := None |}.

(** The sum of the chunk counts of a dictionary of documents. *)
Definition chunk_total (d : Qdrant.documents) : Z :=
  fold_right Z.add 0 (map (fun e => Document.chunks_count (snd e)) d).

(** What holds of [documents_dict] when the points counted so far have the
    identifiers [ids], and [pending] is an identifier whose entry may have
    been made but not counted yet. *)
Definition grouping (pending : option str) (d : Qdrant.documents)
    (ids : list str) : Prop :=
  NoDup (map fst d) /\
  (forall k doc,
      In (k, doc) d ->
      Document.document_id doc = k /\
      Document.chunks_count doc = Z.of_nat (count_occ str_eq_dec ids k)) /\
  (forall k, In k (map fst d) <-> In k ids \/ pending = Some k) /\
  chunk_total d = Z.of_nat (length ids).

(** Two points of one document and one of another, and a point without a
    document identifier. *)
Definition stored (doc_id : str) (t : str) : Qdrant.ScoredPoint :=
  {| Qdrant.payload :=
       Some {| Qdrant.payload_text := Some t;
               Qdrant.payload_document_id := Some doc_id;
               Qdrant.payload_chunk_index := Some 0;
               Qdrant.payload_filename := Some (Some (py "example.pdf"));
               Qdrant.payload_file_type := Some (Some (py "pdf")) |};
     Qdrant.point_score := None |}.

Definition example_points : list Qdrant.ScoredPoint :=
  [stored (py "doc-1") (py "first"); stored (py "doc-2") (py "second");
   {| Qdrant.payload := Some Qdrant.empty_payload;
      Qdrant.point_score := None |};
   stored (py "doc-1") (py "third")].

(* ================================================================== *)
(** ** src/services/file_service.py                                     *)
(* ================================================================== *)

Module FileService.

(** A file on disk as the service sees it: whether it exists, and what the
    PDF processors and the text processor make of it ([_process_pdf],
    [_process_txt]). *)
Record File : Type := {
  path : str;
  file_exists : bool;
  _process_pdf : result str;
  _process_txt : result str
}.

Record FileService : Type := {
  chunker : Chunker.MarkdownChunker
}.

Definition _process_to_markdown {U : UnicodeTables} (file_path : File)
    (file_type : str) : result str :=
  if str_eqb (lower file_type) (py "pdf") then _process_pdf file_path
  else if str_eqb (lower file_type) (py "txt") then _process_txt file_path
  else Raise (ValueError (py "Unsupported file type: " ++ file_type)).

(** [for i, chunk_dict in enumerate(chunk_dicts)], counting from [i]. *)
Fixpoint to_chunks (i : Z) (document_id0 filename0 file_type0 : str)
    (chunk_dicts : list Chunker.chunk) : list Chunk.Chunk :=
  match chunk_dicts with
  | [] => []
  | chunk_dict :: rest =>
      {| Chunk.text := Chunker.text chunk_dict;
         Chunk.metadata :=
           {| document_id := document_id0;
              chunk_index := i;
              filename := Some filename0;
              file_type := Some file_type0 |} |}
        :: to_chunks (i + 1) document_id0 filename0 file_type0 rest
  end.

(** [process_file]; [FileNotFoundError] is an [OtherError] here.  [None]
    when the chunker has not returned within [fuel] rounds. *)
Definition process_file {U : UnicodeTables} (fuel : nat) (self : FileService)
    (file_path : File) (document_id0 filename0 file_type0 : str)
  : option (result (list Chunk.Chunk)) :=
  if negb (file_exists file_path)
  then Some (Raise (OtherError (py "File not found: " ++ path file_path)))
  else
    match _process_to_markdown file_path file_type0 with
    | inl e => Some (Raise e)
    | inr markdown_content =>
        if negb (truthy markdown_content)
           || negb (truthy (strip markdown_content))
        then Some (Ok [])
        else
          match Chunker.chunk_markdown fuel (chunker self) markdown_content with
          | None => None
          | Some chunk_dicts =>
              Some (Ok (to_chunks 0 document_id0 filename0 file_type0
                                  chunk_dicts))
          end
    end.

End FileService.

(* ================================================================== *)
(** ** src/services/document_service.py                                 *)
(* ================================================================== *)

Module DocumentService.

Record DocumentService : Type := {
  vector_repository : Qdrant.Repository;
  file_service : FileService.FileService
}.

(** [upload_document]; [new_id] is the fresh [str(uuid.uuid4())].  The
    result holds the points handed to the store and the returned
    document. *)
Definition upload_document {U : UnicodeTables} (fuel : nat)
    (self : DocumentService) (new_id : str) (file_path : FileService.File)
    (filename0 file_type0 : str)
  : option (result (list Qdrant.PointStruct * Document.Document)) :=
  match FileService.process_file fuel (file_service self) file_path
                                 new_id filename0 file_type0 with
  | None => None
  | Some (inl e) => Some (Raise e)
  | Some (inr chunks) =>
      if is_empty chunks
      then Some (Raise (ValueError (py "파일에서 텍스트를 추출할 수 없습니다.")))
      else
        match Qdrant.save_chunks (vector_repository self) chunks with
        | inl e => Some (Raise e)
        | inr (points, _) =>
            Some (Ok (points,
                      {| Document.document_id := new_id;
                         Document.metadata :=
                           {| Document.filename := filename0;
                              Document.file_type := file_type0 |};
                         Document.chunks_count :=
                           Z.of_nat (length chunks) |}))
        end
  end.

End DocumentService.

(** The metadata that [process_file] gives to the chunk at position [i]. *)
Definition metadata_at (i : nat) (document_id0 filename0 file_type0 : str)
  : ChunkMetadata :=
  {| document_id := document_id0; chunk_index := Z.of_nat i;
     filename := Some filename0; file_type := Some file_type0 |}.

(** A text file whose content starts with blank lines before a heading. *)
Definition example_file : FileService.File :=
  {| FileService.path := py "notes.txt";
     FileService.file_exists := true;
     FileService._process_pdf := Raise (OtherError (py "not a PDF file"));
     FileService._process_txt := Ok (py "
# Notes
alpha beta") |}.

Definition example_service : DocumentService.DocumentService :=
  {| DocumentService.vector_repository := example_repository [];
     DocumentService.file_service :=
       {| FileService.chunker :=
            {| Chunker.chunk_size := 1000; Chunker.chunk_overlap := 200 |} |} |}.

(** The chunks of [example_file]: an empty one for the blank lines before
    the heading, and the section under the heading. *)
Definition example_chunks : list Chunk.Chunk :=
  FileService.to_chunks 0 (py "doc-1") (py "notes.txt") (py "txt")
    [plain_chunk []; plain_chunk (py "# Notes
alpha beta")].

(** What the upload of [example_file] writes and returns: one point for
    two chunks. *)
Definition example_upload : list Qdrant.PointStruct * Document.Document :=
  ([{| Qdrant.vector := [1%Q];
       Qdrant.point_payload :=
         Qdrant.payload_of
           {| Chunk.text := py "# Notes
alpha beta";
              Chunk.metadata :=
                metadata_at 1 (py "doc-1") (py "notes.txt") (py "txt") |} |}],
   {| Document.document_id := py "doc-1";
      Document.metadata :=
        {| Document.filename := py "notes.txt";
           Document.file_type := py "txt" |};
      Document.chunks_count := 2 |}).

(** A search result made from a chunk of the document [did] of the file
    [fn] of type [ft], with a text that is not blank. *)
Definition result_of_document (did fn ft : str) (s : Q) (r : SearchResult)
  : Prop :=
  score r = s /\ strip (text r) <> [] /\
  document_id (metadata r) = did /\
  filename (metadata r) = Some fn /\ file_type (metadata r) = Some ft.

(* ================================================================== *)
(** ** src/managers/qwen.py                                             *)
(* ================================================================== *)

Module Qwen.

Local Open Scope result_scope.

(** What [QwenManager.generate] needs from outside: [ensure_loaded] is the
    loading of the model when it is not loaded and the fetching of model and
    tokenizer; [decode prompt max_tokens] is the text that tokenizer and
    model make of the prompt, with at most [max_tokens] new tokens. *)
Record Model : Type := {
  ensure_loaded : result unit;
  decode : str -> Z -> result str
}.

(** [QwenManager.generate(prompt, max_tokens)] *)
Definition generate (self : Model) (prompt : str) (max_tokens : Z)
  : result str :=
  _ <- ensure_loaded self ;;
  if negb (truthy prompt) || negb (truthy (strip prompt))
  then Raise (ValueError (py "Prompt cannot be empty"))
  else
    generated_text <- decode self prompt max_tokens ;;
    if startswith prompt generated_text
    then Ok (strip (skipn (length prompt) generated_text))
    else Ok generated_text.

Definition DEFAULT_INSTRUCTION : str :=
  py "다음 문서를 참고하여 질문에 답변해주세요. 문서 내용을 꼼꼼히 읽고 분석하세요. 문서에 없는 내용은 추측하지 마세요.

".

(** Lines 367-378: the prompt over the contexts. *)
Definition context_prompt (query : str) (valid_contexts : list str)
    (system_prompt : option str) : str :=
  let combined_context := join (py "

") valid_contexts in
  let prompt :=
    match system_prompt with
    | Some p => if truthy p then p ++ py "

" else DEFAULT_INSTRUCTION
    | None => DEFAULT_INSTRUCTION
    end in
  let prompt :=
    prompt ++ py "=== 참고 문서 내용 (표 형식 데이터 포함) ===
" ++ combined_context
      ++ py "
==========================================

" in
  let prompt := prompt ++ py "사용자 질문: " ++ query ++ py "

" in
  let prompt :=
    prompt ++ py "**중요**: 문서에 나온 항목, 구성 요소, 용어를 확인하고 질문에 답변하세요. 표 형식 데이터도 포함됩니다.

" in
  prompt ++ py "답변:".

(** [QwenManager.generate_with_context]: [max_tokens] is a parameter of
    its own and is not handed on, so [generate] runs with its default of
    500. *)
Definition generate_with_context (self : Model) (query : str)
    (contexts : list str) (system_prompt : option str) (max_tokens : Z)
  : result str :=
  if negb (truthy query) || negb (truthy (strip query))
  then Raise (ValueError (py "Query cannot be empty"))
  else if is_empty contexts
  then Raise (ValueError (py "Contexts cannot be empty"))
  else
    let valid_contexts :=
      filter (fun ctx => truthy ctx && truthy (strip ctx)) contexts in
    if is_empty valid_contexts
    then Raise (ValueError (py "All contexts are empty"))
    else generate self (context_prompt query valid_contexts system_prompt) 500.

Local Close Scope result_scope.

End Qwen.

(** The manager as the pipeline sees it: [loaded] is the state of the model
    loader, [load] what [initialize()] does. *)
Definition manager_of (m : Qwen.Model) (loaded : bool) (load : result unit)
  : QwenManager :=
  {| is_loaded := loaded;
     initialize := load;
     generate_with_context :=
       fun query0 contexts0 system_prompt max_tokens =>
         Qwen.generate_with_context m query0 contexts0 (Some system_prompt)
                                    max_tokens |}.

(** A model that writes the prompt again and then [completion]. *)
Definition echoing_model (completion : str) : Qwen.Model :=
  {| Qwen.ensure_loaded := Ok tt;
     Qwen.decode := fun prompt _ => Ok (prompt ++ completion) |}.

(** The pipeline over a model that writes the prompt again and then an
    answer, and the result of its run. *)
Definition echoing_pipeline : RAGPipeline :=
  {| vector_repository := fixed_repository [found passage (9 # 10)];
     llm_manager :=
       Some (manager_of (echoing_model (c_space :: generated_answer))
                        true (Ok tt)) |}.

Definition echoing_result : PipelineResult :=
  {| query := py "What is Rocq?"; answer := generated_answer;
     contexts := [passage]; sources := [found passage (9 # 10)];
     top_k := 5 |}.

(* ================================================================== *)
(** ** src/services/rag_service.py                                      *)
(* ================================================================== *)

Module RAGService.

Local Open Scope pipeline_scope.

(** [RAGService.query] *)
Definition query {U : UnicodeTables} (self : RAGPipeline) (query0 : str)
    (top_k0 : Z) (use_llm : bool) : M PipelineResult :=
  run self query0 top_k0 use_llm None.

(** An entry of [document_info] while the sources are read. *)
Record Info : Type := {
  info_document_id : str;
  info_filename : str;
  info_chunks_found : Z;
  info_scores : list Q
}.

(** [document_info]: a dictionary in insertion order. *)
Definition document_info := list (str * Info).

Fixpoint has_key (d : document_info) (k : str) : bool :=
  match d with
  | [] => false
  | (k', _) :: r => str_eqb k k' || has_key r k
  end.

(** [document_info[doc_id]["chunks_found"] += 1] and
    [document_info[doc_id]["scores"].append(source.score)] *)
Fixpoint record_source (d : document_info) (k : str) (s : Q)
  : document_info :=
  match d with
  | [] => []
  | (k', info) :: r =>
      if str_eqb k k'
      then (k', {| info_document_id := info_document_id info;
                   info_filename := info_filename info;
                   info_chunks_found := info_chunks_found info + 1;
                   info_scores := info_scores info ++ [s] |}) :: r
      else (k', info) :: record_source r k s
  end.

(** The body of the loop over the sources. *)
Definition add_source (d : document_info) (source : SearchResult)
  : document_info :=
  let doc_id := document_id (metadata source) in
  let filename0 :=
    match filename (metadata source) with
    | Some f => if truthy f then f else py "Unknown"
    | None => py "Unknown"
    end in
  let d1 :=
    if negb (has_key d doc_id)
    then d ++ [(doc_id, {| info_document_id := doc_id;
                           info_filename := filename0;
                           info_chunks_found := 0;
                           info_scores := [] |})]
    else d in
  record_source d1 doc_id (score source).

Definition group_sources (sources0 : list SearchResult) : document_info :=
  fold_left add_source sources0 [].

(** [max(scores)] and [min(scores)] on the scores [x :: r]. *)
Definition max_of (x : Q) (r : list Q) : Q :=
  fold_left (fun m y => if Qltb m y then y else m) r x.

Definition min_of (x : Q) (r : list Q) : Q :=
  fold_left (fun m y => if Qltb y m then y else m) r x.

(** An entry of [searched_documents]. *)
Record Entry : Type := {
  entry_document_id : str;
  entry_filename : str;
  chunks_found : Z;
  avg_score : Q;
  max_score : Q;
  min_score : Q
}.

(** The statistics of one document; [mean] is the floating-point
    [sum(scores) / len(scores)]. *)
Definition statistics (mean : list Q -> Q) (info : Info) : Entry :=
  match info_scores info with
  | x :: r =>
      {| entry_document_id := info_document_id info;
         entry_filename := info_filename info;
         chunks_found := info_chunks_found info;
         avg_score := mean (x :: r);
         max_score := max_of x r;
         min_score := min_of x r |}
  | [] =>
      {| entry_document_id := info_document_id info;
         entry_filename := info_filename info;
         chunks_found := info_chunks_found info;
         avg_score := 0; max_score := 0; min_score := 0 |}
  end.

Record DebugInfo : Type := {
  searched_documents : list Entry;
  total_documents_found : Z
}.

(** [RAGService.query_with_debug_info]: the result of the query and the
    value stored under ["debug_info"]. *)
Definition query_with_debug_info {U : UnicodeTables} (mean : list Q -> Q)
    (self : RAGPipeline) (query0 : str) (top_k0 : Z) (use_llm : bool)
  : M (PipelineResult * DebugInfo) :=
  result0 <- query self query0 top_k0 use_llm ;;
  let d := group_sources (sources result0) in
  mret (result0,
        {| searched_documents := map (fun e => statistics mean (snd e)) d;
           total_documents_found := Z.of_nat (length d) |}).

Local Close Scope pipeline_scope.

End RAGService.

(** The sources of the document [k]. *)
Definition of_document (k : str) (l : list SearchResult) : list SearchResult :=
  filter (fun s => str_eqb (document_id (metadata s)) k) l.

(** The sum of the chunk counts of [document_info]. *)
Definition found_total (d : RAGService.document_info) : Z :=
  fold_right Z.add 0 (map (fun e => RAGService.info_chunks_found (snd e)) d).

(** What holds of [document_info] when the sources [seen0] have been read,
    and [pending] is an identifier whose entry may have been made but not
    counted yet. *)
Definition tallied (pending : option str) (d : RAGService.document_info)
    (seen0 : list SearchResult) : Prop :=
  NoDup (map fst d) /\
  (forall k info,
      In (k, info) d ->
      RAGService.info_document_id info = k /\
      RAGService.info_scores info = map score (of_document k seen0) /\
      RAGService.info_chunks_found info
      = Z.of_nat (length (of_document k seen0))) /\
  (forall k, In k (map fst d)
             <-> In k (map (fun s => document_id (metadata s)) seen0)
                 \/ pending = Some k) /\
  found_total d = Z.of_nat (length seen0).

(** A plain mean of rationals, for the examples. *)
Definition exact_mean (l : list Q) : Q :=
  (fold_right Qplus 0 l / inject_Z (Z.of_nat (length l)))%Q.

(** The scores of the sources of the document of an entry. *)
Definition scores_of (e : RAGService.Entry) (r : PipelineResult) : list Q :=
  map score (of_document (RAGService.entry_document_id e) (sources r)).

(** What an entry of the debugging information says about the sources of
    the result. *)
Definition entry_ok (r : PipelineResult) (e : RAGService.Entry) : Prop :=
  RAGService.chunks_found e = Z.of_nat (length (scores_of e r)) /\
  1 <= RAGService.chunks_found e /\
  In (RAGService.max_score e) (scores_of e r) /\
  In (RAGService.min_score e) (scores_of e r) /\
  (forall y, In y (scores_of e r) ->
             (RAGService.min_score e <= y <= RAGService.max_score e)%Q) /\
  (MIN_RELEVANCE_SCORE <= RAGService.min_score e)%Q.

(** The debugging information for [items_result]: both items come from one
    document. *)
Definition items_debug_info : RAGService.DebugInfo :=
  {| RAGService.searched_documents :=
       [{| RAGService.entry_document_id := py "doc-1";
           RAGService.entry_filename := py "example.pdf";
           RAGService.chunks_found := 2;
           RAGService.avg_score := exact_mean [9 # 10; 8 # 10];
           RAGService.max_score := 9 # 10;
           RAGService.min_score := 8 # 10 |}];
     RAGService.total_documents_found := 1 |}.

(* ================================================================== *)
(** ** src/utils/file_utils.py                                          *)
(* ================================================================== *)

Module FileUtils.

Definition c_slash : char := 47%N.       (* "/" *)
Definition c_backslash : char := 92%N.   (* the backslash *)

(** [os.path.basename(p)] of [posixpath]: [p[p.rfind('/') + 1:]] *)
Definition basename (p : str) : str :=
  skipn (Z.to_nat (rfind p c_slash 0 (len p) + 1)) p.

(** [s.replace(c, '')] for one character [c] *)
Definition remove_char (c : char) (s : str) : str :=
  filter (fun d => negb (char_eqb d c)) s.

(** The class of the pattern of line 43: the characters [< > : | ? *], the
    double quote, and the control characters up to [\x1f]. *)
Definition dangerous (c : char) : bool :=
  existsb (char_eqb c) (py "<>:|?*") || char_eqb c c_dquote || (c <=? 31)%N.

(** [re.sub(r'\.{2,}', '.', s)]: every run of full stops becomes one full
    stop; [after_dot] says that the character before [s] was one. *)
Fixpoint collapse_dots (after_dot : bool) (s : str) : str :=
  match s with
  | [] => []
  | c :: r =>
      if char_eqb c c_dot
      then if after_dot then collapse_dots true r
           else c :: collapse_dots true r
      else c :: collapse_dots false r
  end.

Definition dot_or_space (c : char) : bool :=
  char_eqb c c_dot || char_eqb c c_space.

(** [s.strip('. ')] *)
Definition strip_chars (s : str) : str :=
  rstrip_by dot_or_space (lstrip_by dot_or_space s).

(** [os.path.splitext(p)] of [posixpath]: the extension starts at the last
    full stop, if that comes after the last slash and after a character of
    the last component that is not a full stop. *)
Definition splitext (p : str) : str * str :=
  let sepIndex := rfind p c_slash 0 (len p) in
  let dotIndex := rfind p c_dot 0 (len p) in
  if sepIndex <? dotIndex then
    if existsb (fun c => negb (char_eqb c c_dot))
               (slice p (sepIndex + 1) dotIndex)
    then (slice_to p dotIndex, skipn (Z.to_nat dotIndex) p)
    else (p, [])
  else (p, []).

(** Lines 37-49 of [sanitize_filename]: the name before the checks for an
    empty and for a long name. *)
Definition cleaned_name (filename : str) : str :=
  let filename := basename filename in
  let filename := remove_char c_backslash (remove_char c_slash filename) in
  let filename := filter (fun c => negb (dangerous c)) filename in
  let filename := collapse_dots false filename in
  strip_chars filename.

Definition sanitize_filename (filename : str) : str :=
  if negb (truthy filename) then py "unnamed_file"
  else
    let filename := cleaned_name filename in
    if negb (truthy filename) then py "unnamed_file"
    else if 255 <? len filename then
      let '(name, ext) := splitext filename in
      slice_to name (255 - len ext) ++ ext
    else filename.

End FileUtils.

(** A character that may stay in a file name. *)
Definition safe_char (c : char) : Prop :=
  c <> FileUtils.c_slash /\ c <> FileUtils.c_backslash /\
  FileUtils.dangerous c = false.

(** Two full stops in a row somewhere in [s]. *)
Fixpoint adjacent_dots (s : str) : bool :=
  match s with
  | a :: r =>
      match r with
      | b :: _ => (char_eqb a c_dot && char_eqb b c_dot) || adjacent_dots r
      | [] => false
      end
  | [] => false
  end.

(** A name of 265 characters whose cut at 255 characters ends at a full
    stop, and a name whose extension alone has 300 characters. *)
Definition long_name : str :=
  repeat 120%N 250 ++ [c_dot] ++ repeat 121%N 10 ++ py ".txt".

Definition long_extension : str :=
  py "a." ++ repeat 98%N 300.

(** The lines of [ctx] that are not blank, each trimmed. *)
Definition trimmed_lines (ctx : str) : list str :=
  map strip (filter (fun line => truthy (strip line)) (split_on c_nl ctx)).

(** Four retrieved passages: one with padding and a blank line, one plain,
    one of 400 characters, and a fourth one. *)
Definition padded_item : str :=
  py "  Item A: a red apple" ++ [c_nl; c_nl]
  ++ py "   from the orchard  " ++ [c_nl].

Definition long_item : str := repeat 120%N 400.

Definition fourth_item : str := py "Item D: a yellow quince from the hedge".

(** The answer to expect for them without the language model. *)
Definition rendered_items : str :=
  py "질문: Which items are listed?

제공된 문서에서 찾은 관련 정보:

[문서 1]
Item A: a red apple
from the orchard

[문서 2]
Item B: a green pear from the garden

[문서 3]
" ++ repeat 120%N 333 ++ py "...

참고: 위 정보는 제공된 문서에서 추출한 내용입니다. 더 정확한 답변을 원하시면 LLM을 사용하는 옵션을 활성화해주세요.".

Definition rendered_result : PipelineResult :=
  {| query := py "Which items are listed?";
     answer := rendered_items;
     contexts := [padded_item; item_b; long_item; fourth_item];
     sources := [found padded_item (9 # 10); found item_b (8 # 10);
                 found long_item (7 # 10); found fourth_item (6 # 10)];
     top_k := 5 |}.

(* ================================================================== *)
(** * Properties                                                        *)
(* ================================================================== *)

(** ** Sanity checks of the string primitives against Python *)

Example py_hangul : py "없" = [50630%N].
Proof. reflexivity. Qed.

Example strip_ex : strip (py "  a b
 ") = py "a b".
Proof. reflexivity. Qed.

Example words_ex : words (py " ab  c ") = [py "ab"; py "c"].
Proof. reflexivity. Qed.

Example rfind_ex : rfind (py "ab.cdefgh") c_dot 1 5 = 2.
Proof. reflexivity. Qed.

Example str_of_Z_ex : str_of_Z 12 = py "12".
Proof. reflexivity. Qed.

Example re_split_ex1 :
  re_split false (py "One. Two!  Three?x") = [py "One"; py "Two"; py "Three?x"].
Proof. reflexivity. Qed.

Example re_split_ex2 :
  re_split true (py "One. Two!  Three. ")
  = [py "One"; py ". "; py "Two"; py "!  "; py "Three"; py ". "; []].
Proof. reflexivity. Qed.

Example re_split_ex3 :
  re_split true (py "a.. b. .c") = [py "a."; py ". "; py "b"; py ". "; py ".c"].
Proof. reflexivity. Qed.

Example re_split_ex4 : re_split true (py "a. . b")
  = [py "a"; py ". "; []; py ". "; py "b"].
Proof. reflexivity. Qed.

(** ** Basic facts *)

Lemma str_eqb_eq a b : str_eqb a b = true <-> a = b.
Proof. unfold str_eqb; destruct (str_eq_dec a b); split; congruence. Qed.

Lemma str_eqb_refl a : str_eqb a a = true.
Proof. now apply str_eqb_eq. Qed.

Lemma Qltb_lt x y : Qltb x y = true <-> (x < y)%Q.
Proof.
  unfold Qltb. rewrite negb_true_iff. split; intro H.
  - apply Qnot_le_lt. intro H1. apply Qle_bool_iff in H1. congruence.
  - destruct (Qle_bool y x) eqn:E; [|reflexivity].
    apply Qle_bool_iff in E. exfalso. eapply Qlt_not_le; eauto.
Qed.

(** ** Facts about strip, split and join *)

Lemma len_nonneg s : 0 <= len s.
Proof. unfold len; lia. Qed.

Lemma len_app a b : len (a ++ b) = len a + len b.
Proof. unfold len; rewrite length_app; lia. Qed.

Lemma truthy_false_iff s : truthy s = false <-> s = [].
Proof. destruct s; simpl; split; congruence. Qed.

Lemma truthy_true_iff s : truthy s = true <-> s <> [].
Proof. destruct s; simpl; split; congruence. Qed.

Lemma dropwhile_length p s : (length (dropwhile p s) <= length s)%nat.
Proof.
  induction s as [|c r IH]; simpl; [lia|].
  destruct (p c); simpl; lia.
Qed.

Lemma dropwhile_all p s : forallb p s = true -> dropwhile p s = [].
Proof.
  induction s as [|c r IH]; simpl; [reflexivity|].
  destruct (p c); simpl; [exact IH | discriminate].
Qed.

Lemma dropwhile_nil_all p s : dropwhile p s = [] -> forallb p s = true.
Proof.
  induction s as [|c r IH]; simpl; [reflexivity|].
  destruct (p c); simpl; [exact IH | discriminate].
Qed.

Lemma dropwhile_head p s c r : dropwhile p s = c :: r -> p c = false.
Proof.
  induction s as [|d t IH]; simpl; [discriminate|].
  destruct (p d) eqn:E; [exact IH|].
  intro H; inversion H; subst; exact E.
Qed.

Lemma dropwhile_idem p s : dropwhile p (dropwhile p s) = dropwhile p s.
Proof.
  induction s as [|c r IH]; simpl; [reflexivity|].
  destruct (p c) eqn:E; [exact IH|]. simpl. now rewrite E.
Qed.

Lemma dropwhile_app_stop p s c r :
  p c = false -> dropwhile p (s ++ c :: r) = dropwhile p s ++ c :: r.
Proof.
  intro Hc. induction s as [|d t IH]; simpl.
  - now rewrite Hc.
  - destruct (p d); [exact IH | reflexivity].
Qed.

Lemma dropwhile_app_all p ws s :
  forallb p ws = true -> dropwhile p (ws ++ s) = dropwhile p s.
Proof.
  induction ws as [|c r IH]; simpl; [reflexivity|].
  destruct (p c); simpl; [exact IH | discriminate].
Qed.

Lemma forallb_rev {A} (p : A -> bool) l : forallb p (rev l) = forallb p l.
Proof.
  induction l as [|x r IH]; [reflexivity|].
  simpl. rewrite forallb_app, IH. simpl.
  rewrite andb_true_r. apply andb_comm.
Qed.

Lemma strip_length s : len (strip s) <= len s.
Proof.
  unfold strip, rstrip, lstrip, rstrip_by, lstrip_by, len.
  rewrite length_rev.
  pose proof (dropwhile_length isspace (rev (dropwhile isspace s))) as H1.
  pose proof (dropwhile_length isspace s) as H2.
  rewrite length_rev in H1. lia.
Qed.

Lemma rstrip_by_snoc p s c : p c = false -> rstrip_by p (s ++ [c]) = s ++ [c].
Proof.
  intro Hc. unfold rstrip_by. rewrite rev_app_distr. simpl. rewrite Hc.
  simpl. now rewrite rev_involutive.
Qed.

Lemma rstrip_by_app_all p s ws :
  forallb p ws = true -> rstrip_by p (s ++ ws) = rstrip_by p s.
Proof.
  intro H. unfold rstrip_by. rewrite rev_app_distr.
  rewrite dropwhile_app_all; [reflexivity|].
  now rewrite forallb_rev.
Qed.

Lemma strip_blank s : forallb isspace s = true -> strip s = [].
Proof.
  intro H. unfold strip, lstrip, lstrip_by.
  now rewrite (dropwhile_all _ _ H).
Qed.

Lemma strip_nil_blank s : strip s = [] -> forallb isspace s = true.
Proof.
  unfold strip, rstrip, rstrip_by, lstrip, lstrip_by. intro H.
  assert (H1 : dropwhile isspace (rev (dropwhile isspace s)) = []).
  { rewrite <- (rev_involutive (dropwhile _ (rev _))). now rewrite H. }
  apply dropwhile_nil_all in H1. rewrite forallb_rev in H1.
  destruct (dropwhile isspace s) as [|c r] eqn:E.
  - now apply dropwhile_nil_all.
  - apply dropwhile_head in E. simpl in H1. rewrite E in H1. discriminate.
Qed.

Lemma lstrip_idem s : lstrip (lstrip s) = lstrip s.
Proof. apply dropwhile_idem. Qed.

Lemma strip_lstrip s : strip (lstrip s) = strip s.
Proof. unfold strip. now rewrite lstrip_idem. Qed.

Lemma join_nil_concat l : join [] l = concat l.
Proof.
  induction l as [|x r IH]; [reflexivity|].
  destruct r as [|y r']; simpl in *.
  - now rewrite app_nil_r.
  - now rewrite IH.
Qed.

Lemma last_char_snoc s c : last_char (s ++ [c]) = Some c.
Proof. unfold last_char. now rewrite rev_app_distr. Qed.

Lemma last_char_truthy s : truthy s = true -> exists c, last_char s = Some c.
Proof.
  intro H. destruct (rev s) as [|c r] eqn:E.
  - apply (f_equal (@rev _)) in E. rewrite rev_involutive in E.
    subst s. discriminate.
  - exists c. unfold last_char. now rewrite E.
Qed.

Lemma split_on_go_nonempty sep s cur : split_on_go sep cur s <> [].
Proof.
  revert cur. induction s as [|c r IH]; intro cur; simpl; [discriminate|].
  destruct (char_eqb c sep); [discriminate | apply IH].
Qed.

Lemma contains_nonempty p s : p <> [] -> contains p s = true -> s <> [].
Proof.
  intros Hp H. destruct s; [|discriminate].
  destruct p; [congruence|]. simpl in H. discriminate.
Qed.

(** ** The text-quality functions never raise *)

Lemma returns_Ok {A} (a : A) : returns (Ok a).
Proof. now exists a. Qed.

Lemma returns_bind {A B} (m : result A) (k : A -> result B) :
  returns m -> (forall a, returns (k a)) -> returns (rbind m k).
Proof. intros [a ->] Hk. simpl. apply Hk. Qed.

Lemma returns_if {A} (b : bool) (x y : result A) :
  returns x -> returns y -> returns (if b then x else y).
Proof. now destruct b. Qed.

Lemma py_truediv_returns a b : b <> 0 -> returns (py_truediv a b).
Proof.
  intro Hb. unfold py_truediv.
  destruct (b =? 0) eqn:E; [apply Z.eqb_eq in E; contradiction|].
  destruct (0 <? b); apply returns_Ok.
Qed.

Lemma py_truediv_pos a b : 0 < b -> py_truediv a b = Ok (a # Z.to_pos b).
Proof.
  intro Hb. unfold py_truediv.
  destruct (b =? 0) eqn:E; [apply Z.eqb_eq in E; lia|].
  destruct (0 <? b) eqn:E1; [reflexivity | apply Z.ltb_ge in E1; lia].
Qed.

Lemma similar_to_next_returns s t : returns (similar_to_next s t).
Proof.
  unfold similar_to_next.
  destruct (str_eqb _ _); [apply returns_Ok|].
  destruct (_ && _); [|apply returns_Ok].
  match goal with |- context [0 <? ?x] => destruct (0 <? x) eqn:E end;
    [|apply returns_Ok].
  apply Z.ltb_lt in E. rewrite py_truediv_pos by exact E. apply returns_Ok.
Qed.

Lemma adjacent_loop_returns m l : returns (adjacent_loop m l).
Proof.
  induction l as [|s r IH]; [apply returns_Ok|].
  destruct r as [|t r']; [apply returns_Ok|].
  cbn [adjacent_loop].
  destruct (len s <? m); [exact IH|].
  apply returns_bind; [apply similar_to_next_returns|].
  intros [|]; [apply returns_Ok | exact IH].
Qed.

Lemma word_level_repetition_returns text :
  returns (word_level_repetition text).
Proof.
  unfold word_level_repetition.
  destruct (10 <? _); [|apply returns_Ok].
  destruct (count_words (words text)) as [|[k v] d];
    simpl; apply returns_Ok.
Qed.

Lemma detect_repetition_with_returns text m :
  returns (detect_repetition_with text m).
Proof.
  unfold detect_repetition_with.
  destruct (_ || _); [apply returns_Ok|].
  apply returns_bind; [apply adjacent_loop_returns|].
  intros [|]; [apply returns_Ok | apply word_level_repetition_returns].
Qed.

Lemma detect_repetition_returns text : returns (detect_repetition text).
Proof. apply detect_repetition_with_returns. Qed.

Lemma union_card_pos a b : 0 < PySet.card a -> 0 < PySet.card (PySet.union a b).
Proof.
  unfold PySet.card, PySet.union. rewrite length_app. lia.
Qed.

Lemma too_similar_returns s t : returns (too_similar s t).
Proof.
  unfold too_similar.
  destruct (_ && _) eqn:E; [|apply returns_Ok].
  apply andb_true_iff in E. destruct E as [E1 _]. apply Z.ltb_lt in E1.
  rewrite py_truediv_pos by (now apply union_card_pos). apply returns_Ok.
Qed.

Lemma is_duplicate_returns s seen0 : returns (is_duplicate s seen0).
Proof.
  induction seen0 as [|t r IH]; [apply returns_Ok|].
  simpl. apply returns_bind; [apply too_similar_returns|].
  intros [|]; [apply returns_Ok | exact IH].
Qed.

Lemma clean_step_returns s sep st : returns (clean_step s sep st).
Proof.
  unfold clean_step.
  destruct (negb _); [apply returns_Ok|].
  apply returns_bind; [apply is_duplicate_returns|].
  intros [|]; apply returns_Ok.
Qed.

(** Induction for the loops that advance by two list elements. *)
Lemma pairs_ind {A} (P : list A -> Prop) :
  P [] -> (forall x, P [x]) -> (forall x y l, P l -> P (x :: y :: l)) ->
  forall l, P l.
Proof.
  intros H0 H1 H2 l.
  assert (H : P l /\ forall x, P (x :: l)).
  { induction l as [|y r [IHa IHb]]; split; auto. }
  apply H.
Qed.

Lemma clean_loop_returns l : forall st, returns (clean_loop l st).
Proof.
  induction l as [|s|s sep rest IH] using pairs_ind; intro st.
  - apply returns_Ok.
  - apply clean_step_returns.
  - cbn [clean_loop]. apply returns_bind; [apply clean_step_returns|].
    intro st'. apply IH.
Qed.

Lemma py_last_returns s : truthy s = true -> returns (py_last s).
Proof.
  intro H. destruct (last_char_truthy s H) as [c Hc].
  unfold py_last. rewrite Hc. apply returns_Ok.
Qed.

Lemma py_last_item_returns l : l <> [] -> returns (py_last_item l).
Proof.
  intro H. unfold py_last_item. destruct (rev l) as [|x r] eqn:E.
  - apply (f_equal (@rev _)) in E. rewrite rev_involutive in E. contradiction.
  - apply returns_Ok.
Qed.

Lemma complete_last_sentence_returns r : returns (complete_last_sentence r).
Proof.
  unfold complete_last_sentence.
  destruct (truthy r) eqn:Hr; [|apply returns_Ok].
  apply returns_bind; [now apply py_last_returns|]. intro c.
  destruct (negb (is_terminator c)); [|apply returns_Ok].
  apply returns_bind.
  - destruct (contains _ _); [|apply returns_Ok].
    apply py_last_item_returns, split_on_go_nonempty.
  - intro ls. destruct (10 <? _); [|apply returns_Ok].
    destruct (truthy (rstrip _)) eqn:Hr1; [|apply returns_Ok].
    apply returns_bind; [now apply py_last_returns|]. intro c1.
    destruct (negb _); apply returns_Ok.
Qed.

Lemma clean_repetitive_text_returns text :
  returns (clean_repetitive_text text).
Proof.
  unfold clean_repetitive_text.
  destruct (negb _); [apply returns_Ok|].
  apply returns_bind; [apply clean_loop_returns|].
  intro st. apply complete_last_sentence_returns.
Qed.

Lemma post_process_answer_returns answer max_length :
  returns (post_process_answer answer max_length).
Proof.
  unfold post_process_answer.
  destruct (negb _); [apply returns_Ok|].
  apply returns_bind; [apply clean_repetitive_text_returns|].
  intro cleaned. destruct (_ <? _); apply returns_Ok.
Qed.

Lemma check_context_overlap_returns `{UnicodeTables} answer ctxs :
  returns (check_context_overlap answer ctxs).
Proof.
  unfold check_context_overlap.
  match goal with |- context [0 <? ?x] => destruct (0 <? x) eqn:E end;
    [|apply returns_Ok].
  apply Z.ltb_lt in E. rewrite py_truediv_pos by exact E.
  unfold rbind, Ok.
  repeat match goal with
         | |- context [if ?b then _ else _] => destruct b
         end; eexists; reflexivity.
Qed.

Lemma validate_answer_quality_returns `{UnicodeTables} answer lo hi ctxs :
  returns (validate_answer_quality answer lo hi ctxs).
Proof.
  unfold validate_answer_quality.
  destruct (_ || _); [apply returns_Ok|].
  destruct (_ <? _); [apply returns_Ok|].
  destruct (_ <? _); [apply returns_Ok|].
  apply returns_bind; [apply detect_repetition_returns|].
  intros [|]; [apply returns_Ok|].
  destruct ctxs as [[|c cs]|]; try apply returns_Ok.
  apply check_context_overlap_returns.
Qed.

(** ** Blank text *)

Lemma terminator_not_space c : is_terminator c = true -> isspace c = false.
Proof.
  unfold is_terminator, char_eqb, c_dot, c_bang, c_qmark. intro H.
  repeat (apply orb_true_iff in H; destruct H as [H|H]);
    apply N.eqb_eq in H; subst; reflexivity.
Qed.

Lemma blank_no_terminator s : forallb isspace s = true -> no_terminator s = true.
Proof.
  unfold no_terminator. induction s as [|c r IH]; simpl; [reflexivity|].
  intro H. apply andb_true_iff in H. destruct H as [Hc Hr].
  rewrite (IH Hr), andb_true_r.
  destruct (is_terminator c) eqn:E; [|reflexivity].
  apply terminator_not_space in E. congruence.
Qed.

Lemma re_split_go_no_terminator capture s : forall cur,
  no_terminator s = true -> re_split_go capture None cur s = [rev cur ++ s].
Proof.
  unfold no_terminator.
  induction s as [|c r IH]; intros cur H; simpl.
  - now rewrite app_nil_r.
  - simpl in H. apply andb_true_iff in H. destruct H as [Hc Hr].
    apply negb_true_iff in Hc. rewrite Hc. simpl.
    rewrite (IH _ Hr). simpl. now rewrite <- app_assoc.
Qed.

Lemma re_split_no_terminator capture s :
  no_terminator s = true -> re_split capture s = [s].
Proof. intro H. unfold re_split. now rewrite re_split_go_no_terminator. Qed.

Lemma runs_go_none p s :
  forallb (fun c => negb (p c)) s = true -> runs_go p [] s = [].
Proof.
  induction s as [|c r IH]; simpl; [reflexivity|].
  intro H. apply andb_true_iff in H. destruct H as [Hc Hr].
  apply negb_true_iff in Hc. rewrite Hc. auto.
Qed.

Lemma words_blank s : forallb isspace s = true -> words s = [].
Proof.
  intro H. apply runs_go_none.
  rewrite <- H. clear H. induction s as [|c r IH]; [reflexivity|].
  simpl. now rewrite negb_involutive, IH.
Qed.

Lemma detect_repetition_blank text :
  strip text = [] -> detect_repetition text = Ok false.
Proof.
  intro H. apply strip_nil_blank in H.
  unfold detect_repetition, detect_repetition_with.
  destruct (_ || _); [reflexivity|].
  rewrite re_split_no_terminator by now apply blank_no_terminator.
  simpl. unfold word_level_repetition. now rewrite (words_blank _ H).
Qed.

Lemma clean_repetitive_text_blank text :
  strip text = [] -> clean_repetitive_text text = Ok [].
Proof.
  intro H. unfold clean_repetitive_text.
  destruct text as [|c r]; [reflexivity|].
  cbn [truthy negb].
  rewrite re_split_no_terminator
    by (apply blank_no_terminator; now apply strip_nil_blank).
  cbn [clean_loop]. unfold clean_step. rewrite H. reflexivity.
Qed.

Lemma post_process_answer_blank text max_length :
  strip text = [] -> post_process_answer text max_length = Ok [].
Proof.
  intro H. unfold post_process_answer.
  destruct text as [|c r]; [reflexivity|].
  cbn [truthy negb]. rewrite (clean_repetitive_text_blank _ H).
  cbn [rbind Ok]. destruct (max_length <? len []) eqn:E; [|reflexivity].
  cbn. change (len []) with 0 in *. simpl. rewrite E. reflexivity.
Qed.

Lemma validate_answer_quality_blank `{UnicodeTables} text lo hi ctxs :
  strip text = [] ->
  validate_answer_quality text lo hi ctxs = Ok (false, Some AnswerEmpty).
Proof.
  intro H0. unfold validate_answer_quality. rewrite H0. simpl.
  now rewrite orb_true_r.
Qed.

(** C9.  [detect_repetition], [clean_repetitive_text],
    [validate_answer_quality] and [post_process_answer] return normally on
    every string: none of the partial operations they use (division, [max],
    indexing the last element) is ever applied outside its domain.  On an
    empty or whitespace-only string they return [False], the empty string,
    the invalid verdict with the reason "Answer is empty", and the empty
    string. *)
Theorem text_quality_total `{UnicodeTables} :
  (forall text, returns (detect_repetition text)) /\
  (forall text, returns (clean_repetitive_text text)) /\
  (forall answer min_length max_length contexts,
      returns (validate_answer_quality answer min_length max_length contexts)) /\
  (forall answer max_length, returns (post_process_answer answer max_length)) /\
  (forall text min_length max_length contexts,
      strip text = [] ->
      detect_repetition text = Ok false /\
      clean_repetitive_text text = Ok [] /\
      validate_answer_quality text min_length max_length contexts
        = Ok (false, Some AnswerEmpty) /\
      post_process_answer text max_length = Ok []).
Proof.
  split; [exact detect_repetition_returns|].
  split; [exact clean_repetitive_text_returns|].
  split; [exact validate_answer_quality_returns|].
  split; [exact post_process_answer_returns|].
  intros text lo hi ctxs Hb.
  split; [now apply detect_repetition_blank|].
  split; [now apply clean_repetitive_text_blank|].
  split; [now apply validate_answer_quality_blank|].
  now apply post_process_answer_blank.
Qed.

Lemma text_quality_total_witness :
  strip (py "   ") = [] /\
  detect_repetition (py "   ") = Ok false /\
  clean_repetitive_text (py "   ") = Ok [] /\
  validate_answer_quality (U := ascii_tables) (py "   ") 10 2000 None
    = Ok (false, Some AnswerEmpty) /\
  post_process_answer (py "   ") 1000 = Ok [].
Proof.
  split; [reflexivity|].
  apply (proj2 (proj2 (proj2 (proj2 (@text_quality_total ascii_tables))))
           (py "   ") 10 2000 None).
  reflexivity.
Defined.

(** ** Truncation in post_process_answer *)

(** C10.  When the cleaned answer is longer than [max_length] and so is its
    first sentence, [post_process_answer] returns the empty string. *)
Theorem post_process_first_sentence_too_long answer max_length cleaned :
  clean_repetitive_text answer = Ok cleaned ->
  max_length < len cleaned ->
  max_length < len (first_sentence cleaned) ->
  post_process_answer answer max_length = Ok [].
Proof.
  intros Hc Hlen Hfirst. unfold post_process_answer.
  destruct (negb (truthy answer)) eqn:Ha.
  - apply negb_true_iff, truthy_false_iff in Ha. subst answer. reflexivity.
  - rewrite Hc. cbn [rbind Ok].
    apply Z.ltb_lt in Hlen. rewrite Hlen.
    unfold first_sentence in Hfirst.
    destruct (re_split true cleaned) as [|s [|sep rest]]; simpl in *.
    + reflexivity.
    + apply Z.ltb_lt in Hfirst. now rewrite Hfirst.
    + apply Z.ltb_lt in Hfirst. now rewrite Hfirst.
Qed.

Lemma post_process_first_sentence_too_long_witness :
  post_process_answer (py "An opening sentence of some length. Short one.") 20
  = Ok [].
Proof.
  apply (post_process_first_sentence_too_long
           (py "An opening sentence of some length. Short one.") 20
           (py "An opening sentence of some length. Short one."));
    [reflexivity | reflexivity | reflexivity].
Defined.

(** ** The chunker *)

Section ChunkerFacts.

Import Chunker.

Lemma new_ok cs ov self :
  new cs ov = Ok self ->
  0 < cs /\ 0 <= ov < cs /\ chunk_size self = cs /\ chunk_overlap self = ov.
Proof.
  unfold new.
  destruct (cs <=? 0) eqn:E1; [discriminate|].
  destruct (cs <=? ov) eqn:E2; [discriminate|].
  destruct (ov <? 0) eqn:E3; [discriminate|].
  intro H. inversion H; subst; simpl.
  apply Z.leb_gt in E1, E2. apply Z.ltb_ge in E3. lia.
Qed.

(** *** The loop can stall *)

Lemma looping_step cs :
  chunk_step looping_chunker looping_input {| start := 3; chunks := cs |}
  = Continue {| start := 3; chunks := cs ++ [plain_chunk (py "otes")] |}.
Proof. reflexivity. Qed.

Lemma looping_iter n : forall cs,
  chunk_iter n looping_chunker looping_input {| start := 3; chunks := cs |}
  = Continue {| start := 3;
                chunks := cs ++ repeat (plain_chunk (py "otes")) n |}.
Proof.
  induction n as [|n IH]; intro cs; cbn [chunk_iter].
  - simpl. now rewrite app_nil_r.
  - rewrite looping_step, IH. now rewrite <- app_assoc.
Qed.

Lemma looping_loop fuel : forall cs,
  chunk_loop fuel looping_chunker looping_input {| start := 3; chunks := cs |}
  = None.
Proof.
  induction fuel as [|fuel IH]; intro cs; cbn [chunk_loop]; [reflexivity|].
  rewrite looping_step. apply IH.
Qed.

(** C3.  With [chunk_size = 20] and [chunk_overlap = 5], a configuration
    that the constructor accepts, [chunk_markdown] does not return on a
    document made of a heading line and one line of 35 characters: after the
    first round the loop of [_chunk_section] is at [start = 3], and every
    later round cuts at the line break after the heading again, appends the
    chunk "otes" and goes back to [start = 3]. *)
Theorem chunk_markdown_stalls :
  new 20 5 = Ok looping_chunker /\
  (forall n,
      chunk_iter (S n) looping_chunker looping_input initial_state
      = Continue {| start := 3;
                    chunks := plain_chunk (py "# Notes")
                              :: repeat (plain_chunk (py "otes")) n |}) /\
  (forall fuel, chunk_markdown fuel looping_chunker looping_input = None).
Proof.
  split; [reflexivity|]. split.
  - intro n.
    change (chunk_iter (S n) looping_chunker looping_input initial_state)
      with (chunk_iter n looping_chunker looping_input
              {| start := 3; chunks := [plain_chunk (py "# Notes")] |}).
    now rewrite looping_iter.
  - intros [|fuel]; [reflexivity|].
    change (chunk_markdown (S fuel) looping_chunker looping_input)
      with (match chunk_loop fuel looping_chunker looping_input
                    {| start := 3; chunks := [plain_chunk (py "# Notes")] |}
            with
            | None => None
            | Some cs => extend_loop (S fuel) looping_chunker [] ([] ++ cs)
            end).
    now rewrite looping_loop.
Qed.

(** *** Every chunk fits in [chunk_size] *)

Lemma rfind_from_range c l : forall base,
  0 <= base ->
  rfind_from c base l = -1 \/
  base <= rfind_from c base l < base + Z.of_nat (length l).
Proof.
  induction l as [|d r IH]; intros base Hb; [now left|].
  cbn [rfind_from length].
  destruct (IH (base + 1) ltac:(lia)) as [H|H].
  - rewrite H. simpl. destruct (char_eqb d c); [right; lia | now left].
  - destruct (0 <=? rfind_from c (base + 1) r) eqn:E.
    + right. lia.
    + apply Z.leb_gt in E. lia.
Qed.

Lemma rfind_lt s c a b :
  0 <= a -> 0 <= b -> rfind s c a b < Z.max (a + 1) b.
Proof.
  intros Ha Hb. unfold rfind, slice_bound, len.
  destruct (a <? 0) eqn:Ea; [apply Z.ltb_lt in Ea; lia|].
  destruct (b <? 0) eqn:Eb; [apply Z.ltb_lt in Eb; lia|].
  set (n := Z.of_nat (length s)).
  set (l := firstn _ _).
  assert (Hl : Z.of_nat (length l) <= Z.max 0 (Z.min b n - Z.min a n)).
  { subst l. rewrite length_firstn. lia. }
  destruct (rfind_from_range c l (Z.min a n) ltac:(lia)) as [H|H]; lia.
Qed.

Lemma slice_length s a b :
  0 <= a -> 0 <= b -> len (slice s a b) <= Z.max 0 (b - a).
Proof.
  intros Ha Hb. unfold slice, slice_bound, len.
  destruct (a <? 0) eqn:Ea; [apply Z.ltb_lt in Ea; lia|].
  destruct (b <? 0) eqn:Eb; [apply Z.ltb_lt in Eb; lia|].
  rewrite length_firstn, length_skipn. lia.
Qed.

Lemma chunk_step_invariant self section st :
  0 < chunk_size self -> 0 <= chunk_overlap self ->
  loop_invariant self st ->
  match chunk_step self section st with
  | Continue st' => loop_invariant self st'
  | Exit cs => Forall (fits self) cs
  end.
Proof.
  intros Hcs Hov [Hstart Hfits]. unfold chunk_step.
  destruct (start st <? len section) eqn:Hlt; [|exact Hfits].
  set (end0 := start st + chunk_size self).
  set (end1 := if end0 <? len section then _ else end0).
  assert (Hend : start st < end1 <= end0).
  { subst end1. destruct (end0 <? len section); [|lia].
    set (lb := Z.max _ _).
    destruct (start st <? lb) eqn:E; [|lia].
    apply Z.ltb_lt in E. split; [lia|].
    assert (lb < end0); [|lia].
    subst lb.
    pose proof (rfind_lt section c_dot (start st) end0 Hstart ltac:(lia)).
    pose proof (rfind_lt section c_nl (start st) end0 Hstart ltac:(lia)).
    lia. }
  clearbody end1.
  set (chunk_text := strip (slice section (start st) end1)).
  assert (Hct : len chunk_text <= chunk_size self).
  { subst chunk_text.
    pose proof (strip_length (slice section (start st) end1)).
    pose proof (slice_length section (start st) end1 Hstart ltac:(lia)).
    lia. }
  set (chunks1 := if truthy chunk_text then _ else chunks st).
  assert (Hc1 : Forall (fits self) chunks1).
  { subst chunks1. destruct (truthy chunk_text); [|exact Hfits].
    apply Forall_app. split; [exact Hfits|].
    constructor; [exact Hct | constructor]. }
  clearbody chunks1.
  set (start1 := if _ <? 0 then end1 else _).
  assert (Hs1 : 0 <= start1).
  { subst start1. destruct (end1 - chunk_overlap self <? 0) eqn:E; [lia|].
    apply Z.ltb_ge in E. exact E. }
  clearbody start1.
  destruct (len section <=? start1); [exact Hc1|].
  split; assumption.
Qed.

Lemma chunk_iter_invariant self section n : forall st,
  0 < chunk_size self -> 0 <= chunk_overlap self ->
  loop_invariant self st ->
  match chunk_iter n self section st with
  | Continue st' => loop_invariant self st'
  | Exit cs => Forall (fits self) cs
  end.
Proof.
  induction n as [|n IH]; intros st Hcs Hov Hinv; simpl; [exact Hinv|].
  pose proof (chunk_step_invariant self section st Hcs Hov Hinv) as Hstep.
  destruct (chunk_step self section st) as [st'|cs]; [|exact Hstep].
  now apply IH.
Qed.

Lemma chunk_loop_fits self section fuel : forall st cs,
  0 < chunk_size self -> 0 <= chunk_overlap self ->
  loop_invariant self st ->
  chunk_loop fuel self section st = Some cs -> Forall (fits self) cs.
Proof.
  induction fuel as [|fuel IH]; intros st cs Hcs Hov Hinv; simpl;
    [discriminate|].
  pose proof (chunk_step_invariant self section st Hcs Hov Hinv) as Hstep.
  destruct (chunk_step self section st) as [st'|cs'].
  - now apply IH.
  - intro H. inversion H; subst. exact Hstep.
Qed.

Lemma initial_invariant self : loop_invariant self initial_state.
Proof. split; [simpl; lia | constructor]. Qed.

Lemma chunk_section_fits self section fuel cs :
  0 < chunk_size self -> 0 <= chunk_overlap self ->
  _chunk_section fuel self section = Some cs -> Forall (fits self) cs.
Proof.
  intros Hcs Hov. unfold _chunk_section.
  destruct (len section <=? chunk_size self) eqn:E.
  - intro H. inversion H; subst. constructor; [|constructor].
    unfold fits. simpl. apply Z.leb_le in E.
    pose proof (strip_length section). lia.
  - apply chunk_loop_fits; auto using initial_invariant.
Qed.

Lemma extend_loop_fits self fuel sections : forall acc cs,
  0 < chunk_size self -> 0 <= chunk_overlap self ->
  Forall (fits self) acc ->
  extend_loop fuel self sections acc = Some cs -> Forall (fits self) cs.
Proof.
  induction sections as [|s r IH]; intros acc cs Hcs Hov Hacc; simpl.
  - intro H. now inversion H; subst.
  - destruct (_chunk_section fuel self s) as [sc|] eqn:E; [|discriminate].
    apply IH; auto. apply Forall_app. split; [exact Hacc|].
    eapply chunk_section_fits; eauto.
Qed.

(** C4.  For a chunker that the constructor accepts and any document, every
    chunk has at most [chunk_size] characters: the chunks of the returned
    list, and also the chunks that the loop of [_chunk_section] has appended
    after any number of rounds on any section.  A section of at most
    [chunk_size] characters gives exactly one chunk, the trimmed section. *)
Theorem chunk_bound cs ov self markdown_content :
  new cs ov = Ok self ->
  (forall fuel result0,
      chunk_markdown fuel self markdown_content = Some result0 ->
      Forall (fun c => len (text c) <= chunk_size self) result0) /\
  (forall section n,
      Forall (fun c => len (text c) <= chunk_size self)
             (emitted n self section)) /\
  (forall section fuel,
      len section <= chunk_size self ->
      _chunk_section fuel self section = Some [plain_chunk (strip section)]).
Proof.
  intro Hnew. apply new_ok in Hnew.
  destruct Hnew as (Hcs & Hov & Ecs & Eov).
  assert (H1 : 0 < chunk_size self) by lia.
  assert (H2 : 0 <= chunk_overlap self) by lia.
  split; [|split].
  - intros fuel result0. unfold chunk_markdown.
    destruct (_ || _).
    + intro H. inversion H. constructor.
    + apply (extend_loop_fits self fuel _ [] result0 H1 H2). constructor.
  - intros section n. unfold emitted.
    pose proof (chunk_iter_invariant self section n initial_state H1 H2
                  (initial_invariant self)) as H.
    destruct (chunk_iter n self section initial_state) as [st|cs'];
      [apply H | exact H].
  - intros section fuel Hlen. unfold _chunk_section.
    apply Z.leb_le in Hlen. now rewrite Hlen.
Qed.

Lemma chunk_bound_witness :
  chunk_markdown 10 {| chunk_size := 12; chunk_overlap := 3 |}
    (py "alpha beta gamma delta epsilon
---
end")
  = Some [plain_chunk (py "alpha beta g"); plain_chunk (py "a gamma delt");
          plain_chunk (py "elta epsilon"); plain_chunk (py "lon");
          plain_chunk (py "---
end")] /\
  Forall (fun c => len (text c) <= 12)
    [plain_chunk (py "alpha beta g"); plain_chunk (py "a gamma delt");
     plain_chunk (py "elta epsilon"); plain_chunk (py "lon");
     plain_chunk (py "---
end")].
Proof.
  split; [vm_compute; reflexivity|].
  apply (proj1 (chunk_bound 12 3 {| chunk_size := 12; chunk_overlap := 3 |}
                  (py "alpha beta gamma delta epsilon
---
end") eq_refl) 10%nat).
  vm_compute. reflexivity.
Defined.

End ChunkerFacts.

(** ** detect_repetition *)

Lemma Qltb_frac_l a b (c : Z) (p : positive) :
  Qltb (a # b) (c # p) = true <-> a * Zpos p < c * Zpos b.
Proof.
  unfold Qltb, Qle_bool. simpl. rewrite negb_true_iff, Z.leb_gt. reflexivity.
Qed.

Lemma inter_nil_l b : PySet.inter [] b = [].
Proof. reflexivity. Qed.

Lemma similar_to_next_spec s t :
  exists b, similar_to_next s t = Ok b /\ (b = true <-> similar_pair s t).
Proof.
  unfold similar_to_next, similar_pair, common_words, word_count.
  set (cur := strip s). set (nxt := strip t).
  destruct (str_eqb cur nxt) eqn:Eeq.
  { exists true. split; [reflexivity|]. apply str_eqb_eq in Eeq. tauto. }
  assert (Hne : cur <> nxt).
  { intro H. apply str_eqb_eq in H. congruence. }
  destruct ((0 <? len cur) && (0 <? len nxt)) eqn:Elen.
  - apply andb_true_iff in Elen. destruct Elen as [E1 E2].
    apply Z.ltb_lt in E1, E2.
    assert (Hc : cur <> []) by (intro H; rewrite H in E1; discriminate).
    assert (Hn : nxt <> []) by (intro H; rewrite H in E2; discriminate).
    set (total := Z.max _ _).
    destruct (0 <? total) eqn:Et.
    + apply Z.ltb_lt in Et. rewrite py_truediv_pos by exact Et.
      cbn [rbind Ok]. eexists. split; [reflexivity|].
      rewrite Qltb_frac_l. rewrite Z2Pos.id by exact Et.
      fold total. split.
      * intro H. right. repeat split; auto. lia.
      * intros [H|(_ & _ & H)]; [contradiction | lia].
    + exists false. split; [reflexivity|]. apply Z.ltb_ge in Et.
      split; [discriminate|].
      intros [H|(_ & _ & H)]; [contradiction|].
      assert (Hw : words cur = []).
      { destruct (words cur); [reflexivity|]. subst total.
        simpl length in Et. lia. }
      rewrite Hw in H.
      change (PySet.card (PySet.inter (PySet.set_of []) ?x)) with 0 in H.
      subst total. lia.
  - exists false. split; [reflexivity|]. split; [discriminate|].
    intros [H|(Hc & Hn & _)]; [contradiction|].
    apply andb_false_iff in Elen. destruct Elen as [E|E];
      apply Z.ltb_ge in E.
    + destruct cur; [congruence|]. unfold len in E. simpl in E. lia.
    + destruct nxt; [congruence|]. unfold len in E. simpl in E. lia.
Qed.

Lemma adjacent_repetition_cons m s t rest :
  adjacent_repetition m (s :: t :: rest) <->
  (m <= len s /\ similar_pair s t) \/ adjacent_repetition m (t :: rest).
Proof.
  unfold adjacent_repetition. split.
  - intros (i & a & b & Ha & Hb & Hlen & Hsim).
    destruct i as [|i].
    + simpl in Ha, Hb. inversion Ha; inversion Hb; subst. now left.
    + right. exists i, a, b. simpl in Ha, Hb. auto.
  - intros [[Hlen Hsim]|(i & a & b & Ha & Hb & Hlen & Hsim)].
    + exists O, s, t. simpl. auto.
    + exists (S i), a, b. simpl. auto.
Qed.

Lemma adjacent_repetition_short m l :
  (length l <= 1)%nat -> ~ adjacent_repetition m l.
Proof.
  intros Hl (i & a & b & Ha & Hb & _).
  destruct l as [|x [|y r]]; simpl in Hl; try lia.
  - destruct i; discriminate.
  - destruct i as [|i]; simpl in Hb; [discriminate|]. destruct i; discriminate.
Qed.

Lemma adjacent_loop_spec m sentences :
  exists b, adjacent_loop m sentences = Ok b /\
            (b = true <-> adjacent_repetition m sentences).
Proof.
  induction sentences as [|s rest IH].
  - exists false. split; [reflexivity|]. split; [discriminate|].
    intro H. exfalso. revert H. apply adjacent_repetition_short. simpl; lia.
  - destruct rest as [|t rest'].
    + exists false. split; [reflexivity|]. split; [discriminate|].
      intro H. exfalso. revert H. apply adjacent_repetition_short. simpl; lia.
    + cbn [adjacent_loop]. destruct IH as (b & Hb & Hspec).
      destruct (len s <? m) eqn:Elen.
      * exists b. split; [exact Hb|]. rewrite adjacent_repetition_cons.
        apply Z.ltb_lt in Elen. rewrite Hspec. split; [tauto|].
        intros [[H _]|H]; [lia | exact H].
      * apply Z.ltb_ge in Elen.
        destruct (similar_to_next_spec s t) as (h & Hh & Hhs).
        rewrite Hh. cbn [rbind Ok]. destruct h.
        -- exists true. split; [reflexivity|].
           rewrite adjacent_repetition_cons. split; [|reflexivity].
           intros _. left. split; [exact Elen | now apply Hhs].
        -- exists b. split; [exact Hb|]. rewrite adjacent_repetition_cons.
           rewrite Hspec. split; [tauto|].
           intros [[_ H]|H]; [|exact H]. apply Hhs in H. discriminate.
Qed.

(** *** The word-count dictionary *)

Lemma str_eqb_neq a b : str_eqb a b = false <-> a <> b.
Proof.
  unfold str_eqb. destruct (str_eq_dec a b); split; congruence.
Qed.

Lemma dict_get_set d k v k' default :
  PyDict.get (PyDict.set d k v) k' default
  = if str_eqb k' k then v else PyDict.get d k' default.
Proof.
  induction d as [|[k0 v0] r IH]; simpl.
  - reflexivity.
  - destruct (str_eqb k k0) eqn:E; simpl.
    + apply str_eqb_eq in E. subst k0.
      destruct (str_eqb k' k); reflexivity.
    + destruct (str_eqb k' k0) eqn:E0.
      * apply str_eqb_eq in E0. subst k0.
        destruct (str_eqb k' k) eqn:E1; [|reflexivity].
        apply str_eqb_eq in E1. subst k'. rewrite str_eqb_refl in E.
        discriminate.
      * exact IH.
Qed.

Lemma dict_set_keys d k v :
  map fst (PyDict.set d k v)
  = if PySet.mem k (map fst d) then map fst d else map fst d ++ [k].
Proof.
  induction d as [|[k0 v0] r IH]; simpl; [reflexivity|].
  destruct (str_eqb k k0) eqn:E; simpl; [reflexivity|].
  rewrite IH. unfold PySet.mem. destruct (existsb _ _); reflexivity.
Qed.

Lemma mem_In x l : PySet.mem x l = true <-> In x l.
Proof.
  unfold PySet.mem. rewrite existsb_exists. split.
  - intros (y & Hy & E). apply str_eqb_eq in E. now subst.
  - intro H. exists x. split; [exact H | apply str_eqb_refl].
Qed.

Lemma dict_set_nodup d k v :
  NoDup (map fst d) -> NoDup (map fst (PyDict.set d k v)).
Proof.
  intro H. rewrite dict_set_keys.
  destruct (PySet.mem k (map fst d)) eqn:E; [exact H|].
  apply NoDup_app; [exact H | repeat constructor; simpl; tauto |].
  intros x Hx [Hk|[]]. subst x.
  apply mem_In in Hx. congruence.
Qed.

Lemma dict_set_In d k v k' v' :
  NoDup (map fst d) ->
  In (k', v') (PyDict.set d k v) ->
  (k' = k /\ v' = v) \/ (k' <> k /\ In (k', v') d).
Proof.
  induction d as [|[k0 v0] r IH]; simpl; intros Hnd Hin.
  - destruct Hin as [Hin|[]]. inversion Hin. now left.
  - inversion Hnd as [|? ? Hnotin Hnd']; subst.
    destruct (str_eqb k k0) eqn:E.
    + apply str_eqb_eq in E. subst k0.
      destruct Hin as [Hin|Hin].
      * inversion Hin. now left.
      * right. split; [|now right].
        intro Heq. subst k'. apply Hnotin.
        change k with (fst (k, v')). now apply in_map.
    + apply str_eqb_neq in E. destruct Hin as [Hin|Hin].
      * inversion Hin; subst. right. split; [congruence | now left].
      * destruct (IH Hnd' Hin) as [H|[H1 H2]]; [now left|].
        right. split; [exact H1 | now right].
Qed.

Lemma count_occ_snoc (ws : list str) w k :
  count_occ str_eq_dec (ws ++ [w]) k
  = (count_occ str_eq_dec ws k + if str_eqb k w then 1 else 0)%nat.
Proof.
  rewrite count_occ_app. simpl. unfold str_eqb.
  destruct (str_eq_dec w k), (str_eq_dec k w); congruence.
Qed.

Lemma counts_ok_step d ws w :
  counts_ok d ws ->
  counts_ok (PyDict.set d w (PyDict.get d w 0 + 1)) (ws ++ [w]).
Proof.
  intros (Hnd & Hin & Hget). split; [|split].
  - now apply dict_set_nodup.
  - intros k v H. rewrite count_occ_snoc.
    apply dict_set_In in H; [|exact Hnd].
    destruct H as [[-> ->]|[Hne H]].
    + rewrite str_eqb_refl, Hget. lia.
    + apply str_eqb_neq in Hne. rewrite Hne, (Hin _ _ H). lia.
  - intro k. rewrite dict_get_set, count_occ_snoc.
    destruct (str_eqb k w) eqn:E.
    + apply str_eqb_eq in E. subst k. rewrite Hget. lia.
    + rewrite Hget. lia.
Qed.

Lemma count_words_ok ws : counts_ok (count_words ws) ws.
Proof.
  unfold count_words.
  assert (H : forall d pre, counts_ok d pre ->
            counts_ok (fold_left (fun d w => PyDict.set d w (PyDict.get d w 0 + 1))
                                 ws d) (pre ++ ws)).
  { induction ws as [|w r IH]; intros d pre Hd; simpl.
    - now rewrite app_nil_r.
    - replace (pre ++ w :: r) with ((pre ++ [w]) ++ r)
        by (now rewrite <- app_assoc).
      apply IH. now apply counts_ok_step. }
  apply (H [] []). split; [constructor|]. split; [intros ? ? []|reflexivity].
Qed.

Lemma dict_get_In d k default :
  PyDict.get d k default = default \/ In (PyDict.get d k default) (PyDict.values d).
Proof.
  induction d as [|[k0 v0] r IH]; simpl; [now left|].
  destruct (str_eqb k k0); [right; now left|].
  destruct IH as [H|H]; [now left | right; now right].
Qed.

Lemma fold_max_spec r : forall x,
  In (fold_left Z.max r x) (x :: r) /\
  forall y, In y (x :: r) -> y <= fold_left Z.max r x.
Proof.
  induction r as [|z r IH]; intro x; simpl.
  - split; [now left|]. intros y [->|[]]. lia.
  - destruct (IH (Z.max x z)) as [Hin Hmax]. split.
    + destruct Hin as [H|H]; [|right; now right].
      rewrite <- H. destruct (Z.max_spec x z) as [[_ ->]|[_ ->]]; auto.
    + intros y [->|[->|Hy]].
      * pose proof (Hmax (Z.max y z) (or_introl eq_refl)). lia.
      * pose proof (Hmax (Z.max x y) (or_introl eq_refl)). lia.
      * apply Hmax. now right.
Qed.

Lemma Qltb_scaled n m :
  Qltb (inject_Z n * (3 # 10)) (inject_Z m) = true <-> 3 * n < 10 * m.
Proof.
  unfold Qltb, Qle_bool, inject_Z, Qmult. simpl Qnum. simpl Qden.
  rewrite negb_true_iff, Z.leb_gt. lia.
Qed.

Lemma word_level_repetition_spec text :
  exists b, word_level_repetition text = Ok b /\
            (b = true <-> dominant_word text).
Proof.
  unfold word_level_repetition, dominant_word, word_count.
  set (ws := words text). set (n := Z.of_nat (length ws)).
  destruct (10 <? n) eqn:En.
  2:{ exists false. split; [reflexivity|]. apply Z.ltb_ge in En.
      split; [discriminate | intros [H _]; lia]. }
  apply Z.ltb_lt in En.
  destruct (count_words_ok ws) as (Hnd & Hin & Hget).
  destruct (count_words ws) as [|[k0 v0] d] eqn:Ed.
  - (* an empty dictionary means no word at all *)
    exfalso. destruct ws as [|w r]; [subst n; simpl in En; lia|].
    specialize (Hget w). simpl in Hget.
    destruct (str_eq_dec w w); [lia | congruence].
  - cbn [PyDict.values map snd py_max rbind Ok].
    set (mx := fold_left Z.max (map snd d) v0).
    exists (Qltb (inject_Z n * (3 # 10)) (inject_Z mx)).
    split; [reflexivity|]. rewrite Qltb_scaled.
    destruct (fold_max_spec (map snd d) v0) as [Hmem Hmax]. fold mx in Hmem, Hmax.
    split.
    + intro H. split; [exact En|].
      change (v0 :: map snd d) with (map snd ((k0, v0) :: d)) in Hmem.
      apply in_map_iff in Hmem. destruct Hmem as ([k v] & Hv & Hkv).
      simpl in Hv. subst v. exists k. rewrite <- (Hin _ _ Hkv). exact H.
    + intros [_ [w Hw]].
      destruct (dict_get_In ((k0, v0) :: d) w 0) as [H0|H0].
      * rewrite Hget in H0. lia.
      * rewrite Hget in H0. apply Hmax in H0. lia.
Qed.

Lemma detect_repetition_spec text :
  exists b, detect_repetition text = Ok b /\
    (b = true <->
     40 <= len text /\
     (adjacent_repetition 20 (re_split false text) \/ dominant_word text)).
Proof.
  unfold detect_repetition, detect_repetition_with.
  destruct (negb (truthy text) || (len text <? 20 * 2)) eqn:E.
  - exists false. split; [reflexivity|]. split; [discriminate|].
    intros [Hlen _]. apply orb_true_iff in E. destruct E as [E|E].
    + apply negb_true_iff, truthy_false_iff in E. subst.
      unfold len in Hlen. simpl in Hlen. lia.
    + apply Z.ltb_lt in E. lia.
  - apply orb_false_iff in E. destruct E as [_ E]. apply Z.ltb_ge in E.
    destruct (adjacent_loop_spec 20 (re_split false text)) as (a & Ha & Has).
    rewrite Ha. cbn [rbind Ok]. destruct a.
    + exists true. split; [reflexivity|]. split; [|reflexivity].
      intros _. split; [lia|]. left. now apply Has.
    + destruct (word_level_repetition_spec text) as (w & Hw & Hws).
      exists w. split; [exact Hw|]. rewrite Hws. split.
      * intro H. split; [lia | now right].
      * intros [_ [H|H]]; [|exact H]. apply Has in H. discriminate.
Qed.

(** *** Splitting a text that starts with a sentence and a full stop *)

Lemma no_terminator_app a b :
  no_terminator (a ++ b) = no_terminator a && no_terminator b.
Proof. apply forallb_app. Qed.

Lemma re_split_go_sentence capture s : forall cur rest,
  no_terminator s = true ->
  re_split_go capture None cur (s ++ c_dot :: c_space :: rest)
  = (rev cur ++ s)
      :: re_split_go capture (Some [c_dot]) [] (c_space :: rest).
Proof.
  induction s as [|c r IH]; intros cur rest H.
  - simpl. now rewrite app_nil_r.
  - simpl in H. apply andb_true_iff in H. destruct H as [Hc Hr].
    apply negb_true_iff in Hc.
    cbn [app re_split_go]. rewrite Hc. cbn [andb].
    rewrite (IH _ _ Hr). simpl. now rewrite <- app_assoc.
Qed.

Lemma re_split_go_skip_space sp x :
  re_split_go false (Some sp) [] x
  = re_split_go false None [] (dropwhile isspace x).
Proof.
  revert sp. induction x as [|c r IH]; intro sp; [reflexivity|].
  cbn [re_split_go dropwhile].
  destruct (isspace c); [apply IH|]. reflexivity.
Qed.

Lemma dot_not_space : isspace c_dot = false.
Proof. reflexivity. Qed.

Lemma repeated_S s n : repeated s (S n) = s ++ c_dot :: c_space :: repeated s n.
Proof. unfold repeated. simpl. now rewrite <- app_assoc. Qed.

Lemma len_repeated s n : len (repeated s n) = Z.of_nat n * (len s + 2).
Proof.
  induction n as [|n IH]; [reflexivity|].
  rewrite repeated_S. unfold len in *. rewrite length_app. simpl length.
  lia.
Qed.

Lemma no_terminator_dropwhile p s :
  no_terminator s = true -> no_terminator (dropwhile p s) = true.
Proof.
  induction s as [|c r IH]; simpl; [reflexivity|].
  intro H. destruct (p c); [|exact H].
  apply andb_true_iff in H. now apply IH.
Qed.

Lemma re_split_repeated_twice s n :
  no_terminator s = true ->
  exists rest,
    re_split false (repeated s (S (S n))) = s :: lstrip s :: rest.
Proof.
  intro H. unfold re_split. rewrite repeated_S.
  rewrite re_split_go_sentence by exact H.
  rewrite re_split_go_skip_space. cbn [dropwhile].
  change (isspace c_space) with true. cbn iota.
  rewrite repeated_S, dropwhile_app_stop by exact dot_not_space.
  rewrite re_split_go_sentence by (now apply no_terminator_dropwhile).
  eexists. reflexivity.
Qed.

Lemma detect_repetition_repeated s n :
  no_terminator s = true -> 20 <= len s -> (2 <= n)%nat ->
  detect_repetition (repeated s n) = Ok true.
Proof.
  intros Hs Hlen Hn.
  destruct n as [|[|n]]; try lia.
  unfold detect_repetition, detect_repetition_with.
  destruct (re_split_repeated_twice s n Hs) as [rest Hsplit].
  assert (Hlong : 40 <= len (repeated s (S (S n)))).
  { rewrite len_repeated. nia. }
  assert (Hguard : negb (truthy (repeated s (S (S n))))
                   || (len (repeated s (S (S n))) <? 20 * 2) = false).
  { apply orb_false_iff. split.
    - apply negb_false_iff, truthy_true_iff. intro H0. rewrite H0 in Hlong.
      unfold len in Hlong. simpl in Hlong. lia.
    - apply Z.ltb_ge. lia. }
  rewrite Hguard, Hsplit. cbn [adjacent_loop].
  assert (Hl : (len s <? 20) = false) by (apply Z.ltb_ge; lia).
  rewrite Hl. unfold similar_to_next.
  rewrite strip_lstrip, str_eqb_refl. reflexivity.
Qed.

(** C5, the claim as it is stated fails: five copies of the sentence "Hi. "
    make a text of 20 characters, which is never flagged; and two
    neighbouring sentences that share exactly 70% of their words are not
    flagged either. *)
Lemma detect_repetition_misses_short_repeats :
  detect_repetition (concat (repeat (py "Hi. ") 5)) = Ok false /\
  re_split false (concat (repeat (py "Hi. ") 5))
    = [py "Hi"; py "Hi"; py "Hi"; py "Hi"; py "Hi"; []] /\
  detect_repetition seventy_percent_text = Ok false /\
  re_split false seventy_percent_text
    = [py "a1 a2 a3 a4 a5 a6 a7 b1 b2 b3"; py "a1 a2 a3 a4 a5 a6 a7 c1 c2 c3."] /\
  common_words (py "a1 a2 a3 a4 a5 a6 a7 b1 b2 b3")
               (py "a1 a2 a3 a4 a5 a6 a7 c1 c2 c3.") = 7 /\
  word_count (py "a1 a2 a3 a4 a5 a6 a7 b1 b2 b3") = 10 /\
  word_count (py "a1 a2 a3 a4 a5 a6 a7 c1 c2 c3.") = 10.
Proof. vm_compute. repeat split; reflexivity. Qed.

(** C5, amended.  [detect_repetition] returns [True] exactly when the text
    has at least 40 characters and either (a) some sentence of at least 20
    characters is, after trimming, equal to the next sentence, or both are
    non-blank and their common distinct words are more than 70% of the larger
    of their word counts, or (b) the text has more than 10 words and one word
    makes up more than 30% of them.  In particular a sentence of at least 20
    characters without [. ! ?], repeated two or more times with a full stop
    and a space after each copy, is flagged, and the five distinct sentences
    of [five_distinct_sentences] are not. *)
Theorem detect_repetition_characterised :
  (forall text,
      exists b, detect_repetition text = Ok b /\
        (b = true <->
         40 <= len text /\
         (adjacent_repetition 20 (re_split false text)
          \/ dominant_word text))) /\
  (forall sentence n,
      no_terminator sentence = true -> 20 <= len sentence -> (2 <= n)%nat ->
      detect_repetition (repeated sentence n) = Ok true) /\
  detect_repetition five_distinct_sentences = Ok false.
Proof.
  split; [exact detect_repetition_spec|].
  split; [exact detect_repetition_repeated|].
  vm_compute. reflexivity.
Qed.

Lemma detect_repetition_characterised_witness :
  detect_repetition (repeated (py "The cat sat on the mat today") 5) = Ok true.
Proof.
  apply (proj1 (proj2 detect_repetition_characterised)
           (py "The cat sat on the mat today") 5%nat).
  - reflexivity.
  - vm_compute. discriminate.
  - lia.
Defined.

(** ** clean_repetitive_text *)

(** C6, the claim as it is stated fails: cleaning "a.. a. " gives "a.. a.",
    and cleaning that gives "a..".  In the second pass the last sentence is
    "a." instead of "a", which makes it a duplicate of the first one. *)
Lemma clean_repetitive_text_not_idempotent :
  clean_repetitive_text (py "a.. a. ") = Ok (py "a.. a.") /\
  clean_repetitive_text (py "a.. a.") = Ok (py "a..") /\
  py "a.." <> py "a.. a.".
Proof. repeat split; try reflexivity. discriminate. Qed.

Lemma takewhile_blank p s : forallb p (takewhile p s) = true.
Proof.
  induction s as [|c r IH]; simpl; [reflexivity|].
  destruct (p c) eqn:E; simpl; [now rewrite E|reflexivity].
Qed.

Lemma re_split_go_sep_sentence s : forall sp rest,
  no_terminator s = true ->
  re_split_go true (Some sp) [] (s ++ c_dot :: c_space :: rest)
  = (rev sp ++ takewhile isspace s)
      :: dropwhile isspace s
      :: re_split_go true (Some [c_dot]) [] (c_space :: rest).
Proof.
  induction s as [|c r IH]; intros sp rest H.
  - simpl. now rewrite app_nil_r.
  - pose proof H as H'. simpl in H'. apply andb_true_iff in H'.
    destruct H' as [Hc Hr]. apply negb_true_iff in Hc.
    cbn [app re_split_go takewhile dropwhile].
    destruct (isspace c) eqn:Esp.
    + rewrite (IH _ _ Hr). simpl. now rewrite <- app_assoc.
    + rewrite Hc. cbn [andb app].
      rewrite (re_split_go_sentence true r [c] rest Hr).
      simpl. now rewrite app_nil_r.
Qed.

Lemma re_split_go_last_sentence capture s : forall cur,
  no_terminator s = true ->
  re_split_go capture None cur (s ++ [c_dot]) = [rev cur ++ s ++ [c_dot]].
Proof.
  induction s as [|c r IH]; intros cur H.
  - reflexivity.
  - simpl in H. apply andb_true_iff in H. destruct H as [Hc Hr].
    apply negb_true_iff in Hc.
    cbn [app re_split_go]. rewrite Hc. cbn [andb].
    rewrite (IH _ Hr). simpl. now rewrite <- app_assoc.
Qed.

(** The pieces of [n] further copies, met inside a delimiter. *)
Lemma re_split_go_copies_0 s sp :
  re_split_go true (Some sp) [] (repeated s 0) = [rev sp; []].
Proof. reflexivity. Qed.

Lemma re_split_go_copies_S s n sp :
  no_terminator s = true ->
  re_split_go true (Some sp) [] (repeated s (S n))
  = (rev sp ++ takewhile isspace s)
      :: lstrip s
      :: re_split_go true (Some [c_space; c_dot]) [] (repeated s n).
Proof.
  intro H. rewrite repeated_S, re_split_go_sep_sentence by exact H.
  reflexivity.
Qed.

Lemma re_split_repeated s n :
  no_terminator s = true ->
  re_split true (repeated s (S n))
  = s :: re_split_go true (Some [c_space; c_dot]) [] (repeated s n).
Proof.
  intro H. unfold re_split.
  rewrite repeated_S, re_split_go_sentence by exact H. reflexivity.
Qed.

(** *** A sentence is a duplicate of itself *)

Lemma runs_go_nonempty p s : forall cur,
  cur <> [] \/ existsb p s = true -> runs_go p cur s <> [].
Proof.
  induction s as [|c r IH]; intros cur H; simpl.
  - destruct H as [H|H]; [|discriminate]. destruct cur; congruence.
  - destruct (p c) eqn:E.
    + apply IH. left. discriminate.
    + destruct cur; [|discriminate].
      apply IH. destruct H as [H|H]; [congruence|]. simpl in H.
      rewrite E in H. now right.
Qed.

Lemma strip_nonblank s :
  strip s <> [] -> existsb (fun c => negb (isspace c)) (strip s) = true.
Proof.
  unfold strip, rstrip, rstrip_by. intro H.
  destruct (dropwhile isspace (rev (lstrip s))) as [|c r] eqn:E;
    [simpl in H; congruence|].
  apply dropwhile_head in E. simpl. rewrite existsb_app. simpl.
  rewrite E. simpl. apply orb_true_r.
Qed.

Lemma words_strip_nonempty s : strip s <> [] -> words (strip s) <> [].
Proof.
  intro H. apply runs_go_nonempty. right. now apply strip_nonblank.
Qed.

Lemma set_of_nonempty l : l <> [] -> PySet.set_of l <> [].
Proof.
  intros H E. destruct l as [|x r]; [congruence|].
  assert (Hin : In x (PySet.set_of (x :: r))).
  { apply nodup_In. now left. }
  rewrite E in Hin. destruct Hin.
Qed.

Lemma inter_self a : PySet.inter a a = a.
Proof.
  unfold PySet.inter. apply forallb_filter_id.
  apply forallb_forall. intros x Hx. now apply mem_In.
Qed.

Lemma union_self a : PySet.union a a = a.
Proof.
  unfold PySet.union.
  assert (H : filter (fun x => negb (PySet.mem x a)) a = []).
  { assert (G : forall l, (forall x, In x l -> In x a) ->
                 filter (fun x => negb (PySet.mem x a)) l = []).
    { induction l as [|y r IH]; intro Hl; simpl; [reflexivity|].
      assert (Hy : PySet.mem y a = true)
        by (apply mem_In, Hl; now left).
      rewrite Hy. simpl. apply IH. intros x Hx. apply Hl. now right. }
    apply G. auto. }
  rewrite H. apply app_nil_r.
Qed.

Lemma too_similar_self x : words x <> [] -> too_similar x x = Ok true.
Proof.
  intro Hw. unfold too_similar.
  set (a := PySet.set_of (words x)).
  assert (Ha : 0 < PySet.card a).
  { pose proof (set_of_nonempty _ Hw) as H. fold a in H.
    unfold PySet.card. destruct a; [congruence | simpl; lia]. }
  assert (E : (0 <? PySet.card a) = true) by now apply Z.ltb_lt.
  rewrite E, inter_self, union_self. cbn [andb].
  rewrite py_truediv_pos by exact Ha. cbn [rbind Ok].
  f_equal. apply Qltb_frac_l. rewrite Z2Pos.id by exact Ha. lia.
Qed.

Lemma clean_loop_pair a b rest st :
  clean_loop (a :: b :: rest) st
  = rbind (clean_step a (Some b) st) (fun st' => clean_loop rest st').
Proof. reflexivity. Qed.

Section RepeatedSentence.

Variable s : str.
Hypothesis s_plain : no_terminator s = true.
Hypothesis s_nonblank : strip s <> [].

Lemma clean_step_duplicate t sep st :
  strip t = strip s -> seen st = [strip s] -> clean_step t sep st = Ok st.
Proof.
  intros Ht Hseen. unfold clean_step. rewrite Ht.
  assert (Hn : negb (truthy (strip s)) = false).
  { apply negb_false_iff. now apply truthy_true_iff. }
  rewrite Hn, Hseen. cbn [is_duplicate].
  rewrite too_similar_self by (now apply words_strip_nonempty).
  reflexivity.
Qed.

Lemma clean_step_blank sep st : clean_step [] sep st = Ok st.
Proof. reflexivity. Qed.

Lemma clean_loop_copies n : forall sp st,
  seen st = [strip s] ->
  clean_loop (lstrip s :: re_split_go true (Some sp) [] (repeated s n)) st
  = Ok st.
Proof.
  induction n as [|n IH]; intros sp st Hseen.
  - rewrite re_split_go_copies_0. cbn [clean_loop].
    rewrite clean_step_duplicate by (auto using strip_lstrip).
    cbn [rbind Ok]. apply clean_step_blank.
  - rewrite re_split_go_copies_S by exact s_plain.
    rewrite clean_loop_pair.
    rewrite clean_step_duplicate by (auto using strip_lstrip).
    cbn [rbind Ok]. now apply IH.
Qed.

Lemma clean_loop_repeated n :
  exists w,
    forallb isspace w = true /\
    clean_loop (re_split true (repeated s (S n)))
               {| cleaned_sentences := []; seen := [] |}
    = Ok {| cleaned_sentences := [s; c_dot :: c_space :: w];
            seen := [strip s] |}.
Proof.
  rewrite re_split_repeated by exact s_plain.
  assert (Hfirst : forall sep,
    clean_step s (Some sep) {| cleaned_sentences := []; seen := [] |}
    = Ok {| cleaned_sentences := [s; sep]; seen := [strip s] |}).
  { intro sep. unfold clean_step.
    assert (Hn : negb (truthy (strip s)) = false).
    { apply negb_false_iff. now apply truthy_true_iff. }
    rewrite Hn. reflexivity. }
  destruct n as [|n].
  - exists []. split; [reflexivity|].
    rewrite re_split_go_copies_0. cbn [clean_loop rev app].
    rewrite Hfirst. reflexivity.
  - exists (takewhile isspace s). split; [apply takewhile_blank|].
    rewrite re_split_go_copies_S by exact s_plain.
    rewrite clean_loop_pair, Hfirst. cbn [rbind Ok rev app].
    now rewrite clean_loop_copies.
Qed.

Lemma strip_sentence_dot w :
  forallb isspace w = true ->
  strip (s ++ c_dot :: c_space :: w) = lstrip s ++ [c_dot].
Proof.
  intro Hw. unfold strip, lstrip at 1, lstrip_by.
  rewrite dropwhile_app_stop by exact dot_not_space.
  fold (lstrip_by isspace s). fold (lstrip s).
  change (lstrip s ++ c_dot :: c_space :: w)
    with (lstrip s ++ [c_dot] ++ (c_space :: w)).
  rewrite app_assoc. unfold rstrip.
  rewrite rstrip_by_app_all by (simpl; exact Hw).
  apply rstrip_by_snoc, dot_not_space.
Qed.

Lemma complete_last_sentence_dot x :
  complete_last_sentence (x ++ [c_dot]) = Ok (x ++ [c_dot]).
Proof.
  unfold complete_last_sentence.
  assert (Ht : truthy (x ++ [c_dot]) = true) by (destruct x; reflexivity).
  rewrite Ht. unfold py_last. rewrite last_char_snoc. reflexivity.
Qed.

Lemma strip_cleaned_sentence : strip (lstrip s ++ [c_dot]) = lstrip s ++ [c_dot].
Proof.
  unfold strip.
  assert (Hl : lstrip (lstrip s ++ [c_dot]) = lstrip s ++ [c_dot]).
  { unfold lstrip at 1, lstrip_by.
    rewrite dropwhile_app_stop by exact dot_not_space.
    fold (lstrip_by isspace (lstrip s)). fold (lstrip (lstrip s)).
    now rewrite lstrip_idem. }
  rewrite Hl. apply rstrip_by_snoc, dot_not_space.
Qed.

Lemma clean_repeated n :
  clean_repetitive_text (repeated s (S n)) = Ok (lstrip s ++ [c_dot]).
Proof.
  unfold clean_repetitive_text.
  assert (Ht : negb (truthy (repeated s (S n))) = false).
  { rewrite repeated_S. destruct s; reflexivity. }
  rewrite Ht. destruct (clean_loop_repeated n) as (w & Hw & Hloop).
  rewrite Hloop. cbn [rbind Ok cleaned_sentences join].
  rewrite app_nil_l, (strip_sentence_dot w Hw).
  apply complete_last_sentence_dot.
Qed.

Lemma clean_cleaned :
  clean_repetitive_text (lstrip s ++ [c_dot]) = Ok (lstrip s ++ [c_dot]).
Proof.
  unfold clean_repetitive_text.
  assert (Ht : negb (truthy (lstrip s ++ [c_dot])) = false)
    by (destruct (lstrip s); reflexivity).
  rewrite Ht. unfold re_split.
  rewrite re_split_go_last_sentence
    by (now apply no_terminator_dropwhile).
  cbn [rev app clean_loop]. unfold clean_step.
  rewrite strip_cleaned_sentence.
  assert (Hn : negb (truthy (lstrip s ++ [c_dot])) = false)
    by (destruct (lstrip s); reflexivity).
  rewrite Hn. cbn [is_duplicate rbind Ok cleaned_sentences seen join app].
  rewrite strip_cleaned_sentence.
  apply complete_last_sentence_dot.
Qed.

End RepeatedSentence.

(** C6, amended.  On a repetitive input made of one sentence (non-blank,
    without [. ! ?]) written [n >= 1] times, each copy followed by a full
    stop and a space, [clean_repetitive_text] keeps the first copy, and
    cleaning the result again leaves it unchanged. *)
Theorem clean_repetitive_text_idempotent_on_repeats sentence n :
  no_terminator sentence = true -> strip sentence <> [] -> (1 <= n)%nat ->
  exists cleaned,
    cleaned = lstrip sentence ++ [c_dot] /\
    clean_repetitive_text (repeated sentence n) = Ok cleaned /\
    clean_repetitive_text cleaned = Ok cleaned.
Proof.
  intros Hplain Hnonblank Hn. destruct n as [|n]; [lia|].
  exists (lstrip sentence ++ [c_dot]). split; [reflexivity|]. split.
  - now apply clean_repeated.
  - now apply clean_cleaned.
Qed.

Lemma clean_repetitive_text_idempotent_on_repeats_witness :
  exists cleaned,
    cleaned = lstrip (py "The cat sat on the mat") ++ [c_dot] /\
    clean_repetitive_text (repeated (py "The cat sat on the mat") 6)
      = Ok cleaned /\
    clean_repetitive_text cleaned = Ok cleaned.
Proof.
  apply (clean_repetitive_text_idempotent_on_repeats
           (py "The cat sat on the mat") 6%nat).
  - reflexivity.
  - vm_compute. discriminate.
  - lia.
Defined.

(** ** The pipeline *)

Lemma outcome_mbind {A B} (m : M A) (k : A -> M B) :
  outcome (mbind m k)
  = match outcome m with
    | inl e => inl e
    | inr a => outcome (k a)
    end.
Proof.
  destruct m as [t [e|a]]; simpl; [reflexivity|].
  destruct (k a); reflexivity.
Qed.

Lemma trace_mbind {A B} (m : M A) (k : A -> M B) :
  trace (mbind m k)
  = match outcome m with
    | inl e => trace m
    | inr a => trace m ++ trace (k a)
    end.
Proof.
  destruct m as [t [e|a]]; simpl; [reflexivity|].
  destruct (k a); reflexivity.
Qed.

Lemma outcome_try_except {A} (body : M A) (handler : exn -> M A) :
  outcome (try_except body handler)
  = match outcome body with
    | inl e => outcome (handler e)
    | inr a => inr a
    end.
Proof.
  destruct body as [t [e|a]]; simpl; [|reflexivity].
  destruct (handler e); reflexivity.
Qed.

Lemma filter_all {A} (f : A -> bool) l :
  forallb f l = true -> filter f l = l.
Proof. apply forallb_filter_id. Qed.

Lemma filter_id_all {A} (f : A -> bool) l :
  filter f l = l -> forallb f l = true.
Proof.
  induction l as [|x r IH]; simpl; [reflexivity|].
  destruct (f x) eqn:E; intro H.
  - inversion H as [H1]. rewrite H1. now rewrite IH.
  - exfalso. pose proof (filter_length_le f r) as Hl.
    rewrite H in Hl. simpl in Hl. lia.
Qed.

Lemma is_empty_true {A} (l : list A) : is_empty l = true <-> l = [].
Proof. destruct l; simpl; split; congruence. Qed.

Lemma is_empty_false {A} (l : list A) : is_empty l = false <-> l <> [].
Proof. destruct l; simpl; split; congruence. Qed.

(** A context that passes the filter of [run] passes the one of
    [generate]. *)
Lemma useful_revalidated ctx :
  useful ctx = true ->
  truthy ctx && truthy (strip ctx) && (20 <=? len (strip ctx)) = true.
Proof.
  unfold useful, MIN_CONTEXT_LENGTH. intro H.
  apply andb_true_iff in H. destruct H as [H _].
  rewrite H, andb_true_r. apply Z.leb_le in H.
  assert (Hs : strip ctx <> []).
  { intro E. rewrite E in H. unfold len in H. simpl in H. lia. }
  assert (Hc : ctx <> []) by (intro E; subst; now apply Hs).
  apply truthy_true_iff in Hs, Hc. now rewrite Hs, Hc.
Qed.

Lemma revalidation_keeps_all l :
  filter (fun ctx => truthy ctx && truthy (strip ctx)
                     && (20 <=? len (strip ctx))) (filter useful l)
  = filter useful l.
Proof.
  apply filter_all, forallb_forall. intros x Hx.
  apply filter_In in Hx. now apply useful_revalidated.
Qed.

Section RunPaths.

Context `{UnicodeTables}.
Variables (self : RAGPipeline) (q : str) (k : Z) (use_llm : bool)
          (sp : option str).

Lemma run_rejects_bad_arguments :
  strip q = [] \/ k <= 0 ->
  exists msg, run self q k use_llm sp = ([], Raise (ValueError msg)).
Proof.
  intros Hbad. unfold run.
  destruct (negb (truthy q) || negb (truthy (strip q))) eqn:E1;
    [eexists; reflexivity|].
  destruct (k <=? 0) eqn:E2; [eexists; reflexivity|].
  exfalso. apply orb_false_iff in E1. destruct E1 as [_ E1].
  apply negb_false_iff, truthy_true_iff in E1. apply Z.leb_gt in E2.
  destruct Hbad; [contradiction | lia].
Qed.

(** With good arguments, [run] searches once and then follows one of four
    paths. *)
Lemma run_unfold :
  strip q <> [] -> 0 < k ->
  run self q k use_llm sp
  = mbind (call (SearchSimilar q k)
                (search_similar (vector_repository self) q k))
      (fun search_results =>
         if is_empty search_results then mret (no_documents q k)
         else
           let filtered_results := filter relevant search_results in
           if is_empty filtered_results then mret (nothing_relevant q k)
           else
             let valid_contexts := filter useful (map text filtered_results) in
             if is_empty valid_contexts
             then mret (nothing_useful q k filtered_results)
             else
               mbind (generate self q valid_contexts use_llm sp)
                 (fun answer0 =>
                    mret {| query := q; answer := answer0;
                            contexts := valid_contexts;
                            sources := filtered_results;
                            top_k := k |})).
Proof.
  intros Hq Hk. unfold run, retrieve.
  assert (E1 : negb (truthy q) || negb (truthy (strip q)) = false).
  { apply orb_false_iff. split; apply negb_false_iff, truthy_true_iff.
    - intro E. subst q. now apply Hq.
    - exact Hq. }
  assert (E2 : (k <=? 0) = false) by (apply Z.leb_gt; lia).
  rewrite E1, E2. reflexivity.
Qed.

Lemma run_cases r :
  outcome (run self q k use_llm sp) = Ok r ->
  strip q <> [] /\ 0 < k /\
  exists rs,
    search_similar (vector_repository self) q k = Ok rs /\
    let fr := filter relevant rs in
    let vc := filter useful (map text fr) in
    (rs = [] /\ r = no_documents q k) \/
    (rs <> [] /\ fr = [] /\ r = nothing_relevant q k) \/
    (fr <> [] /\ vc = [] /\ r = nothing_useful q k fr) \/
    (vc <> [] /\
     exists a, outcome (generate self q vc use_llm sp) = Ok a /\
               r = {| query := q; answer := a; contexts := vc;
                      sources := fr; top_k := k |}).
Proof.
  intro Hr.
  assert (Hq : strip q <> []).
  { intro E. destruct (run_rejects_bad_arguments (or_introl E)) as [msg Hm].
    rewrite Hm in Hr. discriminate. }
  assert (Hk : 0 < k).
  { destruct (Z_lt_le_dec 0 k) as [Hlt|Hle]; [exact Hlt|].
    destruct (run_rejects_bad_arguments (or_intror Hle)) as [msg Hm].
    rewrite Hm in Hr. discriminate. }
  split; [exact Hq|]. split; [exact Hk|].
  rewrite (run_unfold Hq Hk), outcome_mbind in Hr.
  unfold call, outcome at 1 in Hr. simpl snd in Hr.
  destruct (search_similar (vector_repository self) q k) as [e|rs];
    [discriminate|].
  exists rs. split; [reflexivity|]. cbv zeta in *.
  destruct (is_empty rs) eqn:E0.
  { apply is_empty_true in E0. left. split; [exact E0|].
    simpl in Hr. now inversion Hr. }
  apply is_empty_false in E0.
  destruct (is_empty (filter relevant rs)) eqn:E1.
  { apply is_empty_true in E1. right; left. repeat split; auto.
    simpl in Hr. now inversion Hr. }
  apply is_empty_false in E1.
  destruct (is_empty (filter useful (map text (filter relevant rs)))) eqn:E2.
  { apply is_empty_true in E2. right; right; left. repeat split; auto.
    simpl in Hr. now inversion Hr. }
  apply is_empty_false in E2.
  right; right; right. split; [exact E2|].
  rewrite outcome_mbind in Hr.
  destruct (outcome (generate self q _ use_llm sp)) as [e|a];
    [discriminate|].
  exists a. split; [reflexivity|]. simpl in Hr. now inversion Hr.
Qed.

End RunPaths.

(** *** contexts and sources *)

Lemma aligned_iff r : aligned r <-> contexts r = map text (sources r).
Proof.
  unfold aligned. split.
  - intros [_ Hnth]. apply nth_error_ext. intro i.
    now rewrite Hnth, nth_error_map.
  - intro E. rewrite E. split; [apply length_map|].
    intro i. apply nth_error_map.
Qed.

Lemma filter_useful_id_iff l :
  filter useful l = l <-> forallb useful l = true.
Proof. split; [apply filter_id_all | apply filter_all]. Qed.

(** C1, the claim as it is stated fails.  When the content filter drops one
    of two relevant results, [contexts] has one element and [sources] two;
    when it drops the only relevant result, the canned result has no
    context and one source. *)
Lemma run_contexts_sources_misaligned :
  outcome (run (U := ascii_tables) (pipeline_without_llm
                  [found passage (9 # 10); found (py "Too short.") (8 # 10)])
               (py "What is Rocq?") 5 false None)
  = Ok {| query := py "What is Rocq?";
          answer := simple_response (py "What is Rocq?") [passage];
          contexts := [passage];
          sources := [found passage (9 # 10); found (py "Too short.") (8 # 10)];
          top_k := 5 |} /\
  outcome (run (U := ascii_tables) (pipeline_without_llm [found (py "Too short.") (8 # 10)])
               (py "What is Rocq?") 5 false None)
  = Ok {| query := py "What is Rocq?";
          answer := py "제공된 문서에서 질문과 관련된 유용한 정보를 찾을 수 없습니다.";
          contexts := [];
          sources := [found (py "Too short.") (8 # 10)];
          top_k := 5 |}.
Proof. split; vm_compute; reflexivity. Qed.

(** What [run] puts in [sources] and [contexts], on every return path. *)
Lemma run_sources_and_contexts `{UnicodeTables} self q k use_llm sp r :
  outcome (run self q k use_llm sp) = Ok r ->
  (exists rs, search_similar (vector_repository self) q k = Ok rs /\
              sources r = filter relevant rs) /\
  contexts r = filter useful (map text (sources r)).
Proof.
  intro Hr. apply run_cases in Hr.
  destruct Hr as (_ & _ & rs & Hrs & Hcases). cbv zeta in Hcases.
  assert (Hs : sources r = filter relevant rs /\
               contexts r = filter useful (map text (sources r))).
  { destruct Hcases as [[E ->]|[(_ & E & ->)|[(_ & E & ->)|(_ & a & _ & ->)]]];
      simpl.
    - subst rs. split; reflexivity.
    - rewrite E. split; reflexivity.
    - split; [reflexivity | now rewrite E].
    - split; reflexivity. }
  destruct Hs as [Hsrc Hctx].
  split; [exists rs; split; assumption | exact Hctx].
Qed.

(** C1, amended.  In every result that [run] returns, [sources] is the list
    of retrieved results that pass the score filter, in retrieval order, and
    [contexts] is the list of the texts of [sources] that pass the content
    filter (at least 20 characters after trimming, not starting with a full
    stop), in the same order.  The two lists are index-aligned exactly when
    every source passes the content filter. *)
Theorem contexts_are_useful_source_texts `{UnicodeTables}
    self q k use_llm sp r :
  outcome (run self q k use_llm sp) = Ok r ->
  (exists rs, search_similar (vector_repository self) q k = Ok rs /\
              sources r = filter relevant rs) /\
  contexts r = filter useful (map text (sources r)) /\
  (aligned r <-> forallb useful (map text (sources r)) = true).
Proof.
  intro Hr. destruct (run_sources_and_contexts _ _ _ _ _ _ Hr) as [Hsrc Hctx].
  split; [exact Hsrc|]. split; [exact Hctx|].
  rewrite aligned_iff, Hctx. apply filter_useful_id_iff.
Qed.

Lemma contexts_are_useful_source_texts_witness :
  outcome (run (U := ascii_tables)
               (pipeline_without_llm [found (py "Too short.") (8 # 10)])
               (py "What is Rocq?") 5 false None)
  = Ok (nothing_useful (py "What is Rocq?") 5
                       [found (py "Too short.") (8 # 10)]) /\
  contexts (nothing_useful (py "What is Rocq?") 5
                           [found (py "Too short.") (8 # 10)])
  = filter useful
      (map text (sources (nothing_useful (py "What is Rocq?") 5
                            [found (py "Too short.") (8 # 10)]))).
Proof.
  split; [vm_compute; reflexivity|].
  apply (@contexts_are_useful_source_texts ascii_tables
           (pipeline_without_llm [found (py "Too short.") (8 # 10)])
           (py "What is Rocq?") 5 false None).
  vm_compute. reflexivity.
Defined.

(** *** The score filter *)

Lemma relevant_false_iff x :
  relevant x = false <->
  strip (text x) = [] \/ (score x < MIN_RELEVANCE_SCORE)%Q.
Proof.
  unfold relevant. split.
  - intro H. apply andb_false_iff in H. destruct H as [H|H].
    + apply andb_false_iff in H. destruct H as [H|H].
      * apply truthy_false_iff in H. left. now rewrite H.
      * apply truthy_false_iff in H. now left.
    + right. apply Qnot_le_lt. intro Hle.
      apply Qle_bool_iff in Hle. congruence.
  - intros [Hb|Hs].
    + apply truthy_false_iff in Hb. rewrite Hb.
      now rewrite andb_false_r.
    + apply andb_false_iff. right.
      destruct (Qle_bool MIN_RELEVANCE_SCORE (score x)) eqn:E;
        [|reflexivity].
      apply Qle_bool_iff in E. exfalso. eapply Qlt_not_le; eauto.
Qed.

Lemma relevant_true_iff x :
  relevant x = true <->
  strip (text x) <> [] /\ (MIN_RELEVANCE_SCORE <= score x)%Q.
Proof.
  split.
  - intro H. split.
    + intro Hb. assert (relevant x = false); [|congruence].
      apply relevant_false_iff. now left.
    + apply Qnot_lt_le. intro Hs.
      assert (relevant x = false); [|congruence].
      apply relevant_false_iff. now right.
  - intros [Hb Hs]. destruct (relevant x) eqn:E; [reflexivity|].
    apply relevant_false_iff in E. destruct E as [E|E]; [contradiction|].
    exfalso. eapply Qlt_not_le; eauto.
Qed.

(** *** The answer is never empty *)

Lemma py_cons_nonempty (a b : str) : a <> [] -> a ++ b <> [].
Proof. destruct a; [congruence | discriminate]. Qed.

Lemma NO_INFORMATION_nonempty : RAGPromptTemplate.NO_INFORMATION <> [].
Proof. intro H. vm_compute in H. discriminate. Qed.

Lemma SIMPLE_RESPONSE_PROMPT_nonempty q c :
  RAGPromptTemplate.SIMPLE_RESPONSE_PROMPT q c <> [].
Proof.
  unfold RAGPromptTemplate.SIMPLE_RESPONSE_PROMPT.
  apply py_cons_nonempty. intro H. vm_compute in H. discriminate.
Qed.

Lemma build_simple_response_nonempty q ctxs m :
  RAGPromptTemplate.build_simple_response q ctxs m <> [].
Proof.
  unfold RAGPromptTemplate.build_simple_response.
  destruct ctxs;
    [apply NO_INFORMATION_nonempty | apply SIMPLE_RESPONSE_PROMPT_nonempty].
Qed.

Lemma simple_response_nonempty q ctxs : simple_response q ctxs <> [].
Proof. apply build_simple_response_nonempty. Qed.

Lemma refusal_nonempty answer :
  existsb (fun phrase => contains phrase answer) refusal_phrases = true ->
  answer <> [].
Proof.
  intro H. apply existsb_exists in H. destruct H as (p & Hp & Hc).
  apply (contains_nonempty p); [|exact Hc].
  intro E. subst p. vm_compute in Hp.
  repeat (destruct Hp as [Hp|Hp]; [discriminate|]). exact Hp.
Qed.

Lemma valid_answer_nonempty `{UnicodeTables} answer lo hi ctxs e :
  validate_answer_quality answer lo hi ctxs = Ok (true, e) -> answer <> [].
Proof.
  unfold validate_answer_quality. intros Hv E. subst answer.
  simpl in Hv. discriminate.
Qed.

Lemma outcome_lift {A} (r : result A) : outcome (lift r) = r.
Proof. reflexivity. Qed.

Lemma generate_with_llm_nonempty `{UnicodeTables} llm q vc sp a :
  outcome (generate_with_llm llm q vc sp) = Ok a -> a <> [].
Proof.
  unfold generate_with_llm. rewrite outcome_mbind.
  unfold call, outcome at 1. simpl snd.
  destruct (generate_with_context llm q vc _ 500) as [e|raw];
    [discriminate|].
  rewrite outcome_mbind, outcome_lift.
  destruct (post_process_answer raw 1000) as [e|ans]; [discriminate|].
  destruct (existsb _ refusal_phrases) eqn:Eneg; cbv iota.
  - destruct (context_has_keywords q vc); cbv iota.
    + intro Ha. inversion Ha. apply simple_response_nonempty.
    + rewrite outcome_mbind, outcome_lift.
      destruct (validate_answer_quality ans 10 2000 (Some vc))
        as [e|[[|] msg]] eqn:Ev; [discriminate| |]; simpl.
      * intro Ha. inversion Ha; subst. now apply refusal_nonempty.
      * intro Ha. inversion Ha. apply simple_response_nonempty.
  - rewrite outcome_mbind, outcome_lift.
    destruct (validate_answer_quality ans 10 2000 (Some vc))
      as [e|[[|] msg]] eqn:Ev; [discriminate| |]; cbv iota beta.
    + simpl. intro Ha. inversion Ha; subst.
      eapply valid_answer_nonempty; eauto.
    + cbn [negb].
      destruct (truthy raw && (10 <=? len (strip raw))) eqn:Eraw; cbv iota.
      * rewrite outcome_mbind, outcome_lift.
        destruct (detect_repetition raw) as [e|[|]]; [discriminate| |];
          simpl; intro Ha; inversion Ha; subst.
        -- apply simple_response_nonempty.
        -- apply andb_true_iff in Eraw. destruct Eraw as [Et _].
           now apply truthy_true_iff.
      * intro Ha. inversion Ha. apply simple_response_nonempty.
Qed.

Lemma generate_returns `{UnicodeTables} self q ctxs use_llm sp :
  llm_ready self use_llm ->
  exists a, outcome (generate self q ctxs use_llm sp) = Ok a /\ a <> [].
Proof.
  intro Hready. unfold generate.
  destruct (is_empty ctxs).
  { eexists. split; [reflexivity | apply NO_INFORMATION_nonempty]. }
  set (vc := filter _ ctxs).
  destruct (is_empty vc).
  { eexists. split; [reflexivity|]. intro E. vm_compute in E. discriminate. }
  unfold llm_ready in Hready.
  destruct use_llm;
    [|eexists; split; [reflexivity | apply simple_response_nonempty]].
  destruct (llm_manager self) as [llm|];
    [|eexists; split; [reflexivity | apply simple_response_nonempty]].
  rewrite outcome_mbind.
  assert (Hinit : outcome (if negb (is_loaded llm)
                           then call Initialize (initialize llm)
                           else mret tt) = Ok tt).
  { destruct (is_loaded llm) eqn:El; [reflexivity|].
    simpl. unfold outcome, call. simpl. now apply Hready. }
  rewrite Hinit. unfold Ok at 1. rewrite outcome_try_except.
  destruct (outcome (generate_with_llm llm q vc sp)) as [e|a] eqn:Eg.
  - eexists. split; [reflexivity | apply simple_response_nonempty].
  - exists a. split; [reflexivity|].
    eapply generate_with_llm_nonempty; eauto.
Qed.

(** With good arguments, a search that answers and a language model that
    is ready, [run] returns a result whose answer is not empty, whatever the
    generation call does. *)
Lemma run_returns `{UnicodeTables} self q k use_llm sp rs :
  strip q <> [] -> 0 < k ->
  search_similar (vector_repository self) q k = Ok rs ->
  llm_ready self use_llm ->
  exists r, outcome (run self q k use_llm sp) = Ok r /\ answer r <> [].
Proof.
  intros Hq Hk Hrs Hready.
  rewrite (run_unfold self q k use_llm sp Hq Hk), outcome_mbind.
  unfold call, outcome at 1. simpl snd. rewrite Hrs.
  unfold Ok at 1. cbv iota beta zeta.
  destruct (is_empty rs); cbv iota.
  { eexists. split; [reflexivity|]. intro E. vm_compute in E. discriminate. }
  destruct (is_empty (filter relevant rs)); cbv iota.
  { eexists. split; [reflexivity|]. intro E. vm_compute in E. discriminate. }
  destruct (is_empty (filter useful _)); cbv iota.
  { eexists. split; [reflexivity|]. intro E. vm_compute in E. discriminate. }
  rewrite outcome_mbind.
  destruct (generate_returns self q
              (filter useful (map text (filter relevant rs))) use_llm sp Hready)
    as (a & Ha & Hne).
  rewrite Ha. eexists. split; [reflexivity | exact Hne].
Qed.

(** C8.  The score filter of [run] drops exactly the results whose text is
    empty or whitespace or whose score is below 0.5: a result is dropped if
    and only if one of the two holds, and the [sources] of every returned
    result are the retrieved results that are not dropped, in order.  When
    the search returns three results with the scores 0.9, 0.4 and 0.2, only
    the first one survives; if its text is non-trivial (it passes the content
    filter), the returned [contexts] is that one text. *)
Theorem score_filter_exact `{UnicodeTables} :
  (forall x,
      relevant x = false <->
      strip (text x) = [] \/ (score x < 5 # 10)%Q) /\
  (forall self q k use_llm sp r,
      outcome (run self q k use_llm sp) = Ok r ->
      exists rs, search_similar (vector_repository self) q k = Ok rs /\
                 sources r = filter relevant rs) /\
  (forall self q k use_llm sp t1 t2 t3 m1 m2 m3,
      strip q <> [] -> 0 < k -> llm_ready self use_llm ->
      search_similar (vector_repository self) q k
      = Ok [ {| text := t1; score := 9 # 10; metadata := m1 |};
             {| text := t2; score := 4 # 10; metadata := m2 |};
             {| text := t3; score := 2 # 10; metadata := m3 |} ] ->
      useful t1 = true ->
      exists r,
        outcome (run self q k use_llm sp) = Ok r /\
        sources r = [ {| text := t1; score := 9 # 10; metadata := m1 |} ] /\
        contexts r = [t1] /\
        length (contexts r) = 1%nat).
Proof.
  split; [exact relevant_false_iff|]. split.
  - intros self q k use_llm sp r Hr.
    now destruct (run_sources_and_contexts _ _ _ _ _ _ Hr) as [H1 _].
  - intros self q k use_llm sp t1 t2 t3 m1 m2 m3 Hq Hk Hready Hrs Hu.
    destruct (run_returns self q k use_llm sp _ Hq Hk Hrs Hready)
      as (r & Hr & _).
    exists r. split; [exact Hr|].
    destruct (run_sources_and_contexts _ _ _ _ _ _ Hr)
      as ((rs & Hrs' & Hsrc) & Hctx).
    rewrite Hrs in Hrs'. inversion Hrs'. subst rs. clear Hrs'.
    assert (Hrel : relevant {| text := t1; score := 9 # 10; metadata := m1 |}
                   = true).
    { apply relevant_true_iff. simpl. split; [|discriminate].
      apply useful_revalidated in Hu.
      apply andb_true_iff in Hu. destruct Hu as [Hu _].
      apply andb_true_iff in Hu. destruct Hu as [_ Hu].
      now apply truthy_true_iff. }
    assert (Hfr : sources r
                  = [ {| text := t1; score := 9 # 10; metadata := m1 |} ]).
    { rewrite Hsrc. cbn [filter]. rewrite Hrel.
      assert (E2 : relevant {| text := t2; score := 4 # 10; metadata := m2 |}
                   = false)
        by (apply relevant_false_iff; right; reflexivity).
      assert (E3 : relevant {| text := t3; score := 2 # 10; metadata := m3 |}
                   = false)
        by (apply relevant_false_iff; right; reflexivity).
      now rewrite E2, E3. }
    split; [exact Hfr|].
    rewrite Hctx, Hfr. simpl. rewrite Hu. split; reflexivity.
Qed.

Lemma score_filter_exact_witness :
  exists r,
    outcome (run (U := ascii_tables) (pipeline_without_llm
                    [found passage (9 # 10);
                     found (py "Proof assistants check proofs.") (4 # 10);
                     found (py "Unrelated text about cooking.") (2 # 10)])
                 (py "What is Rocq?") 3 true None) = Ok r /\
    sources r = [found passage (9 # 10)] /\
    contexts r = [passage] /\
    length (contexts r) = 1%nat.
Proof.
  apply (proj2 (proj2 (@score_filter_exact ascii_tables))
           (pipeline_without_llm
              [found passage (9 # 10);
               found (py "Proof assistants check proofs.") (4 # 10);
               found (py "Unrelated text about cooking.") (2 # 10)])
           (py "What is Rocq?") 3 true None passage
           (py "Proof assistants check proofs.")
           (py "Unrelated text about cooking.")
           example_metadata example_metadata example_metadata).
  - vm_compute. discriminate.
  - lia.
  - exact I.
  - reflexivity.
  - reflexivity.
Defined.

(** ** The template answer *)

Lemma dropwhile_In p (c : N) s : In c (dropwhile p s) -> In c s.
Proof.
  induction s as [|d r IH]; simpl; [tauto|].
  destruct (p d); [intro H; right; now apply IH | tauto].
Qed.

Lemma strip_In c s : In c (strip s) -> In c s.
Proof.
  unfold strip, rstrip, rstrip_by, lstrip, lstrip_by. intro H.
  apply in_rev, dropwhile_In, in_rev in H. now apply dropwhile_In in H.
Qed.

Lemma dropwhile_app_nonempty p s x :
  dropwhile p s <> [] -> dropwhile p (s ++ x) = dropwhile p s ++ x.
Proof.
  induction s as [|c r IH]; simpl; [congruence|].
  destruct (p c); [exact IH | reflexivity].
Qed.

Lemma rstrip_by_cons p c r :
  rstrip_by p (c :: r)
  = match rstrip_by p r with
    | [] => if p c then [] else [c]
    | y => c :: y
    end.
Proof.
  unfold rstrip_by. simpl rev.
  destruct (dropwhile p (rev r)) as [|d t] eqn:E.
  - rewrite dropwhile_app_all by (now apply dropwhile_nil_all).
    simpl. destruct (p c); reflexivity.
  - rewrite dropwhile_app_nonempty by (rewrite E; discriminate).
    rewrite E, rev_app_distr. simpl rev at 1. simpl.
    destruct (rev t ++ [d]) eqn:E1; [|reflexivity].
    destruct (rev t); discriminate.
Qed.

Lemma lstrip_rstrip_comm p s :
  dropwhile p (rstrip_by p s) = rstrip_by p (dropwhile p s).
Proof.
  induction s as [|c r IH]; [reflexivity|].
  rewrite rstrip_by_cons. simpl dropwhile at 2.
  destruct (p c) eqn:E.
  - rewrite <- IH. destruct (rstrip_by p r) as [|d t]; simpl;
      [reflexivity | now rewrite E].
  - rewrite rstrip_by_cons.
    destruct (rstrip_by p r) as [|d t]; simpl; now rewrite E.
Qed.

Lemma rstrip_by_idem p s : rstrip_by p (rstrip_by p s) = rstrip_by p s.
Proof.
  unfold rstrip_by. now rewrite rev_involutive, dropwhile_idem.
Qed.

Lemma strip_idem s : strip (strip s) = strip s.
Proof.
  unfold strip, rstrip, lstrip, lstrip_by.
  rewrite lstrip_rstrip_comm, dropwhile_idem. apply rstrip_by_idem.
Qed.

Lemma split_on_go_plain sep l : forall cur,
  ~ In sep l -> split_on_go sep cur l = [rev cur ++ l].
Proof.
  induction l as [|c r IH]; intros cur H; simpl.
  - now rewrite app_nil_r.
  - destruct (char_eqb c sep) eqn:E.
    + apply N.eqb_eq in E. subst. exfalso. apply H. now left.
    + rewrite IH by (intro Hin; apply H; now right).
      simpl. now rewrite <- app_assoc.
Qed.

Lemma split_on_go_app sep l rest : forall cur,
  ~ In sep l ->
  split_on_go sep cur (l ++ sep :: rest)
  = (rev cur ++ l) :: split_on_go sep [] rest.
Proof.
  induction l as [|c r IH]; intros cur H; simpl.
  - unfold char_eqb. rewrite N.eqb_refl. now rewrite app_nil_r.
  - destruct (char_eqb c sep) eqn:E.
    + apply N.eqb_eq in E. subst. exfalso. apply H. now left.
    + rewrite IH by (intro Hin; apply H; now right).
      simpl. now rewrite <- app_assoc.
Qed.

Lemma split_on_join sep ls :
  ls <> [] -> Forall (fun l => ~ In sep l) ls ->
  split_on sep (join [sep] ls) = ls.
Proof.
  intros Hne Hall. unfold split_on.
  induction ls as [|l r IH]; [congruence|].
  inversion Hall as [|? ? Hl Hr]; subst.
  destruct r as [|l2 r'].
  - simpl. now rewrite split_on_go_plain.
  - change (join [sep] (l :: l2 :: r'))
      with (l ++ sep :: join [sep] (l2 :: r')).
    rewrite split_on_go_app by exact Hl. simpl rev. simpl app at 1.
    f_equal. apply IH; [discriminate | exact Hr].
Qed.

Lemma split_on_go_no_sep sep s : forall cur,
  ~ In sep cur -> Forall (fun l => ~ In sep l) (split_on_go sep cur s).
Proof.
  induction s as [|c r IH]; intros cur H; simpl.
  - constructor; [|constructor]. intro Hin. apply H. now apply in_rev.
  - destruct (char_eqb c sep) eqn:E.
    + constructor.
      * intro Hin. apply H. now apply in_rev.
      * apply IH. simpl. tauto.
    + apply IH. intros [Hc|Hin]; [|now apply H].
      subst. unfold char_eqb in E. rewrite N.eqb_refl in E. discriminate.
Qed.

Lemma join_cons sep x l :
  l <> [] -> join sep (x :: l) = x ++ sep ++ join sep l.
Proof. destruct l; [congruence | reflexivity]. Qed.

Lemma join_split_on_go sep s : forall cur,
  join [sep] (split_on_go sep cur s) = rev cur ++ s.
Proof.
  induction s as [|c r IH]; intro cur; simpl.
  - now rewrite app_nil_r.
  - destruct (char_eqb c sep) eqn:E.
    + apply N.eqb_eq in E. subst c.
      rewrite join_cons by apply split_on_go_nonempty.
      rewrite IH. reflexivity.
    + rewrite IH. simpl. now rewrite <- app_assoc.
Qed.

Lemma join_split_on sep s : join [sep] (split_on sep s) = s.
Proof. apply (join_split_on_go sep s []). Qed.

Section TemplateFacts.

Import RAGPromptTemplate.

Lemma tidy_lines_ok ctx :
  Forall (fun line => line <> [] /\ strip line = line /\ ~ In c_nl line)
         (tidy_lines ctx).
Proof.
  unfold tidy_lines. apply Forall_forall. intros line Hin.
  apply in_map_iff in Hin. destruct Hin as (raw & <- & Hraw).
  apply filter_In in Hraw. destruct Hraw as [Hraw Ht].
  split; [now apply truthy_true_iff|]. split; [apply strip_idem|].
  intro Hnl. apply strip_In in Hnl.
  pose proof (split_on_go_no_sep c_nl (strip ctx) [] (fun f => f)) as Hall.
  rewrite Forall_forall in Hall. exact (Hall raw Hraw Hnl).
Qed.

Lemma tidy_no_blank_lines ctx :
  tidy ctx = [] \/
  Forall (fun line => line <> [] /\ strip line = line)
         (split_on c_nl (tidy ctx)).
Proof.
  pose proof (tidy_lines_ok ctx) as Hok.
  change (tidy ctx) with (join [c_nl] (tidy_lines ctx)).
  destruct (tidy_lines ctx) as [|l r] eqn:E; [now left|].
  right. rewrite split_on_join.
  - eapply Forall_impl; [|exact Hok]. simpl. tauto.
  - discriminate.
  - eapply Forall_impl; [|exact Hok]. simpl. tauto.
Qed.

Lemma slice_to_firstn t n :
  0 <= n -> slice_to t n = firstn (Z.to_nat n) t.
Proof.
  intro Hn. unfold slice_to, slice, slice_bound, len. simpl.
  destruct (n <? 0) eqn:E; [apply Z.ltb_lt in E; lia|].
  rewrite (Z.min_l 0) by lia. rewrite Z.sub_0_r. simpl skipn.
  destruct (Z_le_gt_dec n (Z.of_nat (length t))) as [Hle|Hgt].
  - now rewrite Z.min_l by lia.
  - rewrite Z.min_r by lia. rewrite Nat2Z.id.
    rewrite !firstn_all2; [reflexivity | lia | lia].
Qed.

Lemma slice_to_negative s k :
  k < 0 -> slice_to s k = firstn (Z.to_nat (Z.max 0 (len s + k))) s.
Proof.
  intro Hk. unfold slice_to, slice, slice_bound.
  assert (E : (k <? 0) = true) by now apply Z.ltb_lt.
  rewrite E. cbn [Z.ltb Z.compare].
  rewrite (Z.min_l 0) by apply len_nonneg.
  rewrite Z.sub_0_r. reflexivity.
Qed.

Lemma shorten_spec m t :
  0 <= m ->
  shorten m t
  = if m / 3 <? len t then firstn (Z.to_nat (m / 3)) t ++ py "..." else t.
Proof.
  intro Hm. unfold shorten.
  destruct (m / 3 <? len t); [|reflexivity].
  rewrite slice_to_firstn; [reflexivity|].
  apply Z.div_pos; lia.
Qed.

Lemma shorten_length m t : 0 <= m -> len (shorten m t) <= m / 3 + 3.
Proof.
  intro Hm. rewrite shorten_spec by exact Hm.
  assert (0 <= m / 3) by (apply Z.div_pos; lia).
  destruct (m / 3 <? len t) eqn:E.
  - rewrite len_app. unfold len. rewrite length_firstn.
    change (Z.of_nat (length (py "..."))) with 3. lia.
  - apply Z.ltb_ge in E. lia.
Qed.

Lemma render_loop_numbered m ctxs :
  render_loop m 1 (firstn 3 ctxs)
  = map (fun '(i, ctx) =>
           py "[문서 " ++ str_of_Z i ++ py "]
" ++ shorten m (tidy ctx))
        (combine [1; 2; 3] ctxs).
Proof.
  destruct ctxs as [|c1 [|c2 [|c3 r]]]; reflexivity.
Qed.

Lemma build_simple_response_first_three q ctxs m :
  build_simple_response q ctxs m = build_simple_response q (firstn 3 ctxs) m.
Proof.
  destruct ctxs as [|c1 [|c2 [|c3 r]]]; cbn [firstn]; reflexivity.
Qed.

(** *** What [tidy] keeps *)

Lemma strip_app_blank_r x ws :
  forallb isspace ws = true -> strip (x ++ ws) = strip x.
Proof.
  intro H. unfold strip, rstrip, lstrip, lstrip_by.
  rewrite <- !lstrip_rstrip_comm. now rewrite rstrip_by_app_all.
Qed.

Lemma strip_app_blank_l ws x :
  forallb isspace ws = true -> strip (ws ++ x) = strip x.
Proof.
  intro H. unfold strip, rstrip, lstrip, lstrip_by.
  now rewrite dropwhile_app_all.
Qed.

Lemma split_on_go_cur sep s : forall cur,
  split_on_go sep cur s
  = match split_on_go sep [] s with
    | h :: t => (rev cur ++ h) :: t
    | [] => []
    end.
Proof.
  induction s as [|c r IH]; intro cur; cbn [split_on_go].
  - cbn [rev]. now rewrite app_nil_r.
  - destruct (char_eqb c sep).
    + cbn [rev]. now rewrite app_nil_r.
    + rewrite (IH (c :: cur)), (IH [c]).
      destruct (split_on_go sep [] r) as [|h t]; [reflexivity|].
      cbn [rev app]. now rewrite <- !app_assoc.
Qed.

Lemma trimmed_lines_blank_l ws s :
  forallb isspace ws = true -> trimmed_lines (ws ++ s) = trimmed_lines s.
Proof.
  induction ws as [|c r IH]; intro H; [reflexivity|].
  cbn [forallb] in H. apply andb_true_iff in H. destruct H as [Hc Hr].
  rewrite <- (IH Hr). unfold trimmed_lines, split_on.
  cbn [app split_on_go]. destruct (char_eqb c c_nl).
  - cbn [rev filter strip]. reflexivity.
  - rewrite split_on_go_cur.
    destruct (split_on_go c_nl [] (r ++ s)) as [|h t]; [reflexivity|].
    cbn [rev app filter].
    assert (E : strip (c :: h) = strip h).
    { apply (strip_app_blank_l [c] h). cbn [forallb]. now rewrite Hc. }
    rewrite E. destruct (truthy (strip h)); cbn [map]; now rewrite ?E.
Qed.

Lemma trimmed_lines_go_blank ws : forall cur,
  forallb isspace ws = true ->
  map strip (filter (fun line => truthy (strip line))
                    (split_on_go c_nl cur ws))
  = map strip (filter (fun line => truthy (strip line)) [rev cur]).
Proof.
  induction ws as [|c r IH]; intros cur H; [reflexivity|].
  cbn [forallb] in H. apply andb_true_iff in H. destruct H as [Hc Hr].
  cbn [split_on_go]. destruct (char_eqb c c_nl).
  - cbn [filter]. specialize (IH [] Hr). cbn [rev filter strip] in IH.
    change (truthy (strip [])) with false in IH. cbn [map] in IH.
    destruct (truthy (strip (rev cur))); cbn [map]; now rewrite IH.
  - rewrite (IH (c :: cur) Hr). cbn [rev filter].
    assert (E : strip (rev cur ++ [c]) = strip (rev cur)).
    { apply strip_app_blank_r. cbn [forallb]. now rewrite Hc. }
    rewrite E. destruct (truthy (strip (rev cur))); cbn [map];
      now rewrite ?E.
Qed.

Lemma trimmed_lines_go_blank_r ws s : forall cur,
  forallb isspace ws = true ->
  map strip (filter (fun line => truthy (strip line))
                    (split_on_go c_nl cur (s ++ ws)))
  = map strip (filter (fun line => truthy (strip line))
                      (split_on_go c_nl cur s)).
Proof.
  intros cur H. revert cur.
  induction s as [|c r IH]; intro cur.
  - cbn [app split_on_go]. now apply trimmed_lines_go_blank.
  - cbn [app split_on_go]. destruct (char_eqb c c_nl).
    + cbn [filter]. destruct (truthy (strip (rev cur))); cbn [map];
        now rewrite IH.
    + apply IH.
Qed.

Lemma trimmed_lines_blank_r s ws :
  forallb isspace ws = true -> trimmed_lines (s ++ ws) = trimmed_lines s.
Proof. intro H. now apply (trimmed_lines_go_blank_r ws s []). Qed.

Lemma dropwhile_decompose p (s : str) :
  exists t, forallb p t = true /\ s = t ++ dropwhile p s.
Proof.
  induction s as [|c r IH]; [exists []; split; reflexivity|].
  cbn [dropwhile]. destruct (p c) eqn:E; [|exists []; split; reflexivity].
  destruct IH as (t & Ht & Hs). exists (c :: t). cbn [forallb app].
  rewrite E, Ht. split; [reflexivity | now rewrite <- Hs].
Qed.

Lemma strip_decompose s :
  exists ws1 ws2,
    forallb isspace ws1 = true /\ forallb isspace ws2 = true /\
    s = ws1 ++ strip s ++ ws2.
Proof.
  destruct (dropwhile_decompose isspace s) as (ws1 & H1 & E1).
  destruct (dropwhile_decompose isspace (rev (dropwhile isspace s)))
    as (t & Ht & Et).
  exists ws1, (rev t). split; [exact H1|].
  split; [now rewrite forallb_rev|].
  unfold strip, rstrip, rstrip_by, lstrip, lstrip_by.
  rewrite <- rev_app_distr, <- Et, rev_involutive. exact E1.
Qed.

Lemma trimmed_lines_strip s : trimmed_lines (strip s) = trimmed_lines s.
Proof.
  destruct (strip_decompose s) as (ws1 & ws2 & H1 & H2 & E).
  rewrite E at 2.
  rewrite trimmed_lines_blank_l by exact H1.
  now rewrite trimmed_lines_blank_r by exact H2.
Qed.

Lemma tidy_trimmed_lines ctx : tidy ctx = join [c_nl] (trimmed_lines ctx).
Proof.
  change (tidy ctx) with (join [c_nl] (trimmed_lines (strip ctx))).
  now rewrite trimmed_lines_strip.
Qed.

Lemma filter_blank p (ws : str) :
  forallb p ws = true -> filter (fun c => negb (p c)) ws = [].
Proof.
  induction ws as [|c r IH]; intro H; [reflexivity|].
  cbn [forallb] in H. apply andb_true_iff in H. destruct H as [Hc Hr].
  cbn [filter]. rewrite Hc. cbn [negb]. now apply IH.
Qed.

Lemma filter_strip s :
  filter (fun c => negb (isspace c)) (strip s)
  = filter (fun c => negb (isspace c)) s.
Proof.
  destruct (strip_decompose s) as (ws1 & ws2 & H1 & H2 & E).
  rewrite E at 2. rewrite !filter_app.
  rewrite (filter_blank isspace ws1 H1), (filter_blank isspace ws2 H2).
  now rewrite app_nil_r.
Qed.

Lemma filter_join_lines (ls : list str) :
  filter (fun c => negb (isspace c)) (join [c_nl] ls)
  = concat (map (filter (fun c => negb (isspace c))) ls).
Proof.
  induction ls as [|l r IH]; [reflexivity|].
  destruct r as [|l2 r'].
  - cbn [join map concat]. now rewrite app_nil_r.
  - rewrite join_cons by discriminate. rewrite !filter_app, IH.
    reflexivity.
Qed.

Lemma filter_trimmed_lines (ls : list str) :
  concat (map (filter (fun c => negb (isspace c)))
              (map strip (filter (fun line => truthy (strip line)) ls)))
  = concat (map (filter (fun c => negb (isspace c))) ls).
Proof.
  induction ls as [|l r IH]; [reflexivity|].
  cbn [filter map concat].
  destruct (truthy (strip l)) eqn:E; cbn [map concat].
  - now rewrite filter_strip, IH.
  - apply truthy_false_iff in E. rewrite <- (filter_strip l), E.
    cbn [filter app]. exact IH.
Qed.

Lemma tidy_keeps_characters ctx :
  filter (fun c => negb (isspace c)) (tidy ctx)
  = filter (fun c => negb (isspace c)) ctx.
Proof.
  rewrite tidy_trimmed_lines, filter_join_lines. unfold trimmed_lines.
  rewrite filter_trimmed_lines, <- filter_join_lines.
  now rewrite join_split_on.
Qed.

Lemma tidy_one_line ctx : ~ In c_nl ctx -> tidy ctx = strip ctx.
Proof.
  intro H. rewrite tidy_trimmed_lines. unfold trimmed_lines, split_on.
  rewrite split_on_go_plain by exact H. cbn [rev app filter].
  destruct (truthy (strip ctx)) eqn:E; [reflexivity|].
  apply truthy_false_iff in E. now rewrite E.
Qed.

Lemma shorten_negative m t :
  m < 0 ->
  shorten m t = firstn (Z.to_nat (len t + m / 3)) t ++ py "...".
Proof.
  intro Hm. unfold shorten.
  assert (Hd : m / 3 < 0) by (apply Z.div_lt_upper_bound; lia).
  assert (E : (m / 3 <? len t) = true).
  { apply Z.ltb_lt. pose proof (len_nonneg t). lia. }
  rewrite E, slice_to_negative by exact Hd.
  f_equal. f_equal. lia.
Qed.


End TemplateFacts.

Lemma run_without_llm `{UnicodeTables} self q k sp r :
  outcome (run self q k false sp) = Ok r -> contexts r <> [] ->
  answer r = RAGPromptTemplate.build_simple_response q (contexts r) 1000 /\
  trace (run self q k false sp) = [SearchSimilar q k].
Proof.
  intros Hr Hctx. pose proof Hr as Hcases. apply run_cases in Hcases.
  destruct Hcases as (Hq & Hk & rs & Hrs & Hcases). cbv zeta in Hcases.
  assert (Hgen : forall vc,
    generate self q (filter useful vc) false sp
    = (if is_empty (filter useful vc)
       then mret RAGPromptTemplate.NO_INFORMATION
       else mret (simple_response q (filter useful vc)))).
  { intro vc. unfold generate. rewrite revalidation_keeps_all.
    destruct (is_empty (filter useful vc)); reflexivity. }
  destruct Hcases as [[_ ->]|[(_ & _ & ->)|[(_ & _ & ->)|(Hvc & a & Ha & ->)]]];
    try (simpl in Hctx; congruence).
  simpl. rewrite Hgen in Ha. apply is_empty_false in Hvc.
  rewrite Hvc in Ha. simpl in Ha. inversion Ha. split; [reflexivity|].
  rewrite (run_unfold self q k false sp Hq Hk), trace_mbind.
  unfold call, outcome at 1, trace at 1. simpl fst. simpl snd.
  rewrite Hrs. unfold Ok at 1. cbv iota beta zeta.
  destruct (is_empty rs) eqn:E0.
  { apply is_empty_true in E0. subst rs. simpl in Hvc. discriminate. }
  destruct (is_empty (filter relevant rs)) eqn:E1.
  { apply is_empty_true in E1. rewrite E1 in Hvc. discriminate. }
  rewrite Hvc, trace_mbind, Hgen, Hvc. reflexivity.
Qed.

(** C7, counterexample.  With [max_context_length = -3] the context
    [abcdef] is rendered as [abcde...]: the condition for cutting always
    holds and the slice drops characters from the end, so five characters of
    the context are kept although [max_context_length // 3] is [-1]. *)
Theorem build_simple_response_negative_length :
  RAGPromptTemplate.build_simple_response (py "q") [py "abcdef"] (-3)
  = py "질문: q

제공된 문서에서 찾은 관련 정보:

[문서 1]
abcde...

참고: 위 정보는 제공된 문서에서 추출한 내용입니다. 더 정확한 답변을 원하시면 LLM을 사용하는 옵션을 활성화해주세요." /\
  (-3) / 3 = -1 /\
  ~ (len (py "abcde") <= (-3) / 3).
Proof.
  split; [vm_compute; reflexivity|]. split; [reflexivity|].
  vm_compute. intro H. now apply H.
Qed.

(** C7, amended.  [build_simple_response] returns the fixed "no information
    found" wording when [contexts] is empty.  Otherwise the result is, byte
    for byte, the question line, the line announcing the information found,
    the blocks of the first three contexts only, numbered from 1 and
    separated by blank lines, and the closing note.  The body of a block is
    the context tidied and then cut.  Tidying keeps the lines of the context
    that are not blank, each trimmed, joined by line breaks: it keeps every
    character that is not whitespace, in order, leaves no blank and no
    untrimmed line, and is plain trimming on a context of one line.  For
    [max_context_length >= 0] the cut leaves a body of at most
    [max_context_length // 3] characters as it is, and replaces a longer one
    by its first [max_context_length // 3] characters followed by "...";
    for a negative [max_context_length] every body is cut, and the cut
    drops characters from the end.  When [run] is called with generation
    disabled and returns contexts, the answer is this string for the returned
    contexts (with the default [max_context_length = 1000]) and the only
    collaborator call is the search. *)
Theorem build_simple_response_spec `{UnicodeTables} :
  (forall q m,
      RAGPromptTemplate.build_simple_response q [] m
      = py "제공된 문서에서 질문과 관련된 정보를 찾을 수 없습니다.") /\
  (forall q ctxs m,
      ctxs <> [] ->
      RAGPromptTemplate.build_simple_response q ctxs m
      = py "질문: " ++ q ++ py "

제공된 문서에서 찾은 관련 정보:

"
        ++ join (py "

")
             (map (fun '(i, ctx) =>
                     py "[문서 " ++ str_of_Z i ++ py "]
" ++ RAGPromptTemplate.shorten m (RAGPromptTemplate.tidy ctx))
                  (combine [1; 2; 3] ctxs))
        ++ py "

참고: 위 정보는 제공된 문서에서 추출한 내용입니다. 더 정확한 답변을 원하시면 LLM을 사용하는 옵션을 활성화해주세요.") /\
  (forall q ctxs m,
      RAGPromptTemplate.build_simple_response q ctxs m
      = RAGPromptTemplate.build_simple_response q (firstn 3 ctxs) m) /\
  (forall ctx,
      RAGPromptTemplate.tidy ctx
      = join [c_nl]
          (map strip (filter (fun line => truthy (strip line))
                             (split_on c_nl ctx))) /\
      filter (fun c => negb (isspace c)) (RAGPromptTemplate.tidy ctx)
      = filter (fun c => negb (isspace c)) ctx /\
      (RAGPromptTemplate.tidy ctx = [] \/
       Forall (fun line => line <> [] /\ strip line = line)
              (split_on c_nl (RAGPromptTemplate.tidy ctx))) /\
      (~ In c_nl ctx -> RAGPromptTemplate.tidy ctx = strip ctx)) /\
  (forall m t,
      (0 <= m ->
       RAGPromptTemplate.shorten m t
       = (if m / 3 <? len t
          then firstn (Z.to_nat (m / 3)) t ++ py "..."
          else t) /\
       len (RAGPromptTemplate.shorten m t) <= m / 3 + 3) /\
      (m < 0 ->
       RAGPromptTemplate.shorten m t
       = firstn (Z.to_nat (len t + m / 3)) t ++ py "...")) /\
  (forall self q k sp r,
      outcome (run self q k false sp) = Ok r -> contexts r <> [] ->
      answer r = RAGPromptTemplate.build_simple_response q (contexts r) 1000 /\
      trace (run self q k false sp) = [SearchSimilar q k]).
Proof.
  split; [reflexivity|]. split.
  { intros q ctxs m Hne.
    unfold RAGPromptTemplate.build_simple_response.
    destruct ctxs as [|c r]; [congruence|].
    rewrite render_loop_numbered.
    unfold RAGPromptTemplate.SIMPLE_RESPONSE_PROMPT. reflexivity. }
  split; [exact build_simple_response_first_three|].
  split.
  { intro ctx. split; [apply tidy_trimmed_lines|].
    split; [apply tidy_keeps_characters|].
    split; [apply tidy_no_blank_lines | apply tidy_one_line]. }
  split.
  { intros m t. split.
    - intro Hm. split; [now apply shorten_spec | now apply shorten_length].
    - apply shorten_negative. }
  intros self q k sp r. apply run_without_llm.
Qed.

Lemma build_simple_response_spec_witness :
  outcome (run (U := ascii_tables)
               (pipeline_without_llm
                  [found padded_item (9 # 10); found item_b (8 # 10);
                   found long_item (7 # 10); found fourth_item (6 # 10)])
               (py "Which items are listed?") 5 false None)
  = Ok rendered_result /\
  answer rendered_result
  = RAGPromptTemplate.build_simple_response
      (py "Which items are listed?") (contexts rendered_result) 1000 /\
  trace (run (U := ascii_tables)
             (pipeline_without_llm
                [found padded_item (9 # 10); found item_b (8 # 10);
                 found long_item (7 # 10); found fourth_item (6 # 10)])
             (py "Which items are listed?") 5 false None)
  = [SearchSimilar (py "Which items are listed?") 5].
Proof.
  split; [vm_compute; reflexivity|].
  apply (proj2 (proj2 (proj2 (proj2 (proj2
           (@build_simple_response_spec ascii_tables)))))
           (pipeline_without_llm
              [found padded_item (9 # 10); found item_b (8 # 10);
               found long_item (7 # 10); found fourth_item (6 # 10)])
           (py "Which items are listed?") 5 None rendered_result).
  - vm_compute. reflexivity.
  - discriminate.
Defined.

(** ** Failures of the language model *)

(** C2.  The query and [top_k] are good and the search answers with one
    relevant passage, but the language model is not loaded yet and loading
    it fails: [run] raises the loading error.  The same error raised by the
    generation call of a loaded model is absorbed, and the template answer
    is returned. *)
Theorem run_raises_when_loading_fails :
  run (U := ascii_tables)
      {| vector_repository := fixed_repository [found passage (9 # 10)];
         llm_manager := Some unloadable_llm |}
      (py "What is Rocq?") 5 true None
  = ([SearchSimilar (py "What is Rocq?") 5; Initialize],
     Raise (OtherError (py "model loading failed"))) /\
  outcome (run (U := ascii_tables)
               {| vector_repository := fixed_repository [found passage (9 # 10)];
                  llm_manager := Some failing_llm |}
               (py "What is Rocq?") 5 true None)
  = Ok {| query := py "What is Rocq?";
          answer := simple_response (py "What is Rocq?") [passage];
          contexts := [passage];
          sources := [found passage (9 # 10)];
          top_k := 5 |}.
Proof. split; vm_compute; reflexivity. Qed.

(* ================================================================== *)
(** * Further properties of the code                                    *)
(* ================================================================== *)

(** ** Sections of a document *)

Lemma join_app sep a b :
  a <> [] -> b <> [] -> join sep (a ++ b) = join sep a ++ sep ++ join sep b.
Proof.
  intros Ha Hb. induction a as [|x r IH]; [congruence|].
  destruct r as [|y r'].
  - simpl app. now rewrite join_cons.
  - change ((x :: y :: r') ++ b) with (x :: ((y :: r') ++ b)).
    rewrite join_cons by discriminate.
    rewrite IH by discriminate.
    rewrite (join_cons sep x (y :: r')) by discriminate.
    now rewrite <- !app_assoc.
Qed.

Lemma join_merge_last sep xs a b :
  join sep (xs ++ [a; b]) = join sep (xs ++ [a ++ sep ++ b]).
Proof.
  induction xs as [|x r IH]; [reflexivity|].
  change ((x :: r) ++ [a; b]) with (x :: (r ++ [a; b])).
  change ((x :: r) ++ [a ++ sep ++ b]) with (x :: (r ++ [a ++ sep ++ b])).
  rewrite !join_cons by (destruct r; discriminate).
  now rewrite IH.
Qed.

Section ChunkerSections.

Import Chunker.

Lemma split_loop_join lines : forall sections current,
  current <> [] \/ lines <> [] ->
  join [c_nl] (split_loop lines sections current)
  = join [c_nl] (sections ++ [join [c_nl] (current ++ lines)]).
Proof.
  induction lines as [|line rest IH]; intros sections current Hne.
  - destruct Hne as [Hne|Hne]; [|congruence].
    rewrite app_nil_r. simpl. destruct current; [congruence | reflexivity].
  - cbn [split_loop]. destruct (opens_section line).
    + destruct current as [|c0 cur'].
      * rewrite IH by (left; discriminate). reflexivity.
      * rewrite IH by (left; discriminate).
        rewrite <- app_assoc. cbn [app].
        rewrite join_merge_last.
        rewrite <- (join_app [c_nl] (c0 :: cur') (line :: rest))
          by discriminate.
        reflexivity.
    + rewrite IH by (left; destruct current; discriminate).
      now rewrite <- app_assoc.
Qed.

Lemma sections_join markdown :
  join [c_nl] (_split_into_sections markdown) = markdown.
Proof.
  unfold _split_into_sections.
  rewrite split_loop_join
    by (right; apply split_on_go_nonempty).
  simpl. apply join_split_on.
Qed.

(** X1.  Joining the sections of a document with line breaks gives the
    document back, and there is at least one section: the split loses and
    adds nothing. *)
Theorem split_into_sections_join markdown :
  join [c_nl] (_split_into_sections markdown) = markdown /\
  _split_into_sections markdown <> [].
Proof.
  split; [apply sections_join|].
  unfold _split_into_sections.
  assert (H : forall lines sections current,
             current <> [] \/ lines <> [] ->
             split_loop lines sections current <> []).
  { induction lines as [|line rest IH]; intros sections current Hne; simpl.
    - destruct Hne as [Hne|Hne]; [|congruence].
      destruct current; [congruence|]. destruct sections; discriminate.
    - destruct (opens_section line).
      + destruct current; apply IH; left; discriminate.
      + apply IH. left. destruct current; discriminate. }
  apply H. right. apply split_on_go_nonempty.
Qed.

Lemma sections_ok_snoc sections g :
  sections_ok sections ->
  g <> [] -> Forall (fun line => ~ In c_nl line) g ->
  Forall (fun line => opens_section line = false) (tl g) ->
  (sections <> [] -> opens_section (hd [] g) = true) ->
  sections_ok (sections ++ [join [c_nl] g]).
Proof.
  intros Hok Hne Hnl Htl Hhd.
  destruct sections as [|s0 rest]; simpl.
  - split; [|constructor]. exists g. repeat split; auto. discriminate.
  - destruct Hok as [H0 Hrest]. split; [exact H0|].
    apply Forall_app. split; [exact Hrest|].
    constructor; [|constructor].
    exists g. repeat split; auto. intros _. apply Hhd. discriminate.
Qed.

Lemma split_loop_ok lines : forall sections current,
  Forall (fun line => ~ In c_nl line) lines ->
  Forall (fun line => ~ In c_nl line) current ->
  Forall (fun line => opens_section line = false) (tl current) ->
  sections_ok sections ->
  (sections <> [] ->
   current <> [] /\ opens_section (hd [] current) = true) ->
  sections_ok (split_loop lines sections current).
Proof.
  induction lines as [|line rest IH];
    intros sections current Hlines Hcur Htl Hok Hhead.
  - simpl. destruct current as [|c0 cur']; [exact Hok|].
    apply sections_ok_snoc; auto; [discriminate|].
    intro Hs. now apply Hhead.
  - inversion Hlines as [|? ? Hline Hrest]; subst.
    cbn [split_loop]. destruct (opens_section line) eqn:Eo.
    + assert (Hnew : Forall (fun l => ~ In c_nl l) [line])
        by (constructor; [exact Hline | constructor]).
      destruct current as [|c0 cur'].
      * apply IH;
          [exact Hrest | exact Hnew | constructor | exact Hok
          | intros _; split; [discriminate | exact Eo]].
      * apply IH;
          [exact Hrest | exact Hnew | constructor
          | | intros _; split; [discriminate | exact Eo]].
        apply sections_ok_snoc; auto; [discriminate|].
        intro Hs. now apply Hhead.
    + apply IH; [exact Hrest | | | exact Hok |].
      * apply Forall_app. split; [exact Hcur | now constructor].
      * destruct current as [|c0 cur']; simpl; [constructor|].
        apply Forall_app. split; [exact Htl | now constructor].
      * intro Hs. destruct (Hhead Hs) as [Hne Hh].
        destruct current as [|c0 cur']; [congruence|].
        split; [discriminate | exact Hh].
Qed.

Lemma section_of_lines_split headed s :
  section_of_lines headed s ->
  Forall (fun line => opens_section line = false) (tl (split_on c_nl s)) /\
  (headed = true -> opens_section (hd [] (split_on c_nl s)) = true).
Proof.
  intros (g & -> & Hne & Hnl & Htl & Hhd).
  rewrite split_on_join by assumption. split; assumption.
Qed.

(** X2.  A heading line or a rule is never buried inside a section: in
    every section of a document no line after the first opens a section,
    and every section except the first starts with a heading or a rule. *)
Theorem sections_start_at_headings markdown :
  Forall (fun s => Forall (fun line => opens_section line = false)
                          (tl (split_on c_nl s)))
         (_split_into_sections markdown) /\
  Forall (fun s => opens_section (hd [] (split_on c_nl s)) = true)
         (tl (_split_into_sections markdown)).
Proof.
  assert (Hok : sections_ok (_split_into_sections markdown)).
  { unfold _split_into_sections.
    apply split_loop_ok;
      [ apply split_on_go_no_sep; simpl; tauto
      | constructor | constructor | exact I
      | intro Hs; congruence ]. }
  destruct (_split_into_sections markdown) as [|s0 rest]; simpl in *.
  - split; constructor.
  - destruct Hok as [H0 Hrest]. split.
    + constructor; [now apply (section_of_lines_split false)|].
      eapply Forall_impl; [|exact Hrest].
      intros s Hs. now apply (section_of_lines_split true).
    + eapply Forall_impl; [|exact Hrest].
      intros s Hs. now apply (section_of_lines_split true).
Qed.

End ChunkerSections.

(** ** Termination of the chunker when the window advances *)

Lemma rfind_from_absent c l : forall base,
  ~ In c l -> rfind_from c base l = -1.
Proof.
  induction l as [|d r IH]; intros base H; [reflexivity|].
  cbn [rfind_from]. rewrite IH by (intro Hin; apply H; now right).
  simpl. destruct (char_eqb d c) eqn:E; [|reflexivity].
  apply N.eqb_eq in E. subst. exfalso. apply H. now left.
Qed.

Lemma In_firstn_skipn {A} (x : A) n m l :
  In x (firstn n (skipn m l)) -> In x l.
Proof.
  intro H. rewrite <- (firstn_skipn m l). apply in_or_app. right.
  rewrite <- (firstn_skipn n (skipn m l)). apply in_or_app. now left.
Qed.

Lemma rfind_absent s c a b : ~ In c s -> rfind s c a b = -1.
Proof.
  intro H. unfold rfind. apply rfind_from_absent.
  intro Hin. apply H. now apply In_firstn_skipn in Hin.
Qed.

Lemma join_In sep (l : list (list N)) s c :
  In s l -> In c s -> In c (join sep l).
Proof.
  induction l as [|x r IH]; intros Hs Hc; [destruct Hs|].
  destruct r as [|y r'].
  - destruct Hs as [->|[]]. exact Hc.
  - rewrite join_cons by discriminate. apply in_or_app.
    destruct Hs as [->|Hs]; [now left|].
    right. apply in_or_app. right. now apply IH.
Qed.

Lemma join_length sep (l : list (list N)) s :
  In s l -> (length s <= length (join sep l))%nat.
Proof.
  induction l as [|x r IH]; intro Hs; [destruct Hs|].
  destruct r as [|y r'].
  - destruct Hs as [->|[]]. simpl. lia.
  - rewrite join_cons by discriminate. rewrite !length_app.
    destruct Hs as [->|Hs]; [lia|].
    specialize (IH Hs). lia.
Qed.

Section ChunkerTermination.

Import Chunker.

Variable self : MarkdownChunker.
Hypothesis size_positive : 0 < chunk_size self.
Hypothesis overlap_bounds : 0 <= chunk_overlap self < chunk_size self.

Lemma chunk_step_advances section st st' :
  advancing self section -> 0 <= start st ->
  chunk_step self section st = Continue st' ->
  start st < start st' /\ start st < len section.
Proof.
  intros Hadv Hstart. unfold chunk_step.
  destruct (start st <? len section) eqn:Hlt; [|discriminate].
  apply Z.ltb_lt in Hlt.
  pose (end0 := start st + chunk_size self).
  assert (Hend0 : end0 = start st + chunk_size self) by reflexivity.
  fold end0. clearbody end0.
  set (end1 := if end0 <? len section then _ else end0).
  assert (Hend : start st < end1 <= end0 /\
                 (chunk_overlap self <> 0 -> end1 = end0)).
  { subst end1. destruct (end0 <? len section); [|split; [lia | auto]].
    destruct Hadv as [Hov|[Hdot Hnl]].
    - set (lb := Z.max _ _).
      destruct (start st <? lb) eqn:E; [|split; [lia | auto]].
      apply Z.ltb_lt in E. split; [|intro; contradiction].
      split; [lia|].
      assert (lb < end0); [|lia]. subst lb.
      pose proof (rfind_lt section c_dot (start st) end0 Hstart ltac:(lia)).
      pose proof (rfind_lt section c_nl (start st) end0 Hstart ltac:(lia)).
      lia.
    - rewrite (rfind_absent _ _ _ _ Hdot), (rfind_absent _ _ _ _ Hnl).
      change (Z.max (-1) (-1)) with (-1).
      destruct (start st <? -1) eqn:E; [apply Z.ltb_lt in E; lia|].
      split; [lia | auto]. }
  clearbody end1. destruct Hend as [Hend Hsame].
  set (chunks1 := if truthy _ then _ else chunks st). clearbody chunks1.
  set (start1 := if _ <? 0 then end1 else _).
  assert (Hs1 : start st < start1).
  { subst start1. destruct (end1 - chunk_overlap self <? 0) eqn:E; [lia|].
    apply Z.ltb_ge in E.
    destruct (Z.eq_dec (chunk_overlap self) 0) as [H0|H0]; [lia|].
    rewrite (Hsame H0). lia. }
  clearbody start1.
  destruct (len section <=? start1); [discriminate|].
  intro H. inversion H; subst. simpl. split; assumption.
Qed.

Lemma chunk_loop_terminates section : advancing self section ->
  forall fuel st,
    0 <= start st ->
    (Z.to_nat (len section - start st) < fuel)%nat ->
    exists cs, chunk_loop fuel self section st = Some cs.
Proof.
  intros Hadv fuel. induction fuel as [|fuel IH]; intros st Hstart Hfuel;
    [lia|].
  cbn [chunk_loop].
  destruct (chunk_step self section st) as [st'|cs] eqn:Estep;
    [|now exists cs].
  destruct (chunk_step_advances section st st' Hadv Hstart Estep)
    as [Hlt Hlen].
  apply IH; lia.
Qed.

Lemma chunk_section_terminates section fuel :
  advancing self section -> (length section < fuel)%nat ->
  exists cs, _chunk_section fuel self section = Some cs.
Proof.
  intros Hadv Hfuel. unfold _chunk_section.
  destruct (len section <=? chunk_size self); [eexists; reflexivity|].
  apply chunk_loop_terminates; [exact Hadv | simpl; lia |].
  simpl start. unfold len. lia.
Qed.

Lemma extend_loop_terminates fuel sections : forall acc,
  (forall s, In s sections ->
             exists cs, _chunk_section fuel self s = Some cs) ->
  exists result0, extend_loop fuel self sections acc = Some result0.
Proof.
  induction sections as [|s r IH]; intros acc Hall; simpl.
  - now exists acc.
  - destruct (Hall s (or_introl eq_refl)) as [cs Hcs]. rewrite Hcs.
    apply IH. intros s' Hs'. apply Hall. now right.
Qed.

Lemma chunk_markdown_terminates markdown :
  chunk_overlap self = 0 \/ (~ In c_dot markdown /\ ~ In c_nl markdown) ->
  exists result0,
    chunk_markdown (S (length markdown)) self markdown = Some result0.
Proof.
  intro Hadv. unfold chunk_markdown.
  destruct (_ || _); [eexists; reflexivity|].
  apply extend_loop_terminates. intros s Hs.
  pose proof (sections_join markdown) as Hjoin.
  apply chunk_section_terminates.
  - destruct Hadv as [H0|[Hdot Hnl]]; [now left|]. right.
    split; intro Hin; [apply Hdot | apply Hnl];
      rewrite <- Hjoin; eapply join_In; eauto.
  - pose proof (join_length [c_nl] _ s Hs) as Hl.
    rewrite Hjoin in Hl. lia.
Qed.

End ChunkerTermination.

(** X3.  For a chunker that the constructor accepts, [chunk_markdown]
    returns whenever the window is bound to advance: with
    [chunk_overlap = 0] on every document, and with any overlap on a document
    that holds no full stop and no line break (a long run of one repeated
    character, for instance).  Each section then needs at most
    [len(markdown) + 1] rounds of the loop. *)
Theorem chunk_markdown_terminates_when_advancing cs ov self markdown :
  Chunker.new cs ov = Ok self ->
  ov = 0 \/ (~ In c_dot markdown /\ ~ In c_nl markdown) ->
  exists result0,
    Chunker.chunk_markdown (S (length markdown)) self markdown = Some result0.
Proof.
  intros Hnew Hadv. apply new_ok in Hnew.
  destruct Hnew as (Hcs & Hov & Ecs & Eov).
  apply chunk_markdown_terminates; [lia | lia |].
  destruct Hadv as [H0|H]; [left; lia | now right].
Qed.

Lemma chunk_markdown_terminates_when_advancing_witness :
  exists result0,
    Chunker.chunk_markdown (S (length looping_input))
      {| Chunker.chunk_size := 20; Chunker.chunk_overlap := 0 |}
      looping_input = Some result0.
Proof.
  apply (chunk_markdown_terminates_when_advancing 20 0
           {| Chunker.chunk_size := 20; Chunker.chunk_overlap := 0 |}
           looping_input).
  - reflexivity.
  - left. reflexivity.
Defined.

(** ** Chunks are trimmed *)

Lemma strip_trimmed s : trimmed (strip s).
Proof. apply strip_idem. Qed.

Section ChunkerTrimmed.

Import Chunker.

Lemma chunk_step_proper self section st :
  Forall proper_chunk (chunks st) ->
  match chunk_step self section st with
  | Continue st' => Forall proper_chunk (chunks st')
  | Exit cs => Forall proper_chunk cs
  end.
Proof.
  intro Hall. unfold chunk_step.
  destruct (start st <? len section); [|exact Hall].
  set (chunk_text := strip (slice section (start st) _)).
  set (chunks1 := if truthy chunk_text then _ else chunks st).
  assert (Hc1 : Forall proper_chunk chunks1).
  { subst chunks1. destruct (truthy chunk_text) eqn:Et; [|exact Hall].
    apply Forall_app. split; [exact Hall|].
    constructor; [|constructor]. split; simpl.
    - now apply truthy_true_iff.
    - apply strip_trimmed. }
  clearbody chunks1.
  destruct (len section <=? _); exact Hc1.
Qed.

Lemma chunk_iter_proper self section n : forall st,
  Forall proper_chunk (chunks st) ->
  match chunk_iter n self section st with
  | Continue st' => Forall proper_chunk (chunks st')
  | Exit cs => Forall proper_chunk cs
  end.
Proof.
  induction n as [|n IH]; intros st Hall; simpl; [exact Hall|].
  pose proof (chunk_step_proper self section st Hall) as Hstep.
  destruct (chunk_step self section st) as [st'|cs]; [|exact Hstep].
  now apply IH.
Qed.

Lemma chunk_loop_proper self section fuel : forall st cs,
  Forall proper_chunk (chunks st) ->
  chunk_loop fuel self section st = Some cs -> Forall proper_chunk cs.
Proof.
  induction fuel as [|fuel IH]; intros st cs Hall; simpl; [discriminate|].
  pose proof (chunk_step_proper self section st Hall) as Hstep.
  destruct (chunk_step self section st) as [st'|cs'].
  - now apply IH.
  - intro H. inversion H; subst. exact Hstep.
Qed.

Lemma extend_loop_trimmed self fuel sections : forall acc cs,
  Forall (fun c => trimmed (text c)) acc ->
  extend_loop fuel self sections acc = Some cs ->
  Forall (fun c => trimmed (text c)) cs.
Proof.
  induction sections as [|s r IH]; intros acc cs Hacc; simpl.
  - intro H. now inversion H; subst.
  - destruct (_chunk_section fuel self s) as [sc|] eqn:E; [|discriminate].
    apply IH. apply Forall_app. split; [exact Hacc|].
    unfold _chunk_section in E.
    destruct (len s <=? chunk_size self).
    + inversion E. constructor; [apply strip_trimmed | constructor].
    + apply chunk_loop_proper in E; [|constructor].
      eapply Forall_impl; [|exact E]. intros c [_ Hc]. exact Hc.
Qed.

(** X4.  Every chunk that [chunk_markdown] returns is trimmed: its text has
    no leading or trailing whitespace.  The chunks made for a section longer
    than [chunk_size] are moreover never empty, after any number of rounds
    of the loop; an empty chunk can only come from a blank section of at
    most [chunk_size] characters. *)
Theorem chunks_are_trimmed self markdown :
  (forall fuel result0,
      chunk_markdown fuel self markdown = Some result0 ->
      Forall (fun c => trimmed (text c)) result0) /\
  (forall section n, Forall proper_chunk (emitted n self section)) /\
  (forall section fuel c,
      _chunk_section fuel self section = Some [c] -> text c = [] ->
      len section <= chunk_size self /\ strip section = []).
Proof.
  split; [|split].
  - intros fuel result0. unfold chunk_markdown.
    destruct (_ || _).
    + intro H. inversion H. constructor.
    + apply extend_loop_trimmed. constructor.
  - intros section n. unfold emitted.
    pose proof (chunk_iter_proper self section n initial_state
                  (Forall_nil _)) as H.
    destruct (chunk_iter n self section initial_state); exact H.
  - intros section fuel c Hc Hempty. unfold _chunk_section in Hc.
    destruct (len section <=? chunk_size self) eqn:E.
    + apply Z.leb_le in E. inversion Hc; subst. simpl in Hempty.
      split; assumption.
    + apply chunk_loop_proper in Hc; [|constructor].
      inversion Hc as [|? ? [Hne _] _]; subst. contradiction.
Qed.

Lemma chunks_are_trimmed_witness :
  len (py "   ") <= Chunker.chunk_size looping_chunker /\
  strip (py "   ") = [].
Proof.
  apply (proj2 (proj2 (chunks_are_trimmed looping_chunker [])) (py "   ")
           1%nat (plain_chunk [])); reflexivity.
Defined.

End ChunkerTrimmed.

(** ** The result of clean_repetitive_text is trimmed *)

Lemma rstrip_by_starts_clean p s :
  starts_clean s -> starts_clean (rstrip_by p s).
Proof.
  destruct s as [|c r]; [intros _; exact I|].
  intro Hc. rewrite rstrip_by_cons.
  destruct (rstrip_by p r); [destruct (p c); [exact I | exact Hc] | exact Hc].
Qed.

Lemma lstrip_starts_clean s : starts_clean (lstrip s).
Proof.
  unfold lstrip, lstrip_by.
  destruct (dropwhile isspace s) as [|c r] eqn:E; [exact I|].
  simpl. eapply dropwhile_head; eauto.
Qed.

Lemma starts_clean_lstrip s : starts_clean s -> lstrip s = s.
Proof.
  destruct s as [|c r]; [reflexivity|]. simpl. intro H.
  unfold lstrip, lstrip_by. simpl. now rewrite H.
Qed.

Lemma trimmed_intro s : starts_clean s -> rstrip s = s -> trimmed s.
Proof.
  intros H1 H2. unfold trimmed, strip. now rewrite starts_clean_lstrip.
Qed.

Lemma strip_starts_clean s : starts_clean (strip s).
Proof. apply rstrip_by_starts_clean, lstrip_starts_clean. Qed.

Lemma rstrip_strip s : rstrip (strip s) = strip s.
Proof. apply rstrip_by_idem. Qed.

Lemma starts_clean_app a b : a <> [] -> starts_clean a -> starts_clean (a ++ b).
Proof. destruct a; [congruence | auto]. Qed.

Lemma complete_last_sentence_clean r0 :
  starts_clean r0 -> rstrip r0 = r0 ->
  exists y, complete_last_sentence r0 = Ok y /\
            starts_clean y /\ rstrip y = y.
Proof.
  intros Hs Hr. unfold complete_last_sentence.
  destruct (truthy r0) eqn:Ht; [|now exists r0].
  destruct (py_last_returns r0 Ht) as [c Hc]. rewrite Hc. cbn [rbind Ok].
  destruct (negb (is_terminator c)); [|now exists r0].
  assert (Hls : returns (if contains [c_dot] r0
                         then py_last_item (split_on c_dot r0)
                         else Ok r0)).
  { destruct (contains _ _); [|apply returns_Ok].
    apply py_last_item_returns, split_on_go_nonempty. }
  destruct Hls as [ls Hls]. rewrite Hls. cbn [rbind Ok].
  destruct (10 <? len (strip ls)); [|now exists r0].
  set (r1 := rstrip (rstrip_chars (py "...") r0)).
  assert (Hs1 : starts_clean r1).
  { subst r1. apply rstrip_by_starts_clean.
    unfold rstrip_chars. now apply rstrip_by_starts_clean. }
  assert (Hr1 : rstrip r1 = r1) by (subst r1; apply rstrip_by_idem).
  clearbody r1.
  destruct (truthy r1) eqn:Ht1; [|now exists r1].
  destruct (py_last_returns r1 Ht1) as [c1 Hc1]. rewrite Hc1.
  cbn [rbind Ok].
  destruct (negb (is_terminator c1)); [|now exists r1].
  exists (r1 ++ [c_dot]). split; [reflexivity|]. split.
  - apply starts_clean_app; [now apply truthy_true_iff | exact Hs1].
  - apply rstrip_by_snoc, dot_not_space.
Qed.

Lemma clean_repetitive_text_clean text :
  exists y, clean_repetitive_text text = Ok y /\ trimmed y.
Proof.
  unfold clean_repetitive_text.
  destruct (negb (truthy text)) eqn:Ht.
  { apply negb_true_iff, truthy_false_iff in Ht. subst.
    exists []. split; reflexivity. }
  destruct (clean_loop_returns (re_split true text)
              {| cleaned_sentences := []; seen := [] |}) as [st Hst].
  rewrite Hst. cbn [rbind Ok].
  destruct (complete_last_sentence_clean
              (strip (join [] (cleaned_sentences st)))
              (strip_starts_clean _) (rstrip_strip _)) as (y & Hy & H1 & H2).
  exists y. split; [exact Hy | now apply trimmed_intro].
Qed.

(** X5.  [clean_repetitive_text] returns a trimmed string on every input:
    the result has no leading or trailing whitespace, also when a full stop
    has been appended to it. *)
Theorem clean_repetitive_text_trimmed text :
  exists cleaned,
    clean_repetitive_text text = Ok cleaned /\ strip cleaned = cleaned.
Proof. apply clean_repetitive_text_clean. Qed.

(** ** post_process_answer keeps a prefix *)

Lemma concat_re_split_go s : forall sep cur,
  concat (re_split_go true sep cur s)
  = match sep with
    | Some sp => rev sp
    | None => rev cur
    end ++ s.
Proof.
  induction s as [|c r IH]; intros sep cur.
  - destruct sep as [sp|]; simpl; now rewrite ?app_nil_r.
  - cbn [re_split_go]. destruct sep as [sp|].
    + destruct (isspace c).
      * rewrite IH. simpl. now rewrite <- app_assoc.
      * cbn [app concat].
        destruct (is_terminator c && starts_with_space r).
        -- cbn [concat app]. rewrite IH. reflexivity.
        -- rewrite IH. reflexivity.
    + destruct (is_terminator c && starts_with_space r).
      * cbn [concat]. rewrite IH. reflexivity.
      * rewrite IH. simpl. now rewrite <- app_assoc.
Qed.

Lemma concat_re_split s : concat (re_split true s) = s.
Proof. apply (concat_re_split_go s None []). Qed.

Lemma truncate_loop_prefix max_length sentences : forall acc n,
  exists k, truncate_loop max_length sentences acc n
            = acc ++ firstn k sentences.
Proof.
  induction sentences as [|s|s sep rest IH] using pairs_ind; intros acc n.
  - exists O. simpl. now rewrite app_nil_r.
  - simpl. destruct (max_length <? n + len s).
    + exists O. simpl. now rewrite app_nil_r.
    + exists 1%nat. reflexivity.
  - cbn [truncate_loop]. destruct (max_length <? n + len s).
    + exists O. simpl. now rewrite app_nil_r.
    + destruct (IH (acc ++ [s; sep]) (n + len s)) as [k Hk].
      exists (S (S k)). rewrite Hk. simpl. now rewrite <- app_assoc.
Qed.

(** X6.  [post_process_answer] only cuts: its result is a prefix of the
    cleaned answer, trimmed, and it is the cleaned answer itself when that
    has at most [max_length] characters. *)
Theorem post_process_answer_keeps_prefix answer max_length :
  exists cleaned kept dropped processed,
    clean_repetitive_text answer = Ok cleaned /\
    post_process_answer answer max_length = Ok processed /\
    cleaned = kept ++ dropped /\
    processed = strip kept /\
    (len cleaned <= max_length -> processed = cleaned).
Proof.
  destruct (clean_repetitive_text_clean answer) as (cleaned & Hc & Htrim).
  unfold post_process_answer.
  destruct (negb (truthy answer)) eqn:Ha.
  { apply negb_true_iff, truthy_false_iff in Ha. subst answer.
    exists [], [], [], []. repeat split; reflexivity. }
  rewrite Hc. cbn [rbind Ok].
  destruct (max_length <? len cleaned) eqn:E.
  - destruct (truncate_loop_prefix max_length (re_split true cleaned) [] 0)
      as [k Hk].
    exists cleaned, (concat (firstn k (re_split true cleaned))),
           (concat (skipn k (re_split true cleaned))).
    eexists.
    split; [reflexivity|]. split; [reflexivity|]. split; [|split].
    + rewrite <- concat_app, firstn_skipn. symmetry. apply concat_re_split.
    + rewrite Hk. simpl. now rewrite join_nil_concat.
    + apply Z.ltb_lt in E. lia.
  - exists cleaned, cleaned, [], cleaned.
    split; [reflexivity|]. split; [reflexivity|].
    split; [now rewrite app_nil_r|]. split; [now symmetry | reflexivity].
Qed.

Lemma post_process_answer_keeps_prefix_witness :
  exists cleaned kept dropped processed,
    clean_repetitive_text (py "One. Two. Three.") = Ok cleaned /\
    post_process_answer (py "One. Two. Three.") 6 = Ok processed /\
    cleaned = kept ++ dropped /\
    processed = strip kept /\
    (len cleaned <= 6 -> processed = cleaned).
Proof. apply (post_process_answer_keeps_prefix (py "One. Two. Three.") 6). Defined.

(** ** The sentences kept by clean_repetitive_text *)

Lemma FOP_snoc {A} (R : A -> A -> Prop) l x :
  ForallOrdPairs R l -> Forall (fun a => R a x) l ->
  ForallOrdPairs R (l ++ [x]).
Proof.
  induction 1 as [|a l Ha Hl IH]; intro Hx.
  - simpl. constructor; constructor.
  - inversion Hx; subst. simpl. constructor.
    + apply Forall_app. split; [exact Ha | now constructor].
    + now apply IH.
Qed.

Lemma is_duplicate_false sentence seen0 :
  is_duplicate sentence seen0 = Ok false ->
  Forall (fun earlier => too_similar sentence earlier = Ok false) seen0.
Proof.
  induction seen0 as [|t r IH]; [constructor|].
  simpl. destruct (too_similar_returns sentence t) as [[|] Hb];
    rewrite Hb; cbn [rbind Ok]; [discriminate|].
  intro H. constructor; [exact Hb | now apply IH].
Qed.

Lemma not_duplicate_not_member sentence seen0 :
  words sentence <> [] ->
  is_duplicate sentence seen0 = Ok false ->
  PySet.mem sentence seen0 = false.
Proof.
  intros Hw Hd. destruct (PySet.mem sentence seen0) eqn:E; [|reflexivity].
  apply mem_In in E. apply is_duplicate_false in Hd.
  rewrite Forall_forall in Hd. specialize (Hd _ E).
  rewrite too_similar_self in Hd by exact Hw. discriminate.
Qed.

Lemma evens_snoc2 {A} (l : list A) a b :
  Nat.even (length l) = true -> evens (l ++ [a; b]) = evens l ++ [a].
Proof.
  induction l as [|x|x y r IH] using pairs_ind; intro He.
  - reflexivity.
  - discriminate.
  - change ((x :: y :: r) ++ [a; b]) with (x :: y :: (r ++ [a; b])).
    cbn [evens]. now rewrite IH.
Qed.

Lemma evens_snoc1 {A} (l : list A) a :
  Nat.even (length l) = true -> evens (l ++ [a]) = evens l ++ [a].
Proof.
  induction l as [|x|x y r IH] using pairs_ind; intro He.
  - reflexivity.
  - discriminate.
  - change ((x :: y :: r) ++ [a]) with (x :: y :: (r ++ [a])).
    cbn [evens]. now rewrite IH.
Qed.

Lemma clean_step_kept s_i sep st st' :
  Nat.even (length (cleaned_sentences st)) = true ->
  kept_ok st -> clean_step s_i sep st = Ok st' ->
  kept_ok st' /\
  (sep <> None -> Nat.even (length (cleaned_sentences st')) = true).
Proof.
  intros Heven (Hmap & Hnd & Hall). unfold clean_step.
  destruct (negb (truthy (strip s_i))) eqn:Ht.
  { intro H. inversion H; subst. repeat split; auto. }
  apply negb_false_iff, truthy_true_iff in Ht.
  destruct (is_duplicate_returns (strip s_i) (seen st)) as [[|] Hd];
    rewrite Hd; cbn [rbind Ok].
  { intro H. inversion H; subst. repeat split; auto. }
  intro H. inversion H; subst; clear H.
  cbn [cleaned_sentences seen].
  assert (Hmem : PySet.mem (strip s_i) (seen st) = false).
  { apply not_duplicate_not_member; [|exact Hd].
    now apply words_strip_nonempty. }
  unfold PySet.add. rewrite Hmem.
  unfold kept_ok. cbn [cleaned_sentences seen].
  split; [split; [|split]|].
  - destruct sep as [d|]; cbn [app].
    + rewrite evens_snoc2 by exact Heven.
      now rewrite map_app, Hmap.
    + rewrite evens_snoc1 by exact Heven.
      now rewrite map_app, Hmap.
  - apply FOP_snoc; [exact Hnd|]. now apply is_duplicate_false.
  - apply Forall_app. split; [exact Hall|].
    constructor; [|constructor]. split; [exact Ht | apply strip_trimmed].
  - intros Hsep. destruct sep as [d|]; [|congruence].
    cbn [app]. rewrite length_app. simpl length.
    rewrite Nat.add_comm. simpl. exact Heven.
Qed.

Lemma clean_loop_kept sentences : forall st,
  Nat.even (length (cleaned_sentences st)) = true -> kept_ok st ->
  exists st', clean_loop sentences st = Ok st' /\ kept_ok st'.
Proof.
  induction sentences as [|s|s sep rest IH] using pairs_ind;
    intros st Heven Hok.
  - exists st. split; [reflexivity | exact Hok].
  - cbn [clean_loop].
    destruct (clean_step_returns s None st) as [st' Hst'].
    exists st'. split; [exact Hst'|].
    now destruct (clean_step_kept s None st st' Heven Hok Hst').
  - rewrite clean_loop_pair.
    destruct (clean_step_returns s (Some sep) st) as [st1 Hst1].
    rewrite Hst1. cbn [rbind Ok].
    destruct (clean_step_kept s (Some sep) st st1 Heven Hok Hst1)
      as [Hok1 Heven1].
    apply IH; [apply Heven1; discriminate | exact Hok1].
Qed.

(** X7.  The sentences that [clean_repetitive_text] keeps, trimmed, are
    exactly the set [seen] in the order they were kept; none of them is
    blank, and none is a near-duplicate (word-set similarity above 0.8) of a
    sentence kept before it.  The result is built from the kept sentences
    and their delimiters. *)
Theorem clean_keeps_no_near_duplicates text :
  exists st,
    clean_loop (re_split true text) {| cleaned_sentences := []; seen := [] |}
    = Ok st /\
    map strip (evens (cleaned_sentences st)) = seen st /\
    no_near_duplicates (seen st) /\
    Forall (fun s => s <> [] /\ strip s = s) (seen st) /\
    (text <> [] ->
     clean_repetitive_text text
     = complete_last_sentence (strip (join [] (cleaned_sentences st)))).
Proof.
  destruct (clean_loop_kept (re_split true text)
              {| cleaned_sentences := []; seen := [] |})
    as (st & Hst & Hmap & Hnd & Hall).
  - reflexivity.
  - split; [reflexivity|]. split; constructor.
  - exists st. repeat split; auto.
    intro Hne. unfold clean_repetitive_text.
    apply truthy_true_iff in Hne. rewrite Hne. cbn [negb].
    now rewrite Hst.
Qed.

Lemma clean_keeps_no_near_duplicates_witness :
  exists st,
    clean_loop (re_split true (py "A cat sat. A cat sat. A dog ran."))
               {| cleaned_sentences := []; seen := [] |} = Ok st /\
    map strip (evens (cleaned_sentences st)) = seen st /\
    no_near_duplicates (seen st) /\
    Forall (fun s => s <> [] /\ strip s = s) (seen st) /\
    (py "A cat sat. A cat sat. A dog ran." <> [] ->
     clean_repetitive_text (py "A cat sat. A cat sat. A dog ran.")
     = complete_last_sentence (strip (join [] (cleaned_sentences st)))).
Proof.
  apply (clean_keeps_no_near_duplicates (py "A cat sat. A cat sat. A dog ran.")).
Defined.

(** ** Verdicts of validate_answer_quality *)

Lemma check_context_overlap_verdict `{UnicodeTables} answer ctxs :
  check_context_overlap answer ctxs = Ok (true, None) \/
  exists reason, check_context_overlap answer ctxs = Ok (false, Some reason).
Proof.
  unfold check_context_overlap.
  match goal with |- context [0 <? ?x] => destruct (0 <? x) eqn:E end;
    [|now left].
  apply Z.ltb_lt in E. rewrite py_truediv_pos by exact E.
  unfold rbind, Ok.
  repeat match goal with
         | |- context [if ?b then _ else _] => destruct b
         end; (now left) || (right; eexists; reflexivity).
Qed.

(** X8.  [validate_answer_quality] returns [(True, None)] or [(False,
    reason)], never any other pair.  A valid verdict guarantees that the
    trimmed answer is not empty, has between [min_length] and [max_length]
    characters and is not flagged by [detect_repetition]; without contexts
    these conditions are also sufficient. *)
Theorem validate_answer_quality_verdict `{UnicodeTables}
    answer min_length max_length contexts :
  exists is_valid error_msg,
    validate_answer_quality answer min_length max_length contexts
    = Ok (is_valid, error_msg) /\
    (is_valid = true <-> error_msg = None) /\
    (is_valid = true ->
     strip answer <> [] /\
     min_length <= len (strip answer) <= max_length /\
     detect_repetition (strip answer) = Ok false) /\
    (contexts = None \/ contexts = Some [] ->
     strip answer <> [] ->
     min_length <= len (strip answer) <= max_length ->
     detect_repetition (strip answer) = Ok false ->
     is_valid = true).
Proof.
  unfold validate_answer_quality.
  destruct (negb (truthy answer) || negb (truthy (strip answer))) eqn:Eb.
  { exists false, (Some AnswerEmpty). split; [reflexivity|].
    split; [split; discriminate|]. split; [discriminate|].
    intros _ Hne. exfalso. apply orb_true_iff in Eb.
    destruct Eb as [Eb|Eb]; apply negb_true_iff, truthy_false_iff in Eb.
    - subst answer. now apply Hne.
    - contradiction. }
  apply orb_false_iff in Eb. destruct Eb as [_ Eb].
  apply negb_false_iff, truthy_true_iff in Eb.
  destruct (len (strip answer) <? min_length) eqn:Elo.
  { exists false, (Some (AnswerTooShort min_length)).
    split; [reflexivity|]. split; [split; discriminate|].
    split; [discriminate|]. apply Z.ltb_lt in Elo. intros; lia. }
  apply Z.ltb_ge in Elo.
  destruct (max_length <? len (strip answer)) eqn:Ehi.
  { exists false, (Some (AnswerTooLong max_length)).
    split; [reflexivity|]. split; [split; discriminate|].
    split; [discriminate|]. apply Z.ltb_lt in Ehi. intros; lia. }
  apply Z.ltb_ge in Ehi.
  destruct (detect_repetition_returns (strip answer)) as [[|] Hrep];
    rewrite Hrep; cbn [rbind Ok].
  { exists false, (Some AnswerRepetitive).
    split; [reflexivity|]. split; [split; discriminate|].
    split; [discriminate|]. intros; discriminate. }
  destruct contexts as [[|c cs]|].
  - exists true, None. repeat split; auto; lia.
  - cbv beta iota.
    destruct (check_context_overlap_verdict (strip answer) (c :: cs))
      as [Hv|[reason Hv]]; rewrite Hv.
    + exists true, None. repeat split; auto; lia.
    + exists false, (Some reason). split; [reflexivity|].
      split; [split; discriminate|]. split; [discriminate|].
      intros [Hc|Hc]; discriminate.
  - exists true, None. repeat split; auto; lia.
Qed.

Lemma validate_answer_quality_verdict_witness :
  exists is_valid error_msg,
    validate_answer_quality (U := ascii_tables)
      (py "A short but sufficient answer.") 10 2000 None
    = Ok (is_valid, error_msg) /\
    (is_valid = true <-> error_msg = None) /\
    (is_valid = true ->
     strip (py "A short but sufficient answer.") <> [] /\
     10 <= len (strip (py "A short but sufficient answer.")) <= 2000 /\
     detect_repetition (strip (py "A short but sufficient answer."))
     = Ok false) /\
    (@None (list str) = None \/ @None (list str) = Some [] ->
     strip (py "A short but sufficient answer.") <> [] ->
     10 <= len (strip (py "A short but sufficient answer.")) <= 2000 ->
     detect_repetition (strip (py "A short but sufficient answer."))
     = Ok false ->
     is_valid = true).
Proof.
  apply (@validate_answer_quality_verdict ascii_tables
           (py "A short but sufficient answer.") 10 2000 None).
Defined.

(** ** The query prompt *)

Lemma len_QUERY_PROMPT sys ctx q :
  len (QUERY_PROMPT sys ctx q)
  = len (QUERY_PROMPT [] [] []) + len sys + len ctx + len q.
Proof.
  unfold QUERY_PROMPT. rewrite !len_app.
  change (len []) with 0. lia.
Qed.

Lemma slice_to_length t n : 0 <= n -> len (slice_to t n) <= n.
Proof.
  intro Hn. rewrite slice_to_firstn by exact Hn.
  unfold len. rewrite length_firstn. lia.
Qed.

(** X9.  [build_query_prompt] puts the system prompt (the default one when
    none or an empty one is given), the context block and the question into
    the fixed template.  The context block is the contexts joined by blank
    lines when that has at most [max_context_length] characters; otherwise
    it is cut, so for [max_context_length >= 0] the prompt never has more
    than [max_context_length + 3] characters of context. *)
Theorem build_query_prompt_budget query contexts system_prompt
    max_context_length :
  0 <= max_context_length ->
  (len (join (py "

") contexts) <= max_context_length ->
   build_query_prompt query contexts system_prompt max_context_length
   = QUERY_PROMPT (RAGPromptTemplate.get_system_prompt system_prompt)
                  (join (py "

") contexts) query) /\
  len (build_query_prompt query contexts system_prompt max_context_length)
  <= len (QUERY_PROMPT [] [] [])
     + len (RAGPromptTemplate.get_system_prompt system_prompt)
     + (max_context_length + 3) + len query /\
  (system_prompt = None \/ system_prompt = Some [] ->
   RAGPromptTemplate.get_system_prompt system_prompt
   = RAGPromptTemplate.SYSTEM_PROMPT).
Proof.
  intro Hm. unfold build_query_prompt. split; [|split].
  - intro Hle. apply Z.ltb_ge in Hle. now rewrite Hle.
  - rewrite len_QUERY_PROMPT.
    destruct (max_context_length <? len (join _ contexts)) eqn:E.
    + rewrite len_app. pose proof (slice_to_length (join (py "

") contexts) max_context_length Hm).
      change (len (py "...")) with 3. lia.
    + apply Z.ltb_ge in E. lia.
  - intros [->| ->]; reflexivity.
Qed.

Lemma build_query_prompt_budget_witness :
  len (build_query_prompt (py "What is Rocq?") [passage; item_a] None 30)
  <= len (QUERY_PROMPT [] [] [])
     + len (RAGPromptTemplate.get_system_prompt None)
     + (30 + 3) + len (py "What is Rocq?").
Proof.
  apply (build_query_prompt_budget (py "What is Rocq?") [passage; item_a]
           None 30).
  lia.
Defined.

(** ** Calls made by the pipeline *)

Lemma trace_lift {A} (r : result A) : trace (lift r) = [].
Proof. reflexivity. Qed.

Lemma trace_try_except {A} (body : M A) (handler : exn -> M A) :
  (forall e, trace (handler e) = []) ->
  trace (try_except body handler) = trace body.
Proof.
  intro Hh. destruct body as [t [e|a]]; simpl; [|reflexivity].
  specialize (Hh e). destruct (handler e) as [t2 r2]. simpl in *.
  subst t2. apply app_nil_r.
Qed.

Lemma generate_with_llm_trace `{UnicodeTables} llm q vc sp :
  trace (generate_with_llm llm q vc sp)
  = [GenerateWithContext q vc (effective_prompt sp) 500].
Proof.
  unfold generate_with_llm.
  change (match sp with
          | Some p =>
              if truthy p then p else RAGPromptTemplate.get_system_prompt None
          | None => RAGPromptTemplate.get_system_prompt None
          end) with (effective_prompt sp).
  rewrite trace_mbind. unfold call, outcome at 1, trace at 1, trace at 1.
  simpl fst. simpl snd.
  destruct (generate_with_context llm q vc (effective_prompt sp) 500)
    as [e|raw]; [reflexivity|].
  rewrite trace_mbind, outcome_lift, trace_lift.
  destruct (post_process_answer raw 1000) as [e|ans]; [reflexivity|].
  cbn [app]. f_equal.
  destruct (existsb _ refusal_phrases); cbv iota.
  - destruct (context_has_keywords q vc); cbv iota; [reflexivity|].
    rewrite trace_mbind, outcome_lift, trace_lift.
    destruct (validate_answer_quality ans 10 2000 (Some vc))
      as [e|[[|] msg]]; reflexivity.
  - rewrite trace_mbind, outcome_lift, trace_lift.
    destruct (validate_answer_quality ans 10 2000 (Some vc))
      as [e|[[|] msg]]; [reflexivity|reflexivity|].
    cbv iota beta. cbn [negb app].
    destruct (truthy raw && (10 <=? len (strip raw))); cbv iota;
      [|reflexivity].
    rewrite trace_mbind, outcome_lift, trace_lift.
    destruct (detect_repetition raw) as [e|[|]]; reflexivity.
Qed.

Lemma generate_trace `{UnicodeTables} self q ctxs use_llm sp :
  trace (generate self q ctxs use_llm sp) = [] \/
  trace (generate self q ctxs use_llm sp) = [Initialize] \/
  exists vc,
    trace (generate self q ctxs use_llm sp)
    = [GenerateWithContext q vc (effective_prompt sp) 500] \/
    trace (generate self q ctxs use_llm sp)
    = [Initialize; GenerateWithContext q vc (effective_prompt sp) 500].
Proof.
  unfold generate.
  destruct (is_empty ctxs); [now left|].
  set (vc := filter _ ctxs).
  destruct (is_empty vc); [now left|].
  destruct use_llm; [|now left].
  destruct (llm_manager self) as [llm|]; [|now left].
  rewrite trace_mbind.
  destruct (is_loaded llm); cbn [negb].
  - right; right. exists vc. left.
    cbn. rewrite trace_try_except by reflexivity.
    apply generate_with_llm_trace.
  - unfold call at 1, outcome at 1, trace at 1, trace at 1.
    simpl fst. simpl snd.
    destruct (initialize llm) as [e|[]]; [right; now left|].
    right; right. exists vc. right.
    rewrite trace_try_except by reflexivity.
    now rewrite generate_with_llm_trace.
Qed.

(** X10.  One call of [run] calls the search at most once, loads the model
    at most once and calls the generation at most once, in this order, and
    never calls the generation without having searched; the generation gets
    the caller's system prompt, or the default one when none or an empty one
    is given, and a budget of 500 tokens. *)
Theorem run_calls_collaborators_once `{UnicodeTables} self q k use_llm sp :
  allowed_trace q k sp (trace (run self q k use_llm sp)).
Proof.
  destruct (str_eq_dec (strip q) []) as [Hq|Hq].
  { destruct (run_rejects_bad_arguments self q k use_llm sp (or_introl Hq))
      as [msg Hm]. rewrite Hm. now left. }
  destruct (Z_lt_le_dec 0 k) as [Hk|Hk].
  2:{ destruct (run_rejects_bad_arguments self q k use_llm sp (or_intror Hk))
        as [msg Hm]. rewrite Hm. now left. }
  rewrite (run_unfold self q k use_llm sp Hq Hk), trace_mbind.
  unfold call, outcome at 1, trace at 1, trace at 1. simpl fst. simpl snd.
  destruct (search_similar (vector_repository self) q k) as [e|rs];
    [right; now left|].
  cbv zeta.
  destruct (is_empty rs); [right; now left|].
  destruct (is_empty (filter relevant rs)); [right; now left|].
  destruct (is_empty (filter useful _)); [right; now left|].
  rewrite trace_mbind.
  assert (Htail : forall a : str,
            trace (mret {| query := q; answer := a;
                           contexts := filter useful
                                         (map text (filter relevant rs));
                           sources := filter relevant rs; top_k := k |})
            = []) by reflexivity.
  destruct (generate_trace self q
              (filter useful (map text (filter relevant rs))) use_llm sp)
    as [Hg|[Hg|[vc [Hg|Hg]]]];
    destruct (outcome (generate self q _ use_llm sp)) as [e|a];
    rewrite ?Htail, ?app_nil_r, Hg; cbn [app].
  all: try (right; left; reflexivity).
  all: try (right; right; left; reflexivity).
  all: right; right; right; exists vc; (now left) || (now right).
Qed.

(** X11.  [run] checks its arguments before anything else: with a blank
    query or [top_k <= 0] it raises [ValueError] without calling a
    collaborator, and with good arguments its first call is the search for
    that query and [top_k]. *)
Theorem run_checks_arguments_first `{UnicodeTables} self q k use_llm sp :
  (strip q = [] \/ k <= 0 ->
   exists msg, run self q k use_llm sp = ([], Raise (ValueError msg))) /\
  (strip q <> [] -> 0 < k ->
   exists rest, trace (run self q k use_llm sp) = SearchSimilar q k :: rest).
Proof.
  split; [apply run_rejects_bad_arguments|].
  intros Hq Hk. rewrite (run_unfold self q k use_llm sp Hq Hk), trace_mbind.
  unfold call, outcome at 1, trace at 1, trace at 1. simpl fst. simpl snd.
  destruct (search_similar (vector_repository self) q k);
    eexists; reflexivity.
Qed.

Lemma run_checks_arguments_first_witness :
  exists msg,
    run (U := ascii_tables) (pipeline_without_llm []) (py "   ") 5 true None
    = ([], Raise (ValueError msg)).
Proof.
  apply (proj1 (@run_checks_arguments_first ascii_tables
                  (pipeline_without_llm []) (py "   ") 5 true None)).
  left. reflexivity.
Defined.

(** X12.  A failure of the search is passed on unchanged: [run] raises the
    same exception, and neither loads the model nor calls the generation. *)
Theorem run_propagates_search_failure `{UnicodeTables}
    self q k use_llm sp e :
  strip q <> [] -> 0 < k ->
  search_similar (vector_repository self) q k = Raise e ->
  run self q k use_llm sp = ([SearchSimilar q k], Raise e).
Proof.
  intros Hq Hk He. rewrite (run_unfold self q k use_llm sp Hq Hk).
  unfold call. rewrite He. reflexivity.
Qed.

Lemma run_propagates_search_failure_witness :
  run (U := ascii_tables)
      {| vector_repository :=
           {| search_similar :=
                fun _ _ => Raise (RuntimeError
                                    (py "Vector repository is not initialized")) |};
         llm_manager := Some failing_llm |}
      (py "What is Rocq?") 5 true None
  = ([SearchSimilar (py "What is Rocq?") 5],
     Raise (RuntimeError (py "Vector repository is not initialized"))).
Proof.
  apply (@run_propagates_search_failure ascii_tables).
  - vm_compute. discriminate.
  - lia.
  - reflexivity.
Defined.

(** ** Errors and answers of the pipeline *)

Lemma generate_raises `{UnicodeTables} self q ctxs use_llm sp e :
  outcome (generate self q ctxs use_llm sp) = Raise e ->
  use_llm = true /\
  exists llm, llm_manager self = Some llm /\ is_loaded llm = false /\
              initialize llm = Raise e.
Proof.
  unfold generate.
  destruct (is_empty ctxs); [discriminate|].
  set (vc := filter _ ctxs).
  destruct (is_empty vc); [discriminate|].
  destruct use_llm; [|discriminate].
  destruct (llm_manager self) as [llm|]; [|discriminate].
  rewrite outcome_mbind.
  destruct (is_loaded llm) eqn:El; cbn [negb].
  - unfold mret at 1, outcome at 1. simpl snd. cbv iota beta.
    rewrite outcome_try_except.
    destruct (outcome (generate_with_llm llm q vc sp)); discriminate.
  - unfold call at 1, outcome at 1. simpl snd.
    destruct (initialize llm) as [e'|[]] eqn:Ei.
    + intro E. inversion E; subst. split; [reflexivity|].
      exists llm. repeat split; assumption.
    + rewrite outcome_try_except.
      destruct (outcome (generate_with_llm llm q vc sp)); discriminate.
Qed.

(** X13.  The only exceptions that leave [run] are: [ValueError] for a blank
    query or [top_k <= 0]; the exception of the search, passed on; and the
    exception of [initialize()] when the language model is used and not
    loaded yet.  Nothing raised by the generation call or by the text
    quality functions leaves [run]. *)
Theorem run_raises_only `{UnicodeTables} self q k use_llm sp e :
  outcome (run self q k use_llm sp) = Raise e ->
  (exists msg, e = ValueError msg /\ (strip q = [] \/ k <= 0)) \/
  (strip q <> [] /\ 0 < k /\
   (search_similar (vector_repository self) q k = Raise e \/
    (use_llm = true /\
     exists llm, llm_manager self = Some llm /\ is_loaded llm = false /\
                 initialize llm = Raise e))).
Proof.
  intro Hr.
  destruct (str_eq_dec (strip q) []) as [Hq|Hq].
  { destruct (run_rejects_bad_arguments self q k use_llm sp (or_introl Hq))
      as [msg Hm]. rewrite Hm in Hr. inversion Hr. left. exists msg. auto. }
  destruct (Z_lt_le_dec 0 k) as [Hk|Hk].
  2:{ destruct (run_rejects_bad_arguments self q k use_llm sp (or_intror Hk))
        as [msg Hm]. rewrite Hm in Hr. inversion Hr. left. exists msg. auto. }
  right. split; [exact Hq|]. split; [exact Hk|].
  rewrite (run_unfold self q k use_llm sp Hq Hk), outcome_mbind in Hr.
  unfold call, outcome at 1 in Hr. simpl snd in Hr.
  destruct (search_similar (vector_repository self) q k) as [e'|rs].
  { left. inversion Hr. reflexivity. }
  right. cbv zeta in Hr.
  destruct (is_empty rs); [discriminate|].
  destruct (is_empty (filter relevant rs)); [discriminate|].
  destruct (is_empty (filter useful _)); [discriminate|].
  rewrite outcome_mbind in Hr.
  destruct (outcome (generate self q _ use_llm sp)) as [e'|a] eqn:Eg;
    [|discriminate].
  inversion Hr; subst. eapply generate_raises; eauto.
Qed.

Lemma run_raises_only_witness :
  (exists msg,
      OtherError (py "model loading failed") = ValueError msg /\
      (strip (py "What is Rocq?") = [] \/ 5 <= 0)) \/
  (strip (py "What is Rocq?") <> [] /\ 0 < 5 /\
   (search_similar (fixed_repository [found passage (9 # 10)])
                   (py "What is Rocq?") 5
    = Raise (OtherError (py "model loading failed")) \/
    (true = true /\
     exists llm, Some unloadable_llm = Some llm /\ is_loaded llm = false /\
                 initialize llm
                 = Raise (OtherError (py "model loading failed"))))).
Proof.
  apply (@run_raises_only ascii_tables
           {| vector_repository := fixed_repository [found passage (9 # 10)];
              llm_manager := Some unloadable_llm |}
           (py "What is Rocq?") 5 true None
           (OtherError (py "model loading failed"))).
  vm_compute. reflexivity.
Defined.

(** X14.  A result without contexts was made without the language model:
    its answer is one of the three fixed sentences, and the search is the
    only collaborator that was called. *)
Theorem run_without_contexts_skips_generation `{UnicodeTables} self q k use_llm sp r :
  outcome (run self q k use_llm sp) = Ok r -> contexts r = [] ->
  In (answer r) canned_answers /\
  trace (run self q k use_llm sp) = [SearchSimilar q k].
Proof.
  intros Hr Hc.
  destruct (run_cases self q k use_llm sp r Hr) as (Hq & Hk & rs & Hrs & Hcase).
  assert (Ht : trace (run self q k use_llm sp) = [SearchSimilar q k]).
  { rewrite (run_unfold self q k use_llm sp Hq Hk), trace_mbind.
    unfold call, outcome at 1, trace at 1, trace at 1. simpl fst. simpl snd.
    rewrite Hrs. unfold Ok at 1. cbv iota beta zeta.
    cbv zeta in Hcase.
    destruct Hcase as [[E _]|[(_ & E & _)|[(_ & E & _)|(Hne & a & _ & Hra)]]].
    - rewrite E. reflexivity.
    - destruct (is_empty rs); [reflexivity|]. rewrite E. reflexivity.
    - destruct (is_empty rs); [reflexivity|].
      destruct (is_empty (filter relevant rs)); [reflexivity|].
      rewrite E. reflexivity.
    - subst r. cbn [contexts] in Hc. contradiction. }
  split; [|exact Ht].
  cbv zeta in Hcase.
  unfold canned_answers. cbn [In].
  destruct Hcase as [[_ E]|[(_ & _ & E)|[(_ & _ & E)|(Hne & a & _ & Hra)]]];
    subst r; unfold no_documents, nothing_relevant, nothing_useful;
    cbn [answer].
  - left. exact eq_refl.
  - right; left. exact eq_refl.
  - right; right; left. exact eq_refl.
  - cbn [contexts] in Hc. contradiction.
Qed.

Lemma run_without_contexts_skips_generation_witness :
  In (answer (nothing_useful (py "What is Rocq?") 5
                             [found (py "Too short.") (8 # 10)]))
     canned_answers /\
  trace (run (U := ascii_tables)
             {| vector_repository :=
                  fixed_repository [found (py "Too short.") (8 # 10)];
                llm_manager := Some unloadable_llm |}
             (py "What is Rocq?") 5 true None)
  = [SearchSimilar (py "What is Rocq?") 5].
Proof.
  apply (@run_without_contexts_skips_generation ascii_tables
           {| vector_repository :=
                fixed_repository [found (py "Too short.") (8 # 10)];
              llm_manager := Some unloadable_llm |}
           (py "What is Rocq?") 5 true None).
  - vm_compute. reflexivity.
  - reflexivity.
Defined.

Lemma generate_with_llm_origin `{UnicodeTables} llm q vc sp a :
  outcome (generate_with_llm llm q vc sp) = Ok a ->
  a = simple_response q vc \/
  exists raw,
    generate_with_context llm q vc (effective_prompt sp) 500 = Ok raw /\
    ((exists msg,
         post_process_answer raw 1000 = Ok a /\
         validate_answer_quality a 10 2000 (Some vc) = Ok (true, msg)) \/
     (a = raw /\ detect_repetition raw = Ok false /\ 10 <= len (strip raw))).
Proof.
  unfold generate_with_llm.
  change (match sp with
          | Some p =>
              if truthy p then p else RAGPromptTemplate.get_system_prompt None
          | None => RAGPromptTemplate.get_system_prompt None
          end) with (effective_prompt sp).
  rewrite outcome_mbind. unfold call, outcome at 1. simpl snd.
  destruct (generate_with_context llm q vc (effective_prompt sp) 500)
    as [e|raw]; [discriminate|].
  rewrite outcome_mbind, outcome_lift.
  destruct (post_process_answer raw 1000) as [e|ans] eqn:Ep; [discriminate|].
  destruct (existsb _ refusal_phrases); cbv iota.
  - destruct (context_has_keywords q vc); cbv iota.
    + intro Ha. inversion Ha. now left.
    + rewrite outcome_mbind, outcome_lift.
      destruct (validate_answer_quality ans 10 2000 (Some vc))
        as [e|[[|] msg]] eqn:Ev; [discriminate| |]; simpl;
        intro Ha; inversion Ha; subst; [|now left].
      right. exists raw. split; [reflexivity|]. left. exists msg. now split.
  - rewrite outcome_mbind, outcome_lift.
    destruct (validate_answer_quality ans 10 2000 (Some vc))
      as [e|[[|] msg]] eqn:Ev; [discriminate| |]; cbv iota beta.
    + simpl. intro Ha. inversion Ha; subst.
      right. exists raw. split; [reflexivity|]. left. exists msg. now split.
    + cbn [negb].
      destruct (truthy raw && (10 <=? len (strip raw))) eqn:Eraw; cbv iota.
      * rewrite outcome_mbind, outcome_lift.
        destruct (detect_repetition raw) as [e|[|]] eqn:Ed; [discriminate| |];
          simpl; intro Ha; injection Ha as <-; [now left|].
        right. exists raw. split; [reflexivity|]. right.
        apply andb_true_iff in Eraw. destruct Eraw as [_ El].
        apply Z.leb_le in El. now repeat split.
      * intro Ha. inversion Ha. now left.
Qed.

Lemma generate_origin `{UnicodeTables} self q l use_llm sp a :
  filter useful l <> [] ->
  outcome (generate self q (filter useful l) use_llm sp) = Ok a ->
  a = simple_response q (filter useful l) \/
  (use_llm = true /\
   exists llm raw,
     llm_manager self = Some llm /\
     generate_with_context llm q (filter useful l)
                           (effective_prompt sp) 500 = Ok raw /\
     ((exists msg,
          post_process_answer raw 1000 = Ok a /\
          validate_answer_quality a 10 2000 (Some (filter useful l))
          = Ok (true, msg)) \/
      (a = raw /\ detect_repetition raw = Ok false /\
       10 <= len (strip raw)))).
Proof.
  intros Hne. unfold generate.
  rewrite revalidation_keeps_all.
  destruct (filter useful l) as [|c vc] eqn:Evc; [congruence|].
  cbn [is_empty].
  destruct use_llm; [|intro Ha; inversion Ha; now left].
  destruct (llm_manager self) as [llm|]; [|intro Ha; inversion Ha; now left].
  rewrite outcome_mbind.
  destruct (outcome (if negb (is_loaded llm)
                     then call Initialize (initialize llm)
                     else mret tt)) as [e|[]]; [discriminate|].
  rewrite outcome_try_except.
  destruct (outcome (generate_with_llm llm q (c :: vc) sp)) as [e|a'] eqn:Eg.
  - intro Ha. inversion Ha. now left.
  - intro Ha. inversion Ha; subst a'.
    destruct (generate_with_llm_origin llm q (c :: vc) sp a Eg)
      as [Hs|(raw & Hraw & Hor)]; [now left|].
    right. split; [reflexivity|]. exists llm, raw. auto.
Qed.

Lemma run_origin `{UnicodeTables} self q k use_llm sp r :
  outcome (run self q k use_llm sp) = Ok r -> contexts r <> [] ->
  answer_origin self use_llm sp r.
Proof.
  intros Hr Hc.
  destruct (run_cases self q k use_llm sp r Hr) as (Hq & Hk & rs & Hrs & Hcase).
  cbv zeta in Hcase.
  destruct Hcase as [[_ E]|[(_ & _ & E)|[(_ & _ & E)|(Hne & a & Ha & Hra)]]];
    try (subst r; cbn [contexts no_documents nothing_relevant nothing_useful]
           in Hc; congruence).
  subst r. unfold answer_origin. cbn [answer query contexts].
  now apply generate_origin.
Qed.

(** X15.  The answer of a result with contexts is the template over exactly
    these contexts, or comes from one generation call that was given exactly
    these contexts: it is the post-processed output when that passes the
    quality check against the contexts, or the output as generated when that
    has at least 10 characters after trimming and does not repeat itself. *)
Theorem run_answer_origin `{UnicodeTables} self q k use_llm sp r :
  outcome (run self q k use_llm sp) = Ok r -> contexts r <> [] ->
  answer_origin self use_llm sp r.
Proof. apply run_origin. Qed.

Lemma run_answer_origin_witness :
  answer_origin (U := ascii_tables)
    {| vector_repository := fixed_repository [found passage (9 # 10)];
       llm_manager := Some (answering_llm generated_answer) |}
    true None
    {| query := py "What is Rocq?"; answer := generated_answer;
       contexts := [passage]; sources := [found passage (9 # 10)];
       top_k := 5 |}.
Proof.
  apply (@run_answer_origin ascii_tables
           {| vector_repository := fixed_repository [found passage (9 # 10)];
              llm_manager := Some (answering_llm generated_answer) |}
           (py "What is Rocq?") 5 true None).
  - vm_compute. reflexivity.
  - discriminate.
Defined.

(** X16.  With good arguments, a search that answers and a language model
    that is loaded or loads, [run] returns a result: it echoes the query and
    [top_k], and its answer is not empty, whatever the generation call
    returns or raises. *)
Theorem run_returns_when_ready `{UnicodeTables} self q k use_llm sp rs :
  strip q <> [] -> 0 < k ->
  search_similar (vector_repository self) q k = Ok rs ->
  llm_ready self use_llm ->
  exists r, outcome (run self q k use_llm sp) = Ok r /\
            query r = q /\ top_k r = k /\ answer r <> [].
Proof.
  intros Hq Hk Hrs Hready.
  destruct (run_returns self q k use_llm sp rs Hq Hk Hrs Hready)
    as (r & Hr & Hne).
  exists r. split; [exact Hr|].
  destruct (run_cases self q k use_llm sp r Hr) as (_ & _ & rs' & _ & Hcase).
  cbv zeta in Hcase.
  destruct Hcase as [[_ E]|[(_ & _ & E)|[(_ & _ & E)|(_ & a & _ & E)]]];
    rewrite E in *; repeat split; try reflexivity; exact Hne.
Qed.

Lemma run_returns_when_ready_witness :
  exists r,
    outcome (run (U := ascii_tables)
               {| vector_repository := fixed_repository [found passage (9 # 10)];
                  llm_manager := Some failing_llm |}
               (py "What is Rocq?") 5 true None) = Ok r /\
    query r = py "What is Rocq?" /\ top_k r = 5 /\ answer r <> [].
Proof.
  apply (@run_returns_when_ready ascii_tables
           {| vector_repository := fixed_repository [found passage (9 # 10)];
              llm_manager := Some failing_llm |}
           (py "What is Rocq?") 5 true None [found passage (9 # 10)]).
  - vm_compute. discriminate.
  - lia.
  - reflexivity.
  - intros _ Hl. discriminate Hl.
Defined.

(** ** Output that repeats itself *)

Lemma lstrip_length s : len (lstrip s) <= len s.
Proof.
  unfold lstrip, lstrip_by, len.
  pose proof (dropwhile_length isspace s). lia.
Qed.

Lemma post_process_answer_repeated s n :
  no_terminator s = true -> strip s <> [] -> len s < 1000 ->
  post_process_answer (repeated s (S n)) 1000 = Ok (lstrip s ++ [c_dot]).
Proof.
  intros Hs Hne Hlen. unfold post_process_answer.
  assert (Ht : negb (truthy (repeated s (S n))) = false).
  { rewrite repeated_S. destruct s; reflexivity. }
  rewrite Ht, (clean_repeated s Hs Hne n). cbn [rbind Ok].
  assert (Hl : (1000 <? len (lstrip s ++ [c_dot])) = false).
  { apply Z.ltb_ge. rewrite len_app. pose proof (lstrip_length s).
    change (len [c_dot]) with 1. lia. }
  now rewrite Hl.
Qed.

(** X17.  When the generation call returns one sentence (without [. ! ?],
    20 to 999 characters) written twice or more, each copy followed by a
    full stop and a space, [run] never returns this output as it is: the
    answer is the sentence once, closed by a full stop, or the template over
    the contexts. *)
Theorem run_never_returns_repeated_output `{UnicodeTables} self q k sp r llm s n :
  outcome (run self q k true sp) = Ok r -> contexts r <> [] ->
  llm_manager self = Some llm ->
  generate_with_context llm q (contexts r) (effective_prompt sp) 500
  = Ok (repeated s n) ->
  no_terminator s = true -> strip s <> [] -> 20 <= len s < 1000 ->
  (2 <= n)%nat ->
  answer r = simple_response q (contexts r) \/
  answer r = lstrip s ++ [c_dot].
Proof.
  intros Hr Hc Hllm Hgen Hs Hne Hlen Hn.
  assert (Hq : query r = q).
  { destruct (run_cases self q k true sp r Hr) as (_ & _ & rs' & _ & Hcase).
    cbv zeta in Hcase.
    destruct Hcase as [[_ E]|[(_ & _ & E)|[(_ & _ & E)|(_ & a & _ & E)]]];
      rewrite E; reflexivity. }
  destruct (run_origin self q k true sp r Hr Hc)
    as [Ht|(_ & llm' & raw & Hllm' & Hraw & Hor)];
    rewrite Hq in *; [now left|].
  rewrite Hllm in Hllm'. injection Hllm' as <-.
  rewrite Hgen in Hraw. injection Hraw as <-.
  destruct Hor as [(msg & Hp & _)|(_ & Hd & _)].
  - right. destruct n as [|n]; [lia|].
    rewrite post_process_answer_repeated in Hp by (auto; lia).
    now injection Hp as <-.
  - rewrite detect_repetition_repeated in Hd by (auto; lia). discriminate.
Qed.

Lemma run_never_returns_repeated_output_witness :
  answer stuck_result
  = simple_response (py "What is Rocq?") (contexts stuck_result) \/
  answer stuck_result = lstrip stuck_sentence ++ [c_dot].
Proof.
  apply (@run_never_returns_repeated_output ascii_tables
           stuck_pipeline (py "What is Rocq?") 5 None stuck_result
           (answering_llm (repeated stuck_sentence 3)) stuck_sentence 3).
  - vm_compute. reflexivity.
  - discriminate.
  - reflexivity.
  - reflexivity.
  - vm_compute. reflexivity.
  - vm_compute. discriminate.
  - vm_compute. split; [discriminate | reflexivity].
  - lia.
Defined.

(* ================================================================== *)
(** * The vector repository                                             *)
(* ================================================================== *)

(** ** search_similar *)

Lemma convert_point_some point r :
  Qdrant.convert_point point = Some r ->
  well_formed r /\
  score r = match Qdrant.point_score point with
            | Some s => s
            | None => 1%Q
            end.
Proof.
  unfold Qdrant.convert_point.
  set (p := match Qdrant.payload point with
            | Some p => p
            | None => Qdrant.empty_payload
            end).
  set (t := match Qdrant.payload_text p with Some t => t | None => [] end).
  set (d := match Qdrant.payload_document_id p with
            | Some d => d
            | None => []
            end).
  destruct (negb (truthy t) || negb (truthy (strip t))) eqn:Et;
    [discriminate|].
  destruct (negb (truthy d)) eqn:Ed; [discriminate|].
  intro E. injection E as <-. cbn [text score metadata document_id].
  apply orb_false_iff in Et. destruct Et as [_ Et].
  apply negb_false_iff, truthy_true_iff in Et.
  apply negb_false_iff, truthy_true_iff in Ed.
  repeat split; assumption.
Qed.

Lemma convert_loop_spec points : forall results,
  Qdrant.convert_loop points results = results ++ converted points.
Proof.
  induction points as [|p rest IH]; intro results; cbn [Qdrant.convert_loop].
  - unfold converted. cbn [flat_map]. now rewrite app_nil_r.
  - unfold converted. cbn [flat_map]. fold (converted rest).
    destruct (Qdrant.convert_point p) as [r|].
    + rewrite IH, <- app_assoc. reflexivity.
    + apply IH.
Qed.

Lemma converted_well_formed points : Forall well_formed (converted points).
Proof.
  induction points as [|p rest IH]; [constructor|].
  unfold converted. cbn [flat_map]. fold (converted rest).
  destruct (Qdrant.convert_point p) as [r|] eqn:E; [|exact IH].
  cbn [app]. constructor; [|exact IH].
  now apply convert_point_some in E.
Qed.

Lemma converted_length points :
  (length (converted points) <= length points)%nat.
Proof.
  induction points as [|p rest IH]; [apply Nat.le_refl|].
  unfold converted. cbn [flat_map]. fold (converted rest).
  destruct (Qdrant.convert_point p); cbn [app length]; lia.
Qed.

Lemma search_similar_cases self q k rs :
  Qdrant.search_similar self q k = Ok rs ->
  exists c e points,
    Qdrant.client self = Some c /\
    Qdrant.generate_embedding self q = Ok e /\
    Qdrant.query_points c e k = Ok points /\
    rs = converted points.
Proof.
  unfold Qdrant.search_similar.
  destruct (Qdrant.client self) as [c|]; [|discriminate].
  destruct (Qdrant.generate_embedding self q) as [e'|e]; [discriminate|].
  cbn [rbind].
  destruct (Qdrant.query_points c e k) as [e'|points] eqn:Ep; [discriminate|].
  cbn [rbind]. intro E. injection E as <-.
  exists c, e, points. rewrite convert_loop_spec. auto.
Qed.

(** X18.  [search_similar] raises [RuntimeError] when the client is not
    set up.  What it returns are the converted points
    of the store's answer, in the store's order, without the points that
    have no text, a blank text or no document identifier: every result has a
    non-blank text and a document identifier, and there are at most as many
    results as points. *)
Theorem search_similar_results_well_formed self q k :
  (Qdrant.client self = None ->
   Qdrant.search_similar self q k
   = Raise (RuntimeError (py "Vector repository is not initialized"))) /\
  (forall rs,
      Qdrant.search_similar self q k = Ok rs ->
      Forall well_formed rs /\
      exists c e points,
        Qdrant.client self = Some c /\
        Qdrant.generate_embedding self q = Ok e /\
        Qdrant.query_points c e k = Ok points /\
        rs = converted points /\
        (length rs <= length points)%nat).
Proof.
  split.
  - intro Hc. unfold Qdrant.search_similar. now rewrite Hc.
  - intros rs Hrs.
    destruct (search_similar_cases self q k rs Hrs)
      as (c & e & points & Hc & He & Hp & ->).
    split; [apply converted_well_formed|].
    exists c, e, points. repeat split; auto using converted_length.
Qed.

Lemma search_similar_results_well_formed_witness :
  Qdrant.search_similar
    {| Qdrant.client := None;
       Qdrant.generate_embedding := fun _ => Ok [1%Q];
       Qdrant.generate_embeddings := fun _ => Ok [] |}
    (py "What is Rocq?") 5
  = Raise (RuntimeError (py "Vector repository is not initialized")).
Proof.
  apply (proj1 (search_similar_results_well_formed
                  {| Qdrant.client := None;
                     Qdrant.generate_embedding := fun _ => Ok [1%Q];
                     Qdrant.generate_embeddings := fun _ => Ok [] |}
                  (py "What is Rocq?") 5)).
  reflexivity.
Defined.

(** ** The pipeline over this repository *)

Lemma relevant_well_formed r :
  well_formed r -> relevant r = Qle_bool MIN_RELEVANCE_SCORE (score r).
Proof.
  intros [Ht _]. unfold relevant.
  assert (Hs : truthy (strip (text r)) = true) by now apply truthy_true_iff.
  assert (Hn : truthy (text r) = true).
  { apply truthy_true_iff. intro E. rewrite E in Ht. now apply Ht. }
  now rewrite Hs, Hn.
Qed.

Lemma filter_ext_Forall {A} (f g : A -> bool) (P : A -> Prop) l :
  Forall P l -> (forall x, P x -> f x = g x) -> filter f l = filter g l.
Proof.
  intros Hl Hfg. induction Hl as [|x l Hx Hl IH]; [reflexivity|].
  cbn [filter]. rewrite (Hfg x Hx), IH. reflexivity.
Qed.

(** X19.  Over this repository the relevance filter of [run] is a score
    filter only: the search never returns a result without text, so the
    [sources] of a result are the search results with a score of at least
    0.5, and each of them has a non-blank text and a document identifier. *)
Theorem run_over_repository_filters_by_score `{UnicodeTables} repo llm q k use_llm sp r :
  outcome (run {| vector_repository := repository_of repo;
                  llm_manager := llm |} q k use_llm sp) = Ok r ->
  exists rs,
    Qdrant.search_similar repo q k = Ok rs /\
    sources r
    = filter (fun x => Qle_bool MIN_RELEVANCE_SCORE (score x)) rs /\
    Forall well_formed (sources r).
Proof.
  intro Hr.
  destruct (run_sources_and_contexts _ q k use_llm sp r Hr)
    as [(rs & Hrs & Hsrc) _].
  cbn [vector_repository repository_of search_similar] in Hrs.
  exists rs. split; [exact Hrs|].
  assert (Hwf : Forall well_formed rs).
  { destruct (search_similar_cases repo q k rs Hrs)
      as (c & e & points & _ & _ & _ & ->).
    apply converted_well_formed. }
  assert (Hf : filter relevant rs
               = filter (fun x => Qle_bool MIN_RELEVANCE_SCORE (score x)) rs).
  { apply (filter_ext_Forall _ _ well_formed); auto using relevant_well_formed. }
  rewrite Hsrc, Hf. split; [reflexivity|].
  apply Forall_forall. intros x Hx. apply filter_In in Hx.
  rewrite Forall_forall in Hwf. now apply Hwf.
Qed.

Lemma run_over_repository_filters_by_score_witness :
  exists rs,
    Qdrant.search_similar (example_repository [unscored example_chunk])
                          (py "What is Rocq?") 5 = Ok rs /\
    sources {| query := py "What is Rocq?";
               answer := simple_response (py "What is Rocq?") [passage];
               contexts := [passage];
               sources := [found passage 1];
               top_k := 5 |}
    = filter (fun x => Qle_bool MIN_RELEVANCE_SCORE (score x)) rs /\
    Forall well_formed
      (sources {| query := py "What is Rocq?";
                  answer := simple_response (py "What is Rocq?") [passage];
                  contexts := [passage];
                  sources := [found passage 1];
                  top_k := 5 |}).
Proof.
  apply (@run_over_repository_filters_by_score ascii_tables
           (example_repository [unscored example_chunk]) None
           (py "What is Rocq?") 5 false None).
  vm_compute. reflexivity.
Defined.

(** ** save_chunks *)

Lemma metadata_eta (m : ChunkMetadata) :
  {| document_id := document_id m; chunk_index := chunk_index m;
     filename := filename m; file_type := file_type m |} = m.
Proof. destruct m; reflexivity. Qed.

Lemma convert_saved_point c e s :
  Qdrant.valid_chunk c = true ->
  Qdrant.convert_point
    (scored s {| Qdrant.vector := e;
                 Qdrant.point_payload := Qdrant.payload_of c |})
  = if truthy (document_id (Chunk.metadata c))
    then Some {| text := Chunk.text c; score := s;
                 metadata := Chunk.metadata c |}
    else None.
Proof.
  intro Hv. unfold Qdrant.valid_chunk in Hv.
  unfold Qdrant.convert_point, scored, Qdrant.payload_of.
  cbn [Qdrant.payload Qdrant.point_payload Qdrant.payload_text
       Qdrant.payload_document_id Qdrant.payload_chunk_index
       Qdrant.payload_filename Qdrant.payload_file_type Qdrant.point_score].
  apply andb_true_iff in Hv. destruct Hv as [H1 H2].
  rewrite H1, H2. cbn [negb orb].
  destruct (truthy (document_id (Chunk.metadata c))); cbn [negb];
    [|reflexivity].
  now rewrite metadata_eta.
Qed.

Lemma build_points_In valid embeddings p :
  In p (Qdrant.build_points valid embeddings) ->
  exists c e, In c valid /\
              p = {| Qdrant.vector := e;
                     Qdrant.point_payload := Qdrant.payload_of c |}.
Proof.
  unfold Qdrant.build_points. intro Hp.
  apply in_map_iff in Hp. destruct Hp as ([c e] & <- & Hin).
  exists c, e. split; [|reflexivity].
  now apply in_combine_l in Hin.
Qed.

Lemma build_points_length valid embeddings :
  length (Qdrant.build_points valid embeddings)
  = Nat.min (length valid) (length embeddings).
Proof.
  unfold Qdrant.build_points. now rewrite length_map, length_combine.
Qed.

Lemma save_chunks_cases self chunks points id :
  Qdrant.save_chunks self chunks = Ok (points, id) ->
  exists c first rest embeddings,
    Qdrant.client self = Some c /\
    filter Qdrant.valid_chunk chunks = first :: rest /\
    Qdrant.generate_embeddings self (map Chunk.text (first :: rest))
    = Ok embeddings /\
    points = Qdrant.build_points (first :: rest) embeddings /\
    Qdrant.upsert c points = Ok tt /\
    id = document_id (Chunk.metadata first).
Proof.
  unfold Qdrant.save_chunks.
  destruct (Qdrant.client self) as [c|]; [|discriminate].
  destruct (is_empty chunks); [discriminate|].
  destruct (filter Qdrant.valid_chunk chunks) as [|first rest] eqn:Ev;
    [discriminate|].
  destruct (Qdrant.generate_embeddings self _) as [e'|embeddings] eqn:Ee;
    [discriminate|].
  cbn [rbind].
  destruct (Qdrant.upsert c _) as [e'|[]] eqn:Eu; [discriminate|].
  cbn [rbind]. intro E. injection E as <- <-.
  exists c, first, rest, embeddings. repeat split; auto.
Qed.

Lemma saved_points_found self chunks points id p s :
  Qdrant.save_chunks self chunks = Ok (points, id) -> In p points ->
  exists c,
    In c chunks /\ strip (Chunk.text c) <> [] /\
    Qdrant.point_payload p = Qdrant.payload_of c /\
    Qdrant.convert_point (scored s p)
    = if truthy (document_id (Chunk.metadata c))
      then Some {| text := Chunk.text c; score := s;
                   metadata := Chunk.metadata c |}
      else None.
Proof.
  intros Hs Hp.
  destruct (save_chunks_cases self chunks points id Hs)
    as (c0 & first & rest & embeddings & _ & Hv & _ & -> & _ & _).
  apply build_points_In in Hp. destruct Hp as (c & e & Hc & ->).
  rewrite <- Hv in Hc. apply filter_In in Hc. destruct Hc as [Hc Hvalid].
  exists c. split; [exact Hc|]. split.
  - unfold Qdrant.valid_chunk in Hvalid. apply andb_true_iff in Hvalid.
    now apply truthy_true_iff.
  - split; [reflexivity|]. now apply convert_saved_point.
Qed.

(** X20.  What [save_chunks] writes, [search_similar] reads back: every
    point handed to the store comes from a chunk of the call with a
    non-blank text, and the search turns it into a result with the text and
    the metadata of this chunk and the score of the store.  A chunk that was
    stored with an empty document identifier is never found. *)
Theorem saved_chunks_are_found_unchanged self chunks points id p s :
  Qdrant.save_chunks self chunks = Ok (points, id) -> In p points ->
  exists c,
    In c chunks /\ strip (Chunk.text c) <> [] /\
    Qdrant.point_payload p = Qdrant.payload_of c /\
    Qdrant.convert_point (scored s p)
    = if truthy (document_id (Chunk.metadata c))
      then Some {| text := Chunk.text c; score := s;
                   metadata := Chunk.metadata c |}
      else None.
Proof. apply saved_points_found. Qed.

Lemma saved_chunks_are_found_unchanged_witness :
  exists c,
    In c [blank_chunk; example_chunk] /\ strip (Chunk.text c) <> [] /\
    Qdrant.point_payload
      {| Qdrant.vector := [1%Q];
         Qdrant.point_payload := Qdrant.payload_of example_chunk |}
    = Qdrant.payload_of c /\
    Qdrant.convert_point
      (scored (9 # 10)
              {| Qdrant.vector := [1%Q];
                 Qdrant.point_payload := Qdrant.payload_of example_chunk |})
    = if truthy (document_id (Chunk.metadata c))
      then Some {| text := Chunk.text c; score := 9 # 10;
                   metadata := Chunk.metadata c |}
      else None.
Proof.
  apply (saved_chunks_are_found_unchanged
           (example_repository []) [blank_chunk; example_chunk]
           [{| Qdrant.vector := [1%Q];
               Qdrant.point_payload := Qdrant.payload_of example_chunk |}]
           (py "doc-1")).
  - vm_compute. reflexivity.
  - left. reflexivity.
Defined.

(** X21.  [save_chunks] raises [RuntimeError] when the client is not set
    up, and [ValueError] for an empty list and for a list whose texts are
    all blank.  When it returns, the chunks with a blank text were left out,
    the number of points written is the smaller of the number of chunks
    left and the number of vectors that the embedding model gave (further
    chunks are dropped without an error), and the identifier returned is
    that of the first chunk with a non-blank text. *)
Theorem save_chunks_outcomes self chunks :
  (Qdrant.client self = None ->
   Qdrant.save_chunks self chunks
   = Raise (RuntimeError (py "Vector repository is not initialized"))) /\
  (Qdrant.client self <> None ->
   filter Qdrant.valid_chunk chunks = [] ->
   exists msg, Qdrant.save_chunks self chunks = Raise (ValueError msg)) /\
  (forall points id,
      Qdrant.save_chunks self chunks = Ok (points, id) ->
      exists first rest embeddings,
        filter Qdrant.valid_chunk chunks = first :: rest /\
        Qdrant.generate_embeddings self (map Chunk.text (first :: rest))
        = Ok embeddings /\
        map Qdrant.point_payload points
        = map Qdrant.payload_of (firstn (length embeddings) (first :: rest)) /\
        length points
        = Nat.min (length (first :: rest)) (length embeddings) /\
        id = document_id (Chunk.metadata first)).
Proof.
  split; [|split].
  - intro Hc. unfold Qdrant.save_chunks. now rewrite Hc.
  - intros Hc Hv. unfold Qdrant.save_chunks.
    destruct (Qdrant.client self) as [c|]; [|congruence].
    destruct (is_empty chunks); [eexists; reflexivity|].
    rewrite Hv. eexists; reflexivity.
  - intros points id Hs.
    destruct (save_chunks_cases self chunks points id Hs)
      as (c0 & first & rest & embeddings & _ & Hv & He & -> & _ & ->).
    exists first, rest, embeddings. repeat split; auto.
    + clear. generalize (first :: rest) as l. intro l.
      revert embeddings. unfold Qdrant.build_points.
      induction l as [|c l IH]; intros [|e es]; cbn; try reflexivity.
      f_equal. apply IH.
    + apply build_points_length.
Qed.

Lemma save_chunks_outcomes_witness :
  exists msg,
    Qdrant.save_chunks (example_repository []) [blank_chunk]
    = Raise (ValueError msg).
Proof.
  apply (proj1 (proj2 (save_chunks_outcomes (example_repository [])
                                            [blank_chunk]))).
  - discriminate.
  - reflexivity.
Defined.

(** ** find_all_documents *)

Lemma has_key_In d k : Qdrant.has_key d k = true <-> In k (map fst d).
Proof.
  induction d as [|[k' doc] r IH]; cbn [Qdrant.has_key map fst In].
  - split; [discriminate | contradiction].
  - rewrite orb_true_iff, IH, str_eqb_eq. split; intros [E|E]; auto.
Qed.

Lemma count_chunk_keys d k : map fst (Qdrant.count_chunk d k) = map fst d.
Proof.
  induction d as [|[k' doc] r IH]; [reflexivity|].
  cbn [Qdrant.count_chunk]. destruct (str_eqb k k'); cbn [map fst];
    [reflexivity|]. now rewrite IH.
Qed.

Lemma count_chunk_In d k k' doc' :
  NoDup (map fst d) -> In (k', doc') (Qdrant.count_chunk d k) ->
  (k' <> k /\ In (k', doc') d) \/
  (k' = k /\
   exists doc, In (k, doc) d /\
               Document.document_id doc' = Document.document_id doc /\
               Document.chunks_count doc' = Document.chunks_count doc + 1).
Proof.
  induction d as [|[k0 doc0] r IH]; [contradiction|].
  cbn [map fst]. intro Hnd. inversion Hnd as [|? ? Hnotin Hnd']; subst.
  cbn [Qdrant.count_chunk].
  destruct (str_eqb k k0) eqn:E.
  - apply str_eqb_eq in E. subst k0. intros [Hin|Hin].
    + injection Hin as <- <-. right. split; [reflexivity|].
      exists doc0. split; [now left|]. split; reflexivity.
    + left. split; [|now right].
      intro Ek. subst k'. apply Hnotin.
      apply in_map_iff. exists (k, doc'). split; [reflexivity | exact Hin].
  - apply str_eqb_neq in E. intros [Hin|Hin].
    + injection Hin as <- <-. left. split; [congruence | now left].
    + destruct (IH Hnd' Hin) as [[Hne Hr]|[He (doc & Hr & Hd)]].
      * left. split; [exact Hne | now right].
      * right. split; [exact He|]. exists doc. split; [now right | exact Hd].
Qed.

Lemma count_chunk_total d k :
  In k (map fst d) ->
  chunk_total (Qdrant.count_chunk d k) = chunk_total d + 1.
Proof.
  unfold chunk_total.
  induction d as [|[k0 doc0] r IH]; [contradiction|].
  cbn [map fst Qdrant.count_chunk]. intro Hin.
  destruct (str_eqb k k0) eqn:E.
  - cbn [map fold_right snd Document.chunks_count]. lia.
  - apply str_eqb_neq in E. destruct Hin as [Hin|Hin]; [congruence|].
    cbn [map fold_right snd]. rewrite (IH Hin). lia.
Qed.

Lemma count_occ_last ids k k' :
  count_occ str_eq_dec (ids ++ [k]) k'
  = (count_occ str_eq_dec ids k' + if str_eq_dec k k' then 1 else 0)%nat.
Proof.
  rewrite count_occ_app. cbn [count_occ].
  destruct (str_eq_dec k k'); reflexivity.
Qed.

Lemma grouping_counted d ids k :
  grouping (Some k) d ids ->
  grouping None (Qdrant.count_chunk d k) (ids ++ [k]).
Proof.
  intros (Hnd & Hent & Hkeys & Htot).
  assert (Hk : In k (map fst d)) by (apply Hkeys; now right).
  split; [now rewrite count_chunk_keys|]. split; [|split].
  - intros k' doc' Hin. rewrite count_occ_last.
    destruct (count_chunk_In d k k' doc' Hnd Hin)
      as [[Hne Hd]|[-> (doc & Hd & Hid & Hcnt)]].
    + destruct (Hent k' doc' Hd) as [H1 H2]. split; [exact H1|].
      destruct (str_eq_dec k k'); [congruence|]. rewrite H2. f_equal. lia.
    + destruct (Hent k doc Hd) as [H1 H2]. split; [congruence|].
      destruct (str_eq_dec k k); [|congruence]. rewrite Hcnt, H2. lia.
  - intro k'. rewrite count_chunk_keys, Hkeys, in_app_iff. cbn [In].
    split.
    + intros [H|H]; [now left; left|]. injection H as ->. left; right; now left.
    + intros [[H|[H|[]]]|H]; [now left | right; now subst | discriminate].
  - rewrite count_chunk_total by exact Hk.
    rewrite Htot, length_app. cbn [length]. lia.
Qed.

Lemma grouping_new_entry d ids k fn ft :
  grouping None d ids -> Qdrant.has_key d k = false ->
  grouping (Some k)
    (d ++ [(k, {| Document.document_id := k;
                  Document.metadata :=
                    {| Document.filename := fn; Document.file_type := ft |};
                  Document.chunks_count := 0 |})])
    ids.
Proof.
  intros (Hnd & Hent & Hkeys & Htot) Hk.
  assert (Hnk : ~ In k (map fst d)).
  { intro H. apply has_key_In in H. congruence. }
  split; [|split; [|split]].
  - rewrite map_app. cbn [map fst]. apply NoDup_app; [exact Hnd | |].
    + constructor; [intros [] | constructor].
    + intros x Hx [<-|[]]. contradiction.
  - intros k' doc' Hin. apply in_app_iff in Hin.
    destruct Hin as [Hin|[Hin|[]]]; [now apply Hent|].
    injection Hin as <- <-. cbn [Document.document_id Document.chunks_count].
    split; [reflexivity|].
    assert (Hc : count_occ str_eq_dec ids k = 0%nat).
    { apply count_occ_not_In. intro H. apply Hnk, Hkeys. now left. }
    now rewrite Hc.
  - intro k'. rewrite map_app, in_app_iff, Hkeys. cbn [map fst In]. split.
    + intros [[H|H]|[H|[]]]; [now left | discriminate | right; now subst].
    + intros [H|H]; [left; now left|]. injection H as ->. right; now left.
  - unfold chunk_total in *. rewrite map_app, fold_right_app.
    cbn [map fold_right snd Document.chunks_count]. rewrite Z.add_0_r.
    exact Htot.
Qed.

Lemma grouping_known d ids k :
  grouping None d ids -> Qdrant.has_key d k = true -> grouping (Some k) d ids.
Proof.
  intros (Hnd & Hent & Hkeys & Htot) Hk. apply has_key_In in Hk.
  split; [exact Hnd|]. split; [exact Hent|]. split; [|exact Htot].
  intro k'. split.
  - intro H. apply Hkeys in H. destruct H; [now left | discriminate].
  - intros [H|H]; [apply Hkeys; now left|]. injection H as ->. exact Hk.
Qed.

Lemma group_point_grouping d ids p d' :
  grouping None d ids -> Qdrant.group_point d p = Ok d' ->
  grouping None d' (ids ++ match grouped_id p with
                           | Some k => [k]
                           | None => []
                           end).
Proof.
  intros Hg. unfold Qdrant.group_point, grouped_id.
  destruct (Qdrant.payload p) as [pl|]; [|discriminate].
  destruct (Qdrant.payload_document_id pl) as [k|];
    [|intro E; injection E as <-; now rewrite app_nil_r].
  destruct (truthy k);
    [|intro E; injection E as <-; now rewrite app_nil_r].
  destruct (Qdrant.has_key d k) eqn:Hk; cbn [negb].
  - cbn [rbind Ok]. intro E. injection E as <-.
    apply grouping_counted. now apply grouping_known.
  - destruct (Qdrant.required_str (Qdrant.payload_filename pl)) as [e|fn];
      [discriminate|].
    destruct (Qdrant.required_str (Qdrant.payload_file_type pl)) as [e|ft];
      [discriminate|].
    cbn [rbind Ok]. intro E. injection E as <-.
    apply grouping_counted. now apply grouping_new_entry.
Qed.

Lemma group_loop_grouping points : forall d ids d',
  grouping None d ids -> Qdrant.group_loop points d = Ok d' ->
  grouping None d' (ids ++ grouped_ids points).
Proof.
  induction points as [|p rest IH]; intros d ids d' Hg;
    cbn [Qdrant.group_loop grouped_ids].
  - intro E. injection E as <-. now rewrite app_nil_r.
  - destruct (Qdrant.group_point d p) as [e|d1] eqn:Ep; [discriminate|].
    cbn [rbind]. intro Hl.
    pose proof (group_point_grouping d ids p d1 Hg Ep) as Hg1.
    pose proof (IH _ _ _ Hg1 Hl) as Hg2.
    destruct (grouped_id p) as [k|].
    + now rewrite <- app_assoc in Hg2.
    + now rewrite app_nil_r in Hg2.
Qed.

Lemma grouping_empty : grouping None [] [].
Proof.
  repeat split; try constructor; try contradiction.
  - intros [[]|H]; discriminate.
Qed.

Lemma group_point_readable d p :
  readable p -> exists d', Qdrant.group_point d p = Ok d'.
Proof.
  intros (pl & Hp & Hfn & Hft). unfold Qdrant.group_point. rewrite Hp.
  destruct (Qdrant.payload_document_id pl) as [k|]; [|eexists; reflexivity].
  destruct (truthy k); [|eexists; reflexivity].
  destruct (Qdrant.has_key d k); cbn [negb]; [eexists; reflexivity|].
  destruct (Qdrant.payload_filename pl) as [[fn|]|]; try congruence;
    destruct (Qdrant.payload_file_type pl) as [[ft|]|]; try congruence;
    eexists; reflexivity.
Qed.

Lemma group_loop_readable points : forall d,
  Forall readable points -> exists d', Qdrant.group_loop points d = Ok d'.
Proof.
  induction points as [|p rest IH]; intros d Hr; cbn [Qdrant.group_loop].
  - eexists; reflexivity.
  - inversion Hr as [|? ? Hp Hrest]; subst.
    destruct (group_point_readable d p Hp) as [d1 Hd1]. rewrite Hd1.
    cbn [rbind]. now apply IH.
Qed.

(** X22.  [find_all_documents] returns when every point has a payload and
    no [None] as file name or file type.  What it returns has one document
    for each identifier found on the points and no identifier twice; the
    chunk count of a document is the number of points with its identifier,
    so it is at least 1; points without identifier are not counted, and the
    counts add up to the number of points that have one. *)
Theorem find_all_documents_counts self c points :
  Qdrant.client self = Some c -> Qdrant.scroll c = Ok points ->
  (Forall readable points ->
   exists docs, Qdrant.find_all_documents self = Ok docs) /\
  (forall docs,
      Qdrant.find_all_documents self = Ok docs ->
      NoDup (map Document.document_id docs) /\
      (forall k, In k (map Document.document_id docs)
                 <-> In k (grouped_ids points)) /\
      (forall doc,
          In doc docs ->
          Document.chunks_count doc
          = Z.of_nat (count_occ str_eq_dec (grouped_ids points)
                                (Document.document_id doc)) /\
          1 <= Document.chunks_count doc) /\
      fold_right Z.add 0 (map Document.chunks_count docs)
      = Z.of_nat (length (grouped_ids points))).
Proof.
  intros Hc Hs. unfold Qdrant.find_all_documents. rewrite Hc, Hs.
  cbn [rbind Ok]. split.
  - intro Hr. destruct (group_loop_readable points [] Hr) as [d Hd].
    rewrite Hd. eexists; reflexivity.
  - intros docs.
    destruct (Qdrant.group_loop points []) as [e|d] eqn:Hd; [discriminate|].
    cbn [rbind]. intro E. injection E as <-.
    destruct (group_loop_grouping points [] [] d grouping_empty Hd)
      as (Hnd & Hent & Hkeys & Htot).
    cbn [app] in *.
    assert (Hids : map Document.document_id (map snd d) = map fst d).
    { rewrite map_map. apply map_ext_in. intros [k doc] Hin.
      now destruct (Hent k doc Hin). }
    split; [now rewrite Hids|]. split; [|split].
    + intro k. rewrite Hids, Hkeys. split; [intros [H|H] | intro H];
        [exact H | discriminate | now left].
    + intros doc Hin. apply in_map_iff in Hin.
      destruct Hin as ([k doc'] & E & Hin). cbn [snd] in E. subst doc'.
      destruct (Hent k doc Hin) as [H1 H2]. rewrite H1.
      split; [exact H2|].
      assert (Hk : In k (grouped_ids points)).
      { assert (H : In k (map fst d)).
        { apply in_map_iff. exists (k, doc). auto. }
        apply Hkeys in H. destruct H; [assumption | discriminate]. }
      apply (count_occ_In str_eq_dec) in Hk. rewrite H2. lia.
    + rewrite map_map. exact Htot.
Qed.

Lemma find_all_documents_counts_witness :
  exists docs,
    Qdrant.find_all_documents (example_repository example_points) = Ok docs.
Proof.
  apply (proj1 (find_all_documents_counts
                  (example_repository example_points)
                  (example_client example_points) example_points
                  eq_refl eq_refl)).
  repeat constructor; eexists; (split; [reflexivity|]); split; discriminate.
Defined.

(* ================================================================== *)
(** * From a file to stored chunks                                      *)
(* ================================================================== *)

(** ** Empty chunks *)

Lemma opens_section_nonblank line :
  Chunker.opens_section line = true -> forallb isspace line = false.
Proof.
  unfold Chunker.opens_section. intro H. apply orb_true_iff in H.
  destruct H as [H|H].
  - unfold Chunker.re_match_header in H.
    destruct line as [|c r]; [discriminate|].
    cbn [dropwhile] in H.
    destruct (char_eqb c_hash c) eqn:Ec.
    + apply N.eqb_eq in Ec. subst c. reflexivity.
    + cbn [length] in H. rewrite Z.sub_diag in H. discriminate.
  - apply str_eqb_eq in H.
    destruct (forallb isspace line) eqn:E; [|reflexivity].
    apply strip_blank in E. rewrite E in H. discriminate.
Qed.

Lemma headed_section_nonblank s :
  section_of_lines true s -> strip s <> [].
Proof.
  intros (g & -> & Hne & _ & _ & Hhd) Hs.
  apply strip_nil_blank in Hs.
  destruct g as [|line rest]; [congruence|].
  specialize (Hhd eq_refl). cbn [hd] in Hhd.
  apply opens_section_nonblank in Hhd.
  assert (Hj : exists tail, join [c_nl] (line :: rest) = line ++ tail).
  { destruct rest as [|l2 rest'].
    - exists []. cbn [join]. now rewrite app_nil_r.
    - eexists. cbn [join]. reflexivity. }
  destruct Hj as [tail Hj]. rewrite Hj, forallb_app in Hs.
  apply andb_true_iff in Hs. destruct Hs as [Hs _]. congruence.
Qed.

Lemma split_into_sections_ok markdown :
  sections_ok (Chunker._split_into_sections markdown).
Proof.
  unfold Chunker._split_into_sections.
  apply split_loop_ok;
    [ apply split_on_go_no_sep; simpl; tauto
    | constructor | constructor | exact I
    | intro Hs; congruence ].
Qed.

Lemma chunk_section_headed self fuel s cs :
  section_of_lines true s ->
  Chunker._chunk_section fuel self s = Some cs ->
  Forall (fun c => Chunker.text c <> []) cs.
Proof.
  intros Hs. unfold Chunker._chunk_section.
  destruct (len s <=? Chunker.chunk_size self).
  - intro E. injection E as <-. constructor; [|constructor].
    cbn [Chunker.text]. now apply headed_section_nonblank.
  - intro E. apply chunk_loop_proper in E; [|constructor].
    eapply Forall_impl; [|exact E]. now intros c [Hc _].
Qed.

Lemma extend_loop_headed self fuel sections : forall acc cs,
  Forall (section_of_lines true) sections ->
  Chunker.extend_loop fuel self sections acc = Some cs ->
  exists more, cs = acc ++ more /\
               Forall (fun c => Chunker.text c <> []) more.
Proof.
  induction sections as [|s r IH]; intros acc cs Hall;
    cbn [Chunker.extend_loop].
  - intro E. injection E as <-. exists []. split; [|constructor].
    now rewrite app_nil_r.
  - inversion Hall as [|? ? Hs Hr]; subst.
    destruct (Chunker._chunk_section fuel self s) as [sc|] eqn:Es;
      [|discriminate].
    intro E. destruct (IH _ _ Hr E) as (more & -> & Hmore).
    exists (sc ++ more). split; [now rewrite app_assoc|].
    apply Forall_app. split; [|exact Hmore].
    eapply chunk_section_headed; eauto.
Qed.

Lemma chunk_markdown_tail_nonempty self fuel markdown cs :
  Chunker.chunk_markdown fuel self markdown = Some cs ->
  Forall (fun c => Chunker.text c <> []) (tl cs).
Proof.
  unfold Chunker.chunk_markdown.
  destruct (_ || _); [intro E; injection E as <-; constructor|].
  pose proof (split_into_sections_ok markdown) as Hok.
  destruct (Chunker._split_into_sections markdown) as [|s0 rest];
    cbn [Chunker.extend_loop].
  - intro E. injection E as <-. constructor.
  - destruct Hok as [_ Hrest].
    destruct (Chunker._chunk_section fuel self s0) as [sc|] eqn:E0;
      [|discriminate].
    cbn [app]. intro E.
    destruct (extend_loop_headed self fuel rest sc cs Hrest E)
      as (more & -> & Hmore).
    unfold Chunker._chunk_section in E0.
    destruct (len s0 <=? Chunker.chunk_size self).
    + injection E0 as <-. exact Hmore.
    + apply chunk_loop_proper in E0; [|constructor].
      assert (Hall : Forall (fun c => Chunker.text c <> []) (sc ++ more)).
      { apply Forall_app. split; [|exact Hmore].
        eapply Forall_impl; [|exact E0]. now intros c [Hc _]. }
      destruct (sc ++ more); [constructor|].
      now inversion Hall.
Qed.

(** X23.  Of the chunks that [chunk_markdown] returns, only the first can
    have an empty text: every section after the first starts with a heading
    or a rule, so it is not blank, and the loop over a long section never
    appends an empty chunk. *)
Theorem chunk_markdown_only_first_chunk_empty self fuel markdown cs :
  Chunker.chunk_markdown fuel self markdown = Some cs ->
  Forall (fun c => Chunker.text c <> []) (tl cs).
Proof. apply chunk_markdown_tail_nonempty. Qed.

Lemma chunk_markdown_only_first_chunk_empty_witness :
  Forall (fun c => Chunker.text c <> [])
         (tl [plain_chunk []; plain_chunk (py "# Notes
alpha beta")]).
Proof.
  apply (chunk_markdown_only_first_chunk_empty
           {| Chunker.chunk_size := 1000; Chunker.chunk_overlap := 200 |}
           1%nat (py "
# Notes
alpha beta")).
  vm_compute. reflexivity.
Defined.

(** ** process_file *)

Lemma to_chunks_nth did fn ft cds : forall i0 n c,
  nth_error (FileService.to_chunks i0 did fn ft cds) n = Some c ->
  exists cd,
    nth_error cds n = Some cd /\
    Chunk.text c = Chunker.text cd /\
    Chunk.metadata c
    = {| document_id := did; chunk_index := i0 + Z.of_nat n;
         filename := Some fn; file_type := Some ft |}.
Proof.
  induction cds as [|cd rest IH]; intros i0 n c;
    cbn [FileService.to_chunks].
  - destruct n; discriminate.
  - destruct n as [|n]; cbn [nth_error].
    + intro E. injection E as <-. exists cd.
      cbn [Chunk.text Chunk.metadata]. rewrite Z.add_0_r. auto.
    + intro E. destruct (IH _ _ _ E) as (cd' & Hcd & Ht & Hm).
      exists cd'. repeat split; auto. rewrite Hm. f_equal. lia.
Qed.

Lemma to_chunks_texts did fn ft cds : forall i0,
  map Chunk.text (FileService.to_chunks i0 did fn ft cds)
  = map Chunker.text cds.
Proof.
  induction cds as [|cd rest IH]; intro i0; cbn [FileService.to_chunks map];
    [reflexivity|]. now rewrite IH.
Qed.

Lemma Forall_map_iff {A B} (f : A -> B) (P : B -> Prop) l :
  Forall P (map f l) <-> Forall (fun x => P (f x)) l.
Proof.
  induction l as [|x l IH]; cbn [map].
  - split; constructor.
  - split; intro H; inversion H; subst; constructor; auto; now apply IH.
Qed.

Lemma tl_map {A B} (f : A -> B) l : tl (map f l) = map f (tl l).
Proof. destruct l; reflexivity. Qed.

Lemma process_file_cases `{UnicodeTables} fuel self file did fn ft chunks :
  FileService.process_file fuel self file did fn ft = Some (Ok chunks) ->
  FileService.file_exists file = true /\
  exists markdown,
    FileService._process_to_markdown file ft = Ok markdown /\
    ((strip markdown = [] /\ chunks = []) \/
     (strip markdown <> [] /\
      exists cds,
        Chunker.chunk_markdown fuel (FileService.chunker self) markdown
        = Some cds /\
        chunks = FileService.to_chunks 0 did fn ft cds)).
Proof.
  unfold FileService.process_file.
  destruct (FileService.file_exists file); cbn [negb]; [|discriminate].
  destruct (FileService._process_to_markdown file ft) as [e|markdown];
    [discriminate|].
  intro E. split; [reflexivity|]. exists markdown. split; [reflexivity|].
  destruct (negb (truthy markdown) || negb (truthy (strip markdown))) eqn:Eb.
  - left. injection E as <-. split; [|reflexivity].
    apply orb_true_iff in Eb. destruct Eb as [Eb|Eb];
      apply negb_true_iff, truthy_false_iff in Eb; [now subst | exact Eb].
  - right. apply orb_false_iff in Eb. destruct Eb as [_ Eb].
    apply negb_false_iff, truthy_true_iff in Eb. split; [exact Eb|].
    destruct (Chunker.chunk_markdown fuel (FileService.chunker self) markdown)
      as [cds|]; [|discriminate].
    injection E as <-. exists cds. auto.
Qed.

Lemma chunk_markdown_fits_trimmed self fuel markdown cds :
  0 < Chunker.chunk_size self -> 0 <= Chunker.chunk_overlap self ->
  Chunker.chunk_markdown fuel self markdown = Some cds ->
  Forall (fun c => trimmed (Chunker.text c) /\
                   len (Chunker.text c) <= Chunker.chunk_size self) cds.
Proof.
  intros Hcs Hov. unfold Chunker.chunk_markdown.
  destruct (_ || _); [intro E; injection E as <-; constructor|].
  intro E.
  pose proof (extend_loop_fits self fuel _ [] cds Hcs Hov (Forall_nil _) E)
    as Hfits.
  pose proof (extend_loop_trimmed self fuel _ [] cds (Forall_nil _) E)
    as Htrim.
  rewrite Forall_forall in *. intros c Hc. split; [now apply Htrim|].
  now apply Hfits.
Qed.

(** X24.  The chunks that [process_file] returns carry the document
    identifier, the file name and the file type of the call, and the chunk
    at position [i] has the index [i].  For a chunker with a positive size
    and a non-negative overlap every text is trimmed and at most
    [chunk_size] characters long, and only the first can be empty. *)
Theorem process_file_numbers_chunks `{UnicodeTables} fuel self file did fn ft chunks :
  0 < Chunker.chunk_size (FileService.chunker self) ->
  0 <= Chunker.chunk_overlap (FileService.chunker self) ->
  FileService.process_file fuel self file did fn ft = Some (Ok chunks) ->
  (forall i c, nth_error chunks i = Some c ->
               Chunk.metadata c = metadata_at i did fn ft) /\
  Forall (fun c => trimmed (Chunk.text c) /\
                   len (Chunk.text c)
                   <= Chunker.chunk_size (FileService.chunker self)) chunks /\
  Forall (fun c => Chunk.text c <> []) (tl chunks).
Proof.
  intros Hcs Hov Hp.
  destruct (process_file_cases fuel self file did fn ft chunks Hp)
    as (_ & markdown & _ & [[_ ->]|(_ & cds & Hcds & ->)]).
  { split; [intros [|i] c; discriminate|]. split; constructor. }
  split; [|split].
  - intros i c Hi. apply to_chunks_nth in Hi.
    destruct Hi as (cd & _ & _ & Hm). rewrite Hm. reflexivity.
  - pose proof (chunk_markdown_fits_trimmed _ fuel markdown cds Hcs Hov Hcds)
      as Hall.
    apply (Forall_map_iff Chunker.text
             (fun t => trimmed t /\
                       len t <= Chunker.chunk_size (FileService.chunker self)))
      in Hall.
    rewrite <- (to_chunks_texts did fn ft cds 0) in Hall.
    now apply Forall_map_iff in Hall.
  - pose proof (chunk_markdown_tail_nonempty _ fuel markdown cds Hcds) as Hall.
    apply (Forall_map_iff Chunker.text (fun t => t <> [])) in Hall.
    rewrite <- tl_map, <- (to_chunks_texts did fn ft cds 0), tl_map in Hall.
    apply (Forall_map_iff Chunk.text (fun t => t <> [])) in Hall.
    exact Hall.
Qed.

Lemma process_file_numbers_chunks_witness :
  (forall i c, nth_error example_chunks i = Some c ->
               Chunk.metadata c
               = metadata_at i (py "doc-1") (py "notes.txt") (py "txt")) /\
  Forall (fun c => trimmed (Chunk.text c) /\
                   len (Chunk.text c)
                   <= Chunker.chunk_size
                        (FileService.chunker
                           (DocumentService.file_service example_service)))
         example_chunks /\
  Forall (fun c => Chunk.text c <> []) (tl example_chunks).
Proof.
  apply (@process_file_numbers_chunks ascii_tables 1%nat
           (DocumentService.file_service example_service) example_file
           (py "doc-1") (py "notes.txt") (py "txt") example_chunks).
  - reflexivity.
  - discriminate.
  - vm_compute. reflexivity.
Defined.

(** ** upload_document *)

Lemma process_file_In `{UnicodeTables} fuel self file did fn ft chunks c :
  FileService.process_file fuel self file did fn ft = Some (Ok chunks) ->
  In c chunks ->
  document_id (Chunk.metadata c) = did /\
  filename (Chunk.metadata c) = Some fn /\
  file_type (Chunk.metadata c) = Some ft.
Proof.
  intros Hp Hc.
  destruct (process_file_cases fuel self file did fn ft chunks Hp)
    as (_ & markdown & _ & [[_ ->]|(_ & cds & _ & ->)]); [contradiction|].
  apply In_nth_error in Hc. destruct Hc as [n Hn].
  apply to_chunks_nth in Hn. destruct Hn as (cd & _ & _ & Hm).
  rewrite Hm. repeat split.
Qed.

Lemma upload_document_cases `{UnicodeTables}
    fuel self new_id file fn ft points doc :
  DocumentService.upload_document fuel self new_id file fn ft
  = Some (Ok (points, doc)) ->
  exists chunks id,
    FileService.process_file fuel (DocumentService.file_service self) file
                             new_id fn ft = Some (Ok chunks) /\
    chunks <> [] /\
    Qdrant.save_chunks (DocumentService.vector_repository self) chunks
    = Ok (points, id) /\
    doc = {| Document.document_id := new_id;
             Document.metadata :=
               {| Document.filename := fn; Document.file_type := ft |};
             Document.chunks_count := Z.of_nat (length chunks) |}.
Proof.
  unfold DocumentService.upload_document.
  destruct (FileService.process_file fuel _ file new_id fn ft)
    as [[e|chunks]|]; [discriminate| |discriminate].
  destruct chunks as [|c0 rest]; [discriminate|]. cbn [is_empty].
  destruct (Qdrant.save_chunks _ (c0 :: rest)) as [e|[points' id]] eqn:Es;
    [discriminate|].
  intro E. injection E as <- <-.
  exists (c0 :: rest), id. repeat split; auto. discriminate.
Qed.

(** X25.  After [upload_document] every point handed to the store belongs
    to the returned document: the listing of the documents can read it and
    counts it under the new identifier, and a search turns it into a result
    with a non-blank text, this identifier, and the file name and file type
    of the upload.  The chunk count of the returned document is at least 1
    and at least the number of points written. *)
Theorem upload_document_points_belong `{UnicodeTables}
    fuel self new_id file fn ft points doc :
  new_id <> [] ->
  DocumentService.upload_document fuel self new_id file fn ft
  = Some (Ok (points, doc)) ->
  Document.document_id doc = new_id /\
  1 <= Document.chunks_count doc /\
  Z.of_nat (length points) <= Document.chunks_count doc /\
  forall p s,
    In p points ->
    readable (scored s p) /\
    grouped_id (scored s p) = Some new_id /\
    exists r, Qdrant.convert_point (scored s p) = Some r /\
              result_of_document new_id fn ft s r.
Proof.
  intros Hid Hu.
  destruct (upload_document_cases fuel self new_id file fn ft points doc Hu)
    as (chunks & id & Hp & Hne & Hs & ->).
  cbn [Document.document_id Document.chunks_count].
  split; [reflexivity|]. split; [destruct chunks; [congruence | cbn; lia]|].
  split.
  - destruct (save_chunks_cases _ chunks points id Hs)
      as (c0 & first & rest & embeddings & _ & Hv & _ & -> & _ & _).
    rewrite build_points_length, <- Hv.
    pose proof (filter_length_le Qdrant.valid_chunk chunks). lia.
  - intros p s Hin.
    destruct (saved_points_found _ chunks points id p s Hs Hin)
      as (c & Hc & Ht & Hpl & Hconv).
    destruct (process_file_In fuel _ file new_id fn ft chunks c Hp Hc)
      as (Hd & Hfn & Hft).
    assert (Htr : truthy new_id = true) by now apply truthy_true_iff.
    split; [|split].
    + exists (Qdrant.point_payload p). split; [reflexivity|].
      rewrite Hpl. unfold Qdrant.payload_of.
      cbn [Qdrant.payload_filename Qdrant.payload_file_type].
      rewrite Hfn, Hft. split; discriminate.
    + unfold grouped_id, scored. cbn [Qdrant.payload]. rewrite Hpl.
      unfold Qdrant.payload_of. cbn [Qdrant.payload_document_id].
      now rewrite Hd, Htr.
    + rewrite Hd, Htr in Hconv. eexists. split; [exact Hconv|].
      unfold result_of_document. cbn [score text metadata].
      repeat split; auto.
Qed.

Lemma upload_document_points_belong_witness :
  Document.document_id (snd example_upload) = py "doc-1" /\
  1 <= Document.chunks_count (snd example_upload) /\
  Z.of_nat (length (fst example_upload))
  <= Document.chunks_count (snd example_upload) /\
  forall p s,
    In p (fst example_upload) ->
    readable (scored s p) /\
    grouped_id (scored s p) = Some (py "doc-1") /\
    exists r, Qdrant.convert_point (scored s p) = Some r /\
              result_of_document (py "doc-1") (py "notes.txt") (py "txt") s r.
Proof.
  apply (@upload_document_points_belong ascii_tables 1%nat example_service
           (py "doc-1") example_file (py "notes.txt") (py "txt")
           (fst example_upload) (snd example_upload)).
  - vm_compute. discriminate.
  - vm_compute. reflexivity.
Defined.

(* ================================================================== *)
(** * The request to the language model                                 *)
(* ================================================================== *)

Lemma startswith_app p r : startswith p (p ++ r) = true.
Proof.
  induction p as [|a p IH]; [destruct r; reflexivity|].
  cbn [app startswith]. unfold char_eqb. now rewrite N.eqb_refl, IH.
Qed.

Lemma nonblank_app_r a b : forallb isspace b = false -> strip (a ++ b) <> [].
Proof.
  intros Hb Hs. apply strip_nil_blank in Hs.
  rewrite forallb_app in Hs. apply andb_true_iff in Hs.
  destruct Hs as [_ Hs]. congruence.
Qed.

Lemma context_prompt_nonblank q vc sp :
  strip (Qwen.context_prompt q vc sp) <> [].
Proof.
  unfold Qwen.context_prompt. cbv zeta.
  rewrite !app_assoc. apply nonblank_app_r. vm_compute. reflexivity.
Qed.

Lemma effective_prompt_nonempty sp : effective_prompt sp <> [].
Proof.
  unfold effective_prompt.
  assert (Hs : RAGPromptTemplate.SYSTEM_PROMPT <> [])
    by (vm_compute; discriminate).
  destruct sp as [p|]; [|exact Hs].
  destruct (truthy p) eqn:E; [now apply truthy_true_iff | exact Hs].
Qed.

Lemma generate_raises_only m prompt mt e :
  strip prompt <> [] ->
  Qwen.generate m prompt mt = Raise e ->
  Qwen.ensure_loaded m = Raise e \/ Qwen.decode m prompt mt = Raise e.
Proof.
  intros Hp. unfold Qwen.generate.
  destruct (Qwen.ensure_loaded m) as [e'|[]]; cbn [rbind];
    [intro E; left; injection E as ->; reflexivity|].
  assert (Hb : negb (truthy prompt) || negb (truthy (strip prompt)) = false).
  { apply orb_false_iff. split; apply negb_false_iff, truthy_true_iff;
      [|exact Hp]. intro E. subst. now apply Hp. }
  rewrite Hb.
  destruct (Qwen.decode m prompt mt) as [e'|t]; cbn [rbind];
    [intro E; right; injection E as ->; reflexivity|].
  destruct (startswith prompt t); discriminate.
Qed.

Lemma generate_with_context_accepts m q vc sp mt :
  strip q <> [] -> vc <> [] -> Forall (fun c => strip c <> []) vc ->
  Qwen.generate_with_context m q vc sp mt
  = Qwen.generate m (Qwen.context_prompt q vc sp) 500.
Proof.
  intros Hq Hne Hall. unfold Qwen.generate_with_context.
  assert (Hb : negb (truthy q) || negb (truthy (strip q)) = false).
  { apply orb_false_iff. split; apply negb_false_iff, truthy_true_iff;
      [|exact Hq]. intro E. subst. now apply Hq. }
  rewrite Hb.
  assert (Hf : filter (fun ctx => truthy ctx && truthy (strip ctx)) vc = vc).
  { apply filter_all, forallb_forall. intros c Hc.
    rewrite Forall_forall in Hall. specialize (Hall c Hc).
    apply andb_true_iff. split; apply truthy_true_iff; [|exact Hall].
    intro E. subst. now apply Hall. }
  rewrite Hf. destruct vc; [congruence | reflexivity].
Qed.

Lemma useful_nonblank c : useful c = true -> strip c <> [].
Proof.
  intro Hu. apply useful_revalidated in Hu.
  apply andb_true_iff in Hu. destruct Hu as [Hu _].
  apply andb_true_iff in Hu. destruct Hu as [_ Hu].
  now apply truthy_true_iff.
Qed.

(** X26.  The request that [run] sends to the Qwen manager is never turned
    down by the manager's own checks: the query is not blank and every
    context is not blank, so [generate_with_context] raises none of its
    three [ValueError]s, keeps every context, and builds a prompt that
    starts with the pipeline's system prompt (the manager's default
    instruction is never used) and is not blank.  An exception can then only
    come from loading the model or from the generation itself.  The
    [max_tokens] argument is not handed on: whatever its value, [generate]
    runs with 500. *)
Theorem run_request_passes_manager_checks `{UnicodeTables}
    self q k use_llm sp r m loaded load :
  llm_manager self = Some (manager_of m loaded load) ->
  outcome (run self q k use_llm sp) = Ok r -> contexts r <> [] ->
  let prompt :=
    Qwen.context_prompt q (contexts r) (Some (effective_prompt sp)) in
  (forall max_tokens,
      generate_with_context (manager_of m loaded load) q (contexts r)
                            (effective_prompt sp) max_tokens
      = Qwen.generate m prompt 500) /\
  startswith (effective_prompt sp) prompt = true /\
  strip prompt <> [] /\
  forall e, Qwen.generate m prompt 500 = Raise e ->
            Qwen.ensure_loaded m = Raise e \/
            Qwen.decode m prompt 500 = Raise e.
Proof.
  intros _ Hr Hc prompt.
  destruct (run_cases self q k use_llm sp r Hr) as (Hq & _ & _).
  destruct (run_sources_and_contexts self q k use_llm sp r Hr) as [_ Hctx].
  split; [|split; [|split]].
  - intro max_tokens. cbn [manager_of generate_with_context].
    apply generate_with_context_accepts; auto.
    rewrite Hctx. apply Forall_forall. intros c Hin.
    apply filter_In in Hin. now apply useful_nonblank.
  - subst prompt. unfold Qwen.context_prompt. cbv zeta.
    assert (Ht : truthy (effective_prompt sp) = true)
      by (apply truthy_true_iff, effective_prompt_nonempty).
    rewrite Ht, <- !app_assoc. apply startswith_app.
  - apply context_prompt_nonblank.
  - intro e. apply generate_raises_only, context_prompt_nonblank.
Qed.

Lemma run_request_passes_manager_checks_witness :
  let prompt :=
    Qwen.context_prompt (py "What is Rocq?") (contexts echoing_result)
                        (Some (effective_prompt None)) in
  (forall max_tokens,
      generate_with_context
        (manager_of (echoing_model (c_space :: generated_answer)) true (Ok tt))
        (py "What is Rocq?") (contexts echoing_result) (effective_prompt None)
        max_tokens
      = Qwen.generate (echoing_model (c_space :: generated_answer)) prompt 500)
  /\
  startswith (effective_prompt None) prompt = true /\
  strip prompt <> [] /\
  forall e,
    Qwen.generate (echoing_model (c_space :: generated_answer)) prompt 500
    = Raise e ->
    Qwen.ensure_loaded (echoing_model (c_space :: generated_answer))
    = Raise e \/
    Qwen.decode (echoing_model (c_space :: generated_answer)) prompt 500
    = Raise e.
Proof.
  apply (@run_request_passes_manager_checks ascii_tables echoing_pipeline
           (py "What is Rocq?") 5 true None echoing_result
           (echoing_model (c_space :: generated_answer)) true (Ok tt)).
  - reflexivity.
  - vm_compute. reflexivity.
  - discriminate.
Defined.

(* ================================================================== *)
(** * The debugging information of a query                              *)
(* ================================================================== *)

Lemma info_has_key_In d k :
  RAGService.has_key d k = true <-> In k (map fst d).
Proof.
  induction d as [|[k' info] r IH]; cbn [RAGService.has_key map fst In].
  - split; [discriminate | contradiction].
  - rewrite orb_true_iff, IH, str_eqb_eq. split; intros [E|E]; auto.
Qed.

Lemma record_source_keys d k s :
  map fst (RAGService.record_source d k s) = map fst d.
Proof.
  induction d as [|[k' info] r IH]; [reflexivity|].
  cbn [RAGService.record_source]. destruct (str_eqb k k'); cbn [map fst];
    [reflexivity|]. now rewrite IH.
Qed.

Lemma record_source_In d k s k' info' :
  NoDup (map fst d) -> In (k', info') (RAGService.record_source d k s) ->
  (k' <> k /\ In (k', info') d) \/
  (k' = k /\
   exists info,
     In (k, info) d /\
     RAGService.info_document_id info' = RAGService.info_document_id info /\
     RAGService.info_scores info' = RAGService.info_scores info ++ [s] /\
     RAGService.info_chunks_found info'
     = RAGService.info_chunks_found info + 1).
Proof.
  induction d as [|[k0 info0] r IH]; [contradiction|].
  cbn [map fst]. intro Hnd. inversion Hnd as [|? ? Hnotin Hnd']; subst.
  cbn [RAGService.record_source].
  destruct (str_eqb k k0) eqn:E.
  - apply str_eqb_eq in E. subst k0. intros [Hin|Hin].
    + injection Hin as <- <-. right. split; [reflexivity|].
      exists info0. split; [now left|]. repeat split.
    + left. split; [|now right].
      intro Ek. subst k'. apply Hnotin.
      apply in_map_iff. exists (k, info'). split; [reflexivity | exact Hin].
  - apply str_eqb_neq in E. intros [Hin|Hin].
    + injection Hin as <- <-. left. split; [congruence | now left].
    + destruct (IH Hnd' Hin) as [[Hne Hr]|[He (info & Hr & Hd)]].
      * left. split; [exact Hne | now right].
      * right. split; [exact He|]. exists info. split; [now right | exact Hd].
Qed.

Lemma record_source_total d k s :
  In k (map fst d) ->
  found_total (RAGService.record_source d k s) = found_total d + 1.
Proof.
  unfold found_total.
  induction d as [|[k0 info0] r IH]; [contradiction|].
  cbn [map fst RAGService.record_source]. intro Hin.
  destruct (str_eqb k k0) eqn:E.
  - cbn [map fold_right snd RAGService.info_chunks_found]. lia.
  - apply str_eqb_neq in E. destruct Hin as [Hin|Hin]; [congruence|].
    cbn [map fold_right snd]. rewrite (IH Hin). lia.
Qed.

Lemma of_document_snoc k l s :
  of_document k (l ++ [s])
  = of_document k l
    ++ if str_eqb (document_id (metadata s)) k then [s] else [].
Proof. unfold of_document. now rewrite filter_app. Qed.

Lemma of_document_absent k l :
  ~ In k (map (fun s => document_id (metadata s)) l) -> of_document k l = [].
Proof.
  intro Hk. unfold of_document.
  induction l as [|s l IH]; [reflexivity|]. cbn [filter].
  destruct (str_eqb (document_id (metadata s)) k) eqn:E.
  - apply str_eqb_eq in E. exfalso. apply Hk. left. exact E.
  - apply IH. intro H. apply Hk. now right.
Qed.

Lemma tallied_recorded d seen0 s :
  tallied (Some (document_id (metadata s))) d seen0 ->
  tallied None
          (RAGService.record_source d (document_id (metadata s)) (score s))
          (seen0 ++ [s]).
Proof.
  set (k := document_id (metadata s)).
  intros (Hnd & Hent & Hkeys & Htot).
  assert (Hk : In k (map fst d)) by (apply Hkeys; now right).
  split; [now rewrite record_source_keys|]. split; [|split].
  - intros k' info' Hin. rewrite of_document_snoc. fold k.
    destruct (record_source_In d k (score s) k' info' Hnd Hin)
      as [[Hne Hd]|[-> (info & Hd & Hid & Hsc & Hcnt)]].
    + destruct (Hent k' info' Hd) as (H1 & H2 & H3).
      assert (E : str_eqb k k' = false) by (apply str_eqb_neq; congruence).
      rewrite E, app_nil_r. auto.
    + destruct (Hent k info Hd) as (H1 & H2 & H3).
      rewrite str_eqb_refl. split; [congruence|]. split.
      * rewrite Hsc, H2, map_app. reflexivity.
      * rewrite Hcnt, H3, length_app. cbn [length]. lia.
  - intro k'. rewrite record_source_keys, Hkeys, map_app, in_app_iff.
    cbn [map In]. fold k. split.
    + intros [H|H]; [now left; left|]. injection H as ->. left; right; now left.
    + intros [[H|[H|[]]]|H]; [now left | right; now subst | discriminate].
  - rewrite record_source_total by exact Hk.
    rewrite Htot, length_app. cbn [length]. lia.
Qed.

Lemma tallied_new_entry d seen0 k fn :
  tallied None d seen0 -> RAGService.has_key d k = false ->
  tallied (Some k)
    (d ++ [(k, {| RAGService.info_document_id := k;
                  RAGService.info_filename := fn;
                  RAGService.info_chunks_found := 0;
                  RAGService.info_scores := [] |})])
    seen0.
Proof.
  intros (Hnd & Hent & Hkeys & Htot) Hk.
  assert (Hnk : ~ In k (map fst d)).
  { intro H. apply info_has_key_In in H. congruence. }
  split; [|split; [|split]].
  - rewrite map_app. cbn [map fst]. apply NoDup_app; [exact Hnd | |].
    + constructor; [intros [] | constructor].
    + intros x Hx [<-|[]]. contradiction.
  - intros k' info' Hin. apply in_app_iff in Hin.
    destruct Hin as [Hin|[Hin|[]]]; [now apply Hent|].
    injection Hin as <- <-.
    cbn [RAGService.info_document_id RAGService.info_scores
         RAGService.info_chunks_found].
    rewrite of_document_absent; [repeat split|].
    intro H. apply Hnk, Hkeys. now left.
  - intro k'. rewrite map_app, in_app_iff, Hkeys. cbn [map fst In]. split.
    + intros [[H|H]|[H|[]]]; [now left | discriminate | right; now subst].
    + intros [H|H]; [left; now left|]. injection H as ->. right; now left.
  - unfold found_total in *. rewrite map_app, fold_right_app.
    cbn [map fold_right snd RAGService.info_chunks_found].
    rewrite Z.add_0_r. exact Htot.
Qed.

Lemma tallied_known d seen0 k :
  tallied None d seen0 -> RAGService.has_key d k = true ->
  tallied (Some k) d seen0.
Proof.
  intros (Hnd & Hent & Hkeys & Htot) Hk. apply info_has_key_In in Hk.
  split; [exact Hnd|]. split; [exact Hent|]. split; [|exact Htot].
  intro k'. split.
  - intro H. apply Hkeys in H. destruct H; [now left | discriminate].
  - intros [H|H]; [apply Hkeys; now left|]. injection H as ->. exact Hk.
Qed.

Lemma add_source_tallied d seen0 s :
  tallied None d seen0 ->
  tallied None (RAGService.add_source d s) (seen0 ++ [s]).
Proof.
  intro Ht. unfold RAGService.add_source. cbv zeta.
  apply tallied_recorded.
  destruct (RAGService.has_key d (document_id (metadata s))) eqn:Hk;
    cbn [negb].
  - now apply tallied_known.
  - now apply tallied_new_entry.
Qed.

Lemma fold_add_source_tallied l : forall d seen0,
  tallied None d seen0 ->
  tallied None (fold_left RAGService.add_source l d) (seen0 ++ l).
Proof.
  induction l as [|s l IH]; intros d seen0 Ht; cbn [fold_left].
  - now rewrite app_nil_r.
  - replace (seen0 ++ s :: l) with ((seen0 ++ [s]) ++ l)
      by (now rewrite <- app_assoc).
    apply IH. now apply add_source_tallied.
Qed.

Lemma group_sources_tallied l : tallied None (RAGService.group_sources l) l.
Proof.
  unfold RAGService.group_sources.
  apply (fold_add_source_tallied l [] []).
  split; [constructor|]. split; [intros k info []|]. split; [|reflexivity].
  intro k. cbn [map In]. split; [contradiction | intros [[]|H]; discriminate].
Qed.

(** *** Largest and smallest score *)

Lemma Qltb_false x y : Qltb x y = false -> (y <= x)%Q.
Proof.
  unfold Qltb. intro H. apply negb_false_iff in H. now apply Qle_bool_iff.
Qed.

Lemma Qltb_true x y : Qltb x y = true -> (x <= y)%Q.
Proof.
  unfold Qltb. intro H. apply negb_true_iff in H.
  apply Qlt_le_weak, Qnot_le_lt. intro Hle.
  apply Qle_bool_iff in Hle. congruence.
Qed.

Lemma max_of_spec r : forall x,
  In (RAGService.max_of x r) (x :: r) /\
  forall y, In y (x :: r) -> (y <= RAGService.max_of x r)%Q.
Proof.
  unfold RAGService.max_of.
  induction r as [|z r IH]; intro x; cbn [fold_left].
  - split; [now left|]. intros y [<-|[]]. apply Qle_refl.
  - destruct (IH (if Qltb x z then z else x)) as [Hin Hle]. split.
    + destruct Hin as [Hin|Hin]; [|right; now right].
      rewrite <- Hin. destruct (Qltb x z); [right; now left | now left].
    + intros y [E|[E|Hy]]; try subst y.
      * eapply Qle_trans; [|apply Hle; now left].
        destruct (Qltb x z) eqn:E; [now apply Qltb_true | apply Qle_refl].
      * eapply Qle_trans; [|apply Hle; now left].
        destruct (Qltb x z) eqn:E; [apply Qle_refl | now apply Qltb_false].
      * apply Hle. now right.
Qed.

Lemma min_of_spec r : forall x,
  In (RAGService.min_of x r) (x :: r) /\
  forall y, In y (x :: r) -> (RAGService.min_of x r <= y)%Q.
Proof.
  unfold RAGService.min_of.
  induction r as [|z r IH]; intro x; cbn [fold_left].
  - split; [now left|]. intros y [<-|[]]. apply Qle_refl.
  - destruct (IH (if Qltb z x then z else x)) as [Hin Hle]. split.
    + destruct Hin as [Hin|Hin]; [|right; now right].
      rewrite <- Hin. destruct (Qltb z x); [right; now left | now left].
    + intros y [E|[E|Hy]]; try subst y.
      * eapply Qle_trans; [apply Hle; now left|].
        destruct (Qltb z x) eqn:E; [now apply Qltb_true | apply Qle_refl].
      * eapply Qle_trans; [apply Hle; now left|].
        destruct (Qltb z x) eqn:E; [apply Qle_refl | now apply Qltb_false].
      * apply Hle. now right.
Qed.

(** *** The entries *)

Lemma statistics_id mean info :
  RAGService.entry_document_id (RAGService.statistics mean info)
  = RAGService.info_document_id info /\
  RAGService.chunks_found (RAGService.statistics mean info)
  = RAGService.info_chunks_found info.
Proof.
  unfold RAGService.statistics.
  destruct (RAGService.info_scores info); split; reflexivity.
Qed.

Lemma of_document_In k l s :
  In s (of_document k l) <-> In s l /\ document_id (metadata s) = k.
Proof.
  unfold of_document. rewrite filter_In, str_eqb_eq. reflexivity.
Qed.

Lemma relevant_score s : relevant s = true -> (MIN_RELEVANCE_SCORE <= score s)%Q.
Proof.
  unfold relevant. intro H. apply andb_true_iff in H. destruct H as [_ H].
  now apply Qle_bool_iff.
Qed.

Lemma statistics_entry_ok mean r d k info :
  tallied None d (sources r) -> In (k, info) d ->
  Forall (fun s => relevant s = true) (sources r) ->
  entry_ok r (RAGService.statistics mean info).
Proof.
  intros (Hnd & Hent & Hkeys & _) Hin Hrel.
  destruct (Hent k info Hin) as (Hid & Hsc & Hcnt).
  assert (Hk : In k (map (fun s => document_id (metadata s)) (sources r))).
  { assert (H : In k (map fst d)).
    { apply in_map_iff. exists (k, info). auto. }
    apply Hkeys in H. destruct H; [assumption | discriminate]. }
  apply in_map_iff in Hk. destruct Hk as (s0 & Hs0 & Hin0).
  assert (Hne : In s0 (of_document k (sources r)))
    by (apply of_document_In; auto).
  unfold entry_ok, scores_of.
  destruct (statistics_id mean info) as [E1 E2]. rewrite E1, E2, Hid, <- Hsc.
  assert (Hlen : RAGService.info_chunks_found info
                 = Z.of_nat (length (RAGService.info_scores info))).
  { now rewrite Hcnt, Hsc, length_map. }
  assert (Hall : forall y, In y (RAGService.info_scores info) ->
                           (MIN_RELEVANCE_SCORE <= y)%Q).
  { intros y Hy. rewrite Hsc in Hy. apply in_map_iff in Hy.
    destruct Hy as (s & <- & Hs). apply of_document_In in Hs.
    destruct Hs as [Hs _]. rewrite Forall_forall in Hrel.
    now apply relevant_score, Hrel. }
  unfold RAGService.statistics.
  destruct (RAGService.info_scores info) as [|x rest] eqn:Escores.
  { apply (in_map score) in Hne. rewrite <- Hsc in Hne. contradiction. }
  cbn [RAGService.max_score RAGService.min_score].
  destruct (max_of_spec rest x) as [Hmax_in Hmax].
  destruct (min_of_spec rest x) as [Hmin_in Hmin].
  split; [exact Hlen|]. split; [rewrite Hlen; cbn [length]; lia|].
  split; [exact Hmax_in|]. split; [exact Hmin_in|]. split.
  - intros y Hy. split; [now apply Hmin | now apply Hmax].
  - now apply Hall.
Qed.

(** X27.  [query_with_debug_info] returns the result of [run] with the
    default system prompt and calls no further collaborator.  Its
    debugging information has one entry for each document among the
    [sources] and no document twice, and [total_documents_found] is the
    number of entries.  The [chunks_found] of an entry is the number of
    sources of its document, so it is at least 1, and the counts add up to
    the number of sources; [max_score] and [min_score] are the largest and
    the smallest score of these sources, and no [min_score] is below 0.5.
    The branch for a document without scores is never taken. *)
Theorem query_with_debug_info_counts `{UnicodeTables} mean self q k use_llm r dbg :
  outcome (RAGService.query_with_debug_info mean self q k use_llm)
  = Ok (r, dbg) ->
  outcome (run self q k use_llm None) = Ok r /\
  trace (RAGService.query_with_debug_info mean self q k use_llm)
  = trace (run self q k use_llm None) /\
  RAGService.total_documents_found dbg
  = Z.of_nat (length (RAGService.searched_documents dbg)) /\
  NoDup (map RAGService.entry_document_id
             (RAGService.searched_documents dbg)) /\
  (forall id, In id (map RAGService.entry_document_id
                         (RAGService.searched_documents dbg))
              <-> In id (map (fun s => document_id (metadata s))
                             (sources r))) /\
  fold_right Z.add 0 (map RAGService.chunks_found
                          (RAGService.searched_documents dbg))
  = Z.of_nat (length (sources r)) /\
  Forall (entry_ok r) (RAGService.searched_documents dbg).
Proof.
  unfold RAGService.query_with_debug_info, RAGService.query.
  rewrite outcome_mbind, trace_mbind.
  destruct (outcome (run self q k use_llm None)) as [e|r'] eqn:Er;
    [discriminate|].
  cbv zeta. unfold mret at 1, outcome at 1. cbn [snd].
  intro E. injection E as <- <-.
  cbn [RAGService.searched_documents RAGService.total_documents_found].
  pose proof (group_sources_tallied (sources r')) as Ht.
  set (d := RAGService.group_sources (sources r')) in *.
  assert (Hids : map RAGService.entry_document_id
                     (map (fun e => RAGService.statistics mean (snd e)) d)
                 = map fst d).
  { rewrite map_map. apply map_ext_in. intros [k0 info] Hin. cbn [snd fst].
    destruct Ht as (_ & Hent & _).
    destruct (statistics_id mean info) as [E1 _]. rewrite E1.
    now destruct (Hent k0 info Hin). }
  destruct (run_sources_and_contexts self q k use_llm None r' Er)
    as [(rs & _ & Hsrc) _].
  assert (Hrel : Forall (fun s => relevant s = true) (sources r')).
  { rewrite Hsrc. apply Forall_forall. intros s Hs.
    now apply filter_In in Hs. }
  split; [reflexivity|]. split; [apply app_nil_r|].
  split; [now rewrite length_map|].
  split; [rewrite Hids; now destruct Ht|]. split; [|split].
  - intro id. rewrite Hids. destruct Ht as (_ & _ & Hkeys & _).
    rewrite Hkeys. split; [intros [Hi|Hi]; [exact Hi | discriminate]|].
    intro Hi. now left.
  - destruct Ht as (_ & _ & _ & Htot). rewrite <- Htot. unfold found_total.
    rewrite !map_map. f_equal. apply map_ext. intros [k0 info]. cbn [snd].
    now destruct (statistics_id mean info).
  - apply Forall_forall. intros e He. apply in_map_iff in He.
    destruct He as ([k0 info] & <- & Hin). cbn [snd].
    eapply statistics_entry_ok; eauto.
Qed.

Lemma query_with_debug_info_counts_witness :
  outcome (run (U := ascii_tables)
               (pipeline_without_llm [found item_a (9 # 10);
                                      found item_b (8 # 10)])
               (py "Which items are listed?") 5 false None)
  = Ok items_result /\
  trace (RAGService.query_with_debug_info (U := ascii_tables) exact_mean
           (pipeline_without_llm [found item_a (9 # 10);
                                  found item_b (8 # 10)])
           (py "Which items are listed?") 5 false)
  = trace (run (U := ascii_tables)
               (pipeline_without_llm [found item_a (9 # 10);
                                      found item_b (8 # 10)])
               (py "Which items are listed?") 5 false None) /\
  RAGService.total_documents_found items_debug_info
  = Z.of_nat (length (RAGService.searched_documents items_debug_info)) /\
  NoDup (map RAGService.entry_document_id
             (RAGService.searched_documents items_debug_info)) /\
  (forall id, In id (map RAGService.entry_document_id
                         (RAGService.searched_documents items_debug_info))
              <-> In id (map (fun s => document_id (metadata s))
                             (sources items_result))) /\
  fold_right Z.add 0 (map RAGService.chunks_found
                          (RAGService.searched_documents items_debug_info))
  = Z.of_nat (length (sources items_result)) /\
  Forall (entry_ok items_result)
         (RAGService.searched_documents items_debug_info).
Proof.
  apply (@query_with_debug_info_counts ascii_tables exact_mean
           (pipeline_without_llm [found item_a (9 # 10);
                                  found item_b (8 # 10)])
           (py "Which items are listed?") 5 false
           items_result items_debug_info).
  vm_compute. reflexivity.
Defined.

(* ================================================================== *)
(** * File names                                                        *)
(* ================================================================== *)

Lemma collapse_dots_In c s : forall b,
  In c (FileUtils.collapse_dots b s) -> In c s.
Proof.
  induction s as [|d r IH]; intro b; cbn [FileUtils.collapse_dots];
    [tauto|].
  destruct (char_eqb d c_dot); [destruct b|]; cbn [In]; intro H.
  - right. now apply (IH true).
  - destruct H as [H|H]; [now left | right; now apply (IH true)].
  - destruct H as [H|H]; [now left | right; now apply (IH false)].
Qed.

Lemma rstrip_by_In p (c : char) s : In c (rstrip_by p s) -> In c s.
Proof.
  unfold rstrip_by. intro H.
  now apply in_rev, dropwhile_In, in_rev in H.
Qed.

Lemma strip_chars_In c s : In c (FileUtils.strip_chars s) -> In c s.
Proof.
  unfold FileUtils.strip_chars, lstrip_by. intro H.
  now apply rstrip_by_In, dropwhile_In in H.
Qed.

Lemma cleaned_name_safe filename :
  Forall safe_char (FileUtils.cleaned_name filename).
Proof.
  apply Forall_forall. intros c Hc. unfold FileUtils.cleaned_name in Hc.
  apply strip_chars_In, collapse_dots_In, filter_In in Hc.
  destruct Hc as [Hc Hd]. apply negb_true_iff in Hd.
  unfold FileUtils.remove_char in Hc.
  apply filter_In in Hc. destruct Hc as [Hc Hb].
  apply filter_In in Hc. destruct Hc as [_ Hs].
  apply negb_true_iff, N.eqb_neq in Hb, Hs.
  repeat split; assumption.
Qed.

Lemma rstrip_by_head p s c r :
  rstrip_by p s = c :: r -> exists r', s = c :: r'.
Proof.
  destruct s as [|d t]; [discriminate|].
  rewrite rstrip_by_cons.
  destruct (rstrip_by p t); [destruct (p d)|]; intro E;
    try discriminate; injection E as -> _; eexists; reflexivity.
Qed.

Lemma strip_chars_head s c r :
  FileUtils.strip_chars s = c :: r -> FileUtils.dot_or_space c = false.
Proof.
  unfold FileUtils.strip_chars, lstrip_by. intro E.
  apply rstrip_by_head in E. destruct E as [r' E].
  now apply dropwhile_head in E.
Qed.

Lemma cleaned_name_head filename c r :
  FileUtils.cleaned_name filename = c :: r -> c <> c_dot.
Proof.
  unfold FileUtils.cleaned_name. intro E. apply strip_chars_head in E.
  intro Hc. subst c. discriminate.
Qed.

Lemma firstn_In' {A} (x : A) n l : In x (firstn n l) -> In x l.
Proof.
  intro H. rewrite <- (firstn_skipn n l). apply in_app_iff. now left.
Qed.

Lemma skipn_In' {A} (x : A) n l : In x (skipn n l) -> In x l.
Proof.
  intro H. rewrite <- (firstn_skipn n l). apply in_app_iff. now right.
Qed.

Lemma slice_to_In (c : char) s k : In c (slice_to s k) -> In c s.
Proof.
  destruct (Z_lt_le_dec k 0) as [Hk|Hk].
  - rewrite slice_to_negative by exact Hk. apply firstn_In'.
  - rewrite slice_to_firstn by exact Hk. apply firstn_In'.
Qed.

Lemma rfind_whole_range s c :
  rfind s c 0 (len s) = -1 \/ 0 <= rfind s c 0 (len s) < len s.
Proof.
  unfold rfind, slice_bound.
  pose proof (len_nonneg s) as Hn.
  assert (E1 : (len s <? 0) = false) by (apply Z.ltb_ge; lia).
  rewrite E1. cbn [Z.ltb Z.compare].
  rewrite (Z.min_l 0) by lia. rewrite Z.min_id, Z.sub_0_r. cbn [skipn Z.to_nat].
  destruct (rfind_from_range c (firstn (Z.to_nat (len s)) s) 0 (Z.le_refl 0))
    as [H|H]; [now left|].
  right. rewrite length_firstn in H. unfold len in *. lia.
Qed.

Lemma splitext_parts p :
  FileUtils.splitext p = (p, []) \/
  exists d, 0 <= d < len p /\
            FileUtils.splitext p
            = (firstn (Z.to_nat d) p, skipn (Z.to_nat d) p).
Proof.
  unfold FileUtils.splitext.
  set (sepIndex := rfind p FileUtils.c_slash 0 (len p)).
  set (dotIndex := rfind p c_dot 0 (len p)).
  destruct (sepIndex <? dotIndex) eqn:E; [|now left].
  destruct (existsb _ _); [|now left].
  right. exists dotIndex. apply Z.ltb_lt in E.
  destruct (rfind_whole_range p c_dot) as [H|H]; fold dotIndex in H.
  - destruct (rfind_whole_range p FileUtils.c_slash) as [H'|H'];
      fold sepIndex in H'; lia.
  - split; [exact H|]. now rewrite slice_to_firstn by lia.
Qed.

Lemma truncated_name f :
  255 < len f ->
  let '(name, ext) := FileUtils.splitext f in
  (forall c, In c (slice_to name (255 - len ext) ++ ext) -> In c f) /\
  (len ext <= 255 -> len (slice_to name (255 - len ext) ++ ext) = 255) /\
  (255 < len ext -> 255 < len (slice_to name (255 - len ext) ++ ext)).
Proof.
  intro Hlen.
  destruct (splitext_parts f) as [E|(d & Hd & E)]; rewrite E.
  - change (len []) with 0. rewrite Z.sub_0_r, app_nil_r.
    rewrite slice_to_firstn by lia. split; [|split].
    + intro c. apply firstn_In'.
    + intros _. unfold len in *. rewrite length_firstn. lia.
    + lia.
  - set (name := firstn (Z.to_nat d) f). set (ext := skipn (Z.to_nat d) f).
    assert (Hname : len name = d).
    { subst name. unfold len in *. rewrite length_firstn. lia. }
    assert (Hext : len ext = len f - d).
    { subst ext. unfold len in *. rewrite length_skipn. lia. }
    split; [|split].
    + intros c Hc. apply in_app_iff in Hc. destruct Hc as [Hc|Hc].
      * apply slice_to_In in Hc. subst name. now apply firstn_In' in Hc.
      * subst ext. now apply skipn_In' in Hc.
    + intro Hle. rewrite len_app, slice_to_firstn by lia.
      unfold len in *. rewrite length_firstn. lia.
    + intro Hgt. rewrite len_app. pose proof (len_nonneg (slice_to name (255 - len ext))). lia.
Qed.

Lemma unnamed_file_safe :
  py "unnamed_file" <> [] /\ py "unnamed_file" <> [c_dot] /\
  py "unnamed_file" <> [c_dot; c_dot] /\
  Forall safe_char (py "unnamed_file").
Proof.
  split; [vm_compute; discriminate|].
  split; [vm_compute; discriminate|].
  split; [vm_compute; discriminate|].
  let v := eval vm_compute in (py "unnamed_file") in
  change (py "unnamed_file") with v. unfold safe_char, FileUtils.c_slash, FileUtils.c_backslash.
  repeat constructor; try discriminate.
Qed.

Lemma sanitize_filename_cases filename :
  FileUtils.sanitize_filename filename = py "unnamed_file" \/
  (FileUtils.cleaned_name filename <> [] /\
   len (FileUtils.cleaned_name filename) <= 255 /\
   FileUtils.sanitize_filename filename = FileUtils.cleaned_name filename) \/
  (255 < len (FileUtils.cleaned_name filename) /\
   FileUtils.sanitize_filename filename
   = let '(name, ext) :=
       FileUtils.splitext (FileUtils.cleaned_name filename) in
     slice_to name (255 - len ext) ++ ext).
Proof.
  unfold FileUtils.sanitize_filename.
  destruct (truthy filename); cbn [negb]; [|now left].
  destruct (truthy (FileUtils.cleaned_name filename)) eqn:Et; cbn [negb];
    [|now left].
  apply truthy_true_iff in Et.
  destruct (255 <? len (FileUtils.cleaned_name filename)) eqn:El.
  - apply Z.ltb_lt in El. right; right. split; [exact El | reflexivity].
  - apply Z.ltb_ge in El. right; left. auto.
Qed.

(** X28.  What [sanitize_filename] returns is one path component: it is
    never empty, never [.] and never [..], and it holds no slash, no
    backslash, none of [< > : | ? *], no double quote and no code point from
    U+0000 to U+001F, whatever the name given and also when a long name has
    been cut. *)
Theorem sanitize_filename_is_one_component filename :
  FileUtils.sanitize_filename filename <> [] /\
  FileUtils.sanitize_filename filename <> [c_dot] /\
  FileUtils.sanitize_filename filename <> [c_dot; c_dot] /\
  Forall safe_char (FileUtils.sanitize_filename filename).
Proof.
  destruct (sanitize_filename_cases filename)
    as [E|[(Hne & Hlen & E)|[Hlen E]]]; rewrite E.
  - apply unnamed_file_safe.
  - destruct (FileUtils.cleaned_name filename) as [|c r] eqn:Ec;
      [congruence|].
    pose proof (cleaned_name_head filename c r Ec) as Hc.
    repeat split; try (intro H; injection H; congruence); try discriminate.
    rewrite <- Ec. apply cleaned_name_safe.
  - pose proof (truncated_name _ Hlen) as Ht.
    destruct (FileUtils.splitext (FileUtils.cleaned_name filename))
      as [name ext].
    destruct Ht as (Hin & Hle & Hgt).
    set (r := slice_to name (255 - len ext) ++ ext) in *.
    assert (Hr : 255 <= len r).
    { destruct (Z_le_gt_dec (len ext) 255) as [H|H];
        [rewrite Hle by exact H; lia | specialize (Hgt ltac:(lia)); lia]. }
    clearbody r.
    split; [intro H; rewrite H in Hr; unfold len in Hr; cbn in Hr; lia|].
    split; [intro H; rewrite H in Hr; unfold len in Hr; cbn in Hr; lia|].
    split; [intro H; rewrite H in Hr; unfold len in Hr; cbn in Hr; lia|].
    apply Forall_forall. intros c Hc.
    pose proof (cleaned_name_safe filename) as Hs.
    rewrite Forall_forall in Hs. now apply Hs, Hin.
Qed.

(** ** Names of at most 255 characters *)

Lemma collapse_dots_no_adjacent s : forall b,
  adjacent_dots (FileUtils.collapse_dots b s) = false /\
  (b = true ->
   match FileUtils.collapse_dots b s with
   | c :: _ => char_eqb c c_dot = false
   | [] => True
   end).
Proof.
  induction s as [|d r IH]; intro b; cbn [FileUtils.collapse_dots].
  - split; [reflexivity | intros _; exact I].
  - destruct (char_eqb d c_dot) eqn:Ed.
    + destruct b.
      * apply IH.
      * split; [|discriminate].
        destruct (IH true) as [Hadj Hhead]. specialize (Hhead eq_refl).
        cbn [adjacent_dots].
        destruct (FileUtils.collapse_dots true r) as [|x t];
          [reflexivity|].
        now rewrite Hhead, andb_false_r, Hadj.
    + split; [|intros _; exact Ed].
      destruct (IH false) as [Hadj _]. cbn [adjacent_dots].
      destruct (FileUtils.collapse_dots false r) as [|x t];
        [reflexivity|].
      now rewrite Ed, Hadj.
Qed.

Lemma adjacent_dots_tail c r :
  adjacent_dots (c :: r) = false -> adjacent_dots r = false.
Proof.
  cbn [adjacent_dots]. destruct r as [|x t]; [reflexivity|].
  intro H. apply orb_false_iff in H. now destruct H.
Qed.

Lemma collapse_dots_fixed s :
  adjacent_dots s = false ->
  FileUtils.collapse_dots false s = s /\
  (match s with c :: _ => char_eqb c c_dot = false | [] => True end ->
   FileUtils.collapse_dots true s = s).
Proof.
  induction s as [|d r IH]; intro Hadj; [split; reflexivity|].
  pose proof (adjacent_dots_tail d r Hadj) as Hr.
  destruct (IH Hr) as [IH1 IH2].
  cbn [FileUtils.collapse_dots]. split.
  - destruct (char_eqb d c_dot) eqn:Ed; [|now rewrite IH1].
    f_equal. apply IH2. destruct r as [|x t]; [exact I|].
    cbn [adjacent_dots] in Hadj. apply orb_false_iff in Hadj.
    destruct Hadj as [Hadj _]. rewrite Ed in Hadj. exact Hadj.
  - intro Hd. rewrite Hd. now rewrite IH1.
Qed.

Lemma adjacent_dots_dropwhile p s :
  adjacent_dots s = false -> adjacent_dots (dropwhile p s) = false.
Proof.
  induction s as [|c r IH]; intro H; [reflexivity|].
  cbn [dropwhile]. destruct (p c); [|exact H].
  apply IH. now apply adjacent_dots_tail in H.
Qed.

Lemma adjacent_dots_prefix a : forall t,
  adjacent_dots (a ++ t) = false -> adjacent_dots a = false.
Proof.
  induction a as [|x a IH]; intros t H; [reflexivity|].
  destruct a as [|y a']; [reflexivity|].
  cbn [app adjacent_dots] in *. apply orb_false_iff in H.
  destruct H as [H1 H2]. rewrite H1. cbn [orb].
  apply (IH t). exact H2.
Qed.

Lemma dropwhile_split p (s : str) : exists t, s = t ++ dropwhile p s.
Proof.
  induction s as [|c r IH]; [exists []; reflexivity|].
  cbn [dropwhile]. destruct (p c); [|exists []; reflexivity].
  destruct IH as [t Ht]. exists (c :: t). cbn [app]. now rewrite <- Ht.
Qed.

Lemma rstrip_by_prefix p s : exists t, s = rstrip_by p s ++ t.
Proof.
  unfold rstrip_by. destruct (dropwhile_split p (rev s)) as [t Ht].
  exists (rev t). rewrite <- rev_app_distr, <- Ht. now rewrite rev_involutive.
Qed.

Lemma adjacent_dots_rstrip p s :
  adjacent_dots s = false -> adjacent_dots (rstrip_by p s) = false.
Proof.
  intro H. destruct (rstrip_by_prefix p s) as [t Ht].
  rewrite Ht in H. now apply adjacent_dots_prefix in H.
Qed.

Lemma strip_chars_idem s :
  FileUtils.strip_chars (FileUtils.strip_chars s) = FileUtils.strip_chars s.
Proof.
  unfold FileUtils.strip_chars, lstrip_by.
  rewrite lstrip_rstrip_comm, dropwhile_idem. apply rstrip_by_idem.
Qed.

Lemma basename_plain s :
  ~ In FileUtils.c_slash s -> FileUtils.basename s = s.
Proof.
  intro H. unfold FileUtils.basename. now rewrite rfind_absent.
Qed.

Lemma cleaned_name_fixed g :
  Forall safe_char g -> adjacent_dots g = false ->
  FileUtils.strip_chars g = g -> FileUtils.cleaned_name g = g.
Proof.
  intros Hsafe Hadj Hstrip. unfold FileUtils.cleaned_name.
  rewrite Forall_forall in Hsafe.
  rewrite basename_plain
    by (intro H; now destruct (Hsafe _ H) as [Hs _]).
  unfold FileUtils.remove_char.
  assert (H1 : filter (fun d => negb (char_eqb d FileUtils.c_slash)) g = g).
  { apply filter_all, forallb_forall. intros c Hc.
    apply negb_true_iff, N.eqb_neq. now destruct (Hsafe c Hc) as (Hs & _ & _). }
  assert (H2 : filter (fun d => negb (char_eqb d FileUtils.c_backslash)) g
               = g).
  { apply filter_all, forallb_forall. intros c Hc.
    apply negb_true_iff, N.eqb_neq. now destruct (Hsafe c Hc) as (_ & Hb & _). }
  assert (H3 : filter (fun c => negb (FileUtils.dangerous c)) g = g).
  { apply filter_all, forallb_forall. intros c Hc.
    apply negb_true_iff. now destruct (Hsafe c Hc) as (_ & _ & Hd). }
  rewrite H1, H2, H3, (proj1 (collapse_dots_fixed g Hadj)). exact Hstrip.
Qed.

Lemma cleaned_name_tidy filename :
  adjacent_dots (FileUtils.cleaned_name filename) = false /\
  FileUtils.strip_chars (FileUtils.cleaned_name filename)
  = FileUtils.cleaned_name filename.
Proof.
  unfold FileUtils.cleaned_name. split; [|apply strip_chars_idem].
  unfold FileUtils.strip_chars, lstrip_by.
  apply adjacent_dots_rstrip, adjacent_dots_dropwhile.
  apply (collapse_dots_no_adjacent _ false).
Qed.

(** X29.  As long as the cleaned name has at most 255 characters, the
    result of [sanitize_filename] has at most 255 characters, holds no two
    full stops in a row, neither starts nor ends with a full stop or a
    space, and is left as it is when it is sanitized again. *)
Theorem sanitize_filename_idempotent_on_short_names filename :
  len (FileUtils.cleaned_name filename) <= 255 ->
  adjacent_dots (FileUtils.sanitize_filename filename) = false /\
  FileUtils.strip_chars (FileUtils.sanitize_filename filename)
  = FileUtils.sanitize_filename filename /\
  FileUtils.sanitize_filename (FileUtils.sanitize_filename filename)
  = FileUtils.sanitize_filename filename /\
  len (FileUtils.sanitize_filename filename) <= 255.
Proof.
  intro Hlen.
  destruct (sanitize_filename_cases filename)
    as [E|[(Hne & _ & E)|[Hlong _]]]; [| |lia]; rewrite E.
  - repeat split; vm_compute; first [reflexivity | discriminate].
  - destruct (cleaned_name_tidy filename) as [Hadj Hstrip].
    set (g := FileUtils.cleaned_name filename) in *.
    split; [exact Hadj|]. split; [exact Hstrip|]. split; [|exact Hlen].
    assert (Hfix : FileUtils.cleaned_name g = g).
    { apply cleaned_name_fixed; auto. apply cleaned_name_safe. }
    unfold FileUtils.sanitize_filename.
    assert (Ht : truthy g = true) by now apply truthy_true_iff.
    rewrite Hfix, Ht. cbn [negb].
    assert (El : (255 <? len g) = false) by (apply Z.ltb_ge; lia).
    now rewrite El.
Qed.

Lemma sanitize_filename_idempotent_on_short_names_witness :
  adjacent_dots (FileUtils.sanitize_filename (py " ..a...b<c>.txt. ")) = false /\
  FileUtils.strip_chars (FileUtils.sanitize_filename (py " ..a...b<c>.txt. "))
  = FileUtils.sanitize_filename (py " ..a...b<c>.txt. ") /\
  FileUtils.sanitize_filename
    (FileUtils.sanitize_filename (py " ..a...b<c>.txt. "))
  = FileUtils.sanitize_filename (py " ..a...b<c>.txt. ") /\
  len (FileUtils.sanitize_filename (py " ..a...b<c>.txt. ")) <= 255.
Proof.
  apply (sanitize_filename_idempotent_on_short_names (py " ..a...b<c>.txt. ")).
  vm_compute. discriminate.
Defined.

(** ** Long names *)

(** X30.  A cleaned name of more than 255 characters is cut to exactly 255
    characters when its extension has at most 255 characters.  When the
    extension alone is longer, the limit is not enforced: the result is
    longer than 255 characters. *)
Theorem sanitize_filename_length_limit filename :
  255 < len (FileUtils.cleaned_name filename) ->
  (len (snd (FileUtils.splitext (FileUtils.cleaned_name filename))) <= 255 ->
   len (FileUtils.sanitize_filename filename) = 255) /\
  (255 < len (snd (FileUtils.splitext (FileUtils.cleaned_name filename))) ->
   255 < len (FileUtils.sanitize_filename filename)).
Proof.
  intro Hlen.
  destruct (sanitize_filename_cases filename)
    as [E|[(_ & Hshort & _)|[_ E]]]; [|lia|].
  - exfalso. unfold FileUtils.sanitize_filename in E.
    destruct (truthy filename) eqn:Et; cbn [negb] in E.
    + assert (Hc : truthy (FileUtils.cleaned_name filename) = true).
      { apply truthy_true_iff. intro H. rewrite H in Hlen.
        unfold len in Hlen. cbn in Hlen. lia. }
      rewrite Hc in E. cbn [negb] in E.
      assert (El : (255 <? len (FileUtils.cleaned_name filename)) = true)
        by now apply Z.ltb_lt.
      rewrite El in E.
      pose proof (truncated_name _ Hlen) as Ht.
      destruct (FileUtils.splitext (FileUtils.cleaned_name filename))
        as [name ext].
      destruct Ht as (_ & Hle & Hgt). rewrite E in Hle, Hgt.
      assert (Hu : len (py "unnamed_file") = 12) by (vm_compute; reflexivity).
      destruct (Z_le_gt_dec (len ext) 255) as [H|H];
        [specialize (Hle H) | specialize (Hgt ltac:(lia))]; lia.
    + apply truthy_false_iff in Et. subst filename.
      vm_compute in Hlen. discriminate.
  - rewrite E. pose proof (truncated_name _ Hlen) as Ht.
    destruct (FileUtils.splitext (FileUtils.cleaned_name filename))
      as [name ext].
    cbn [snd]. destruct Ht as (_ & Hle & Hgt). split; assumption.
Qed.

Lemma sanitize_filename_length_limit_witness :
  255 < len (FileUtils.sanitize_filename long_extension).
Proof.
  apply (proj2 (sanitize_filename_length_limit long_extension
                  ltac:(vm_compute; reflexivity))).
  vm_compute. reflexivity.
Defined.
